(** * vrmix / package hls: HLS media playlists

    A shallow embedding of the [hls] package (manifest model, merger,
    count-based manipulator, parser and serializer) together with the
    properties of its specification.

    Conventions.
    - Go's [uint8] and [uint32] fields are carried as [Z]; every assignment
      that can leave the range writes the wrap-around out ([wrap32]).
    - Go's [int] is carried as [Z].  The only [int] arithmetic of the package
      adds and subtracts slice lengths and loop indices, which cannot leave
      the 64-bit range, so no wrap-around is written for it.
    - A Go [string] is a sequence of bytes: [string] of the standard library.
    - A slice is a [list]; the package never writes through a shared backing
      array (it only re-slices and appends to fresh or owned slices), so
      slice values are all that matters. *)

From Stdlib Require Import ZArith List Bool Lia.
From Stdlib Require Import Strings.String Strings.Ascii.
From Stdlib Require Import Numbers.DecimalString.
From Stdlib Require Numbers.DecimalN.
From Stdlib Require Import Floats.SpecFloat.
Import ListNotations.

Local Open Scope Z_scope.

(** ** Machine integers *)

Definition wrap8 (x : Z) : Z := x mod 2 ^ 8.
Definition wrap32 (x : Z) : Z := x mod 2 ^ 32.

Definition uint8_ok (x : Z) : Prop := 0 <= x < 2 ^ 8.
Definition uint32_ok (x : Z) : Prop := 0 <= x < 2 ^ 32.

(** [len(s)] of a slice, as a Go [int]. *)
Definition len {A : Type} (s : list A) : Z := Z.of_nat (List.length s).

(** ** manifest.go: the data model *)

(** [float32]: an IEEE-754 binary32 datum.  The package only stores,
    parses and prints these values. *)
Definition float32 : Type := spec_float.

Record Segment : Type := mkSegment {
  Path : string;       (* Path to the segment *)
  Duration : float32;  (* Duration of the segment *)
  Title : string       (* Title of the segment *)
}.

Record SegmentGroup : Type := mkSegmentGroup {
  Segments : list Segment
}.

Record Manifest : Type := mkManifest {
  Version : Z;                        (* uint8 *)
  TargetDuration : Z;                 (* uint8 *)
  MediaSequence : Z;                  (* uint32 *)
  DiscontinuitySequence : Z;          (* uint32 *)
  HasEndList : bool;
  SegmentGroups : list SegmentGroup
}.

(** The zero value [Manifest{}]. *)
Definition Manifest_zero : Manifest := mkManifest 0 0 0 0 false [].

(** Field assignments [m.F = v]. *)
Definition set_Version (v : Z) (m : Manifest) : Manifest :=
  mkManifest v (TargetDuration m) (MediaSequence m) (DiscontinuitySequence m)
             (HasEndList m) (SegmentGroups m).
Definition set_TargetDuration (v : Z) (m : Manifest) : Manifest :=
  mkManifest (Version m) v (MediaSequence m) (DiscontinuitySequence m)
             (HasEndList m) (SegmentGroups m).
Definition set_MediaSequence (v : Z) (m : Manifest) : Manifest :=
  mkManifest (Version m) (TargetDuration m) v (DiscontinuitySequence m)
             (HasEndList m) (SegmentGroups m).
Definition set_DiscontinuitySequence (v : Z) (m : Manifest) : Manifest :=
  mkManifest (Version m) (TargetDuration m) (MediaSequence m) v
             (HasEndList m) (SegmentGroups m).
Definition set_HasEndList (v : bool) (m : Manifest) : Manifest :=
  mkManifest (Version m) (TargetDuration m) (MediaSequence m)
             (DiscontinuitySequence m) v (SegmentGroups m).
Definition set_SegmentGroups (v : list SegmentGroup) (m : Manifest) : Manifest :=
  mkManifest (Version m) (TargetDuration m) (MediaSequence m)
             (DiscontinuitySequence m) (HasEndList m) v.

(** [func (m *Manifest) SegmentCount() int]: the loop
    [for _, segmentGroup := range m.SegmentGroups { count += len(...) }]. *)
Definition SegmentCount (m : Manifest) : Z :=
  fold_left (fun count segmentGroup => count + len (Segments segmentGroup))
            (SegmentGroups m) 0.

(** ** count_manipulator.go *)

(** [func (g *SegmentGroup) RemoveFromStart(n int) int]: the group after the
    call and the returned count. *)
Definition SegmentGroup_RemoveFromStart (g : SegmentGroup) (n : Z)
  : SegmentGroup * Z :=
  if n <=? 0 then (g, 0)
  else
    let oldLen := len (Segments g) in
    if n >=? len (Segments g) then (mkSegmentGroup [], oldLen)
    else
      let g' := mkSegmentGroup (skipn (Z.to_nat n) (Segments g)) in
      (g', oldLen - len (Segments g')).

(** [func (g *SegmentGroup) RemoveFromEnd(n int) int]. *)
Definition SegmentGroup_RemoveFromEnd (g : SegmentGroup) (n : Z)
  : SegmentGroup * Z :=
  if n <=? 0 then (g, 0)
  else
    let oldLen := len (Segments g) in
    if n >=? len (Segments g) then (mkSegmentGroup [], oldLen)
    else
      let g' :=
        mkSegmentGroup (firstn (Z.to_nat (len (Segments g) - n)) (Segments g)) in
      (g', oldLen - len (Segments g')).

(** The variables live across one iteration of the loops of
    [Manifest.RemoveFromStart] and [Manifest.RemoveFromEnd]: the receiver
    (whose counters the loop updates in place), the remaining budget [n] and
    the three locals. *)
Record LoopState : Type := mkLoop {
  ls_m : Manifest;
  ls_n : Z;
  ls_newGroups : list SegmentGroup;
  ls_segmentsRemoved : Z;
  ls_segmentsGroupRemoved : Z
}.

Definition loop_init (m : Manifest) (n : Z) : LoopState := mkLoop m n [] 0 0.

(** Body of [for _, group := range m.SegmentGroups] in [RemoveFromStart].
    [group] is a copy of the element, so the callee's re-slicing is local. *)
Definition RemoveFromStart_body (st : LoopState) (group : SegmentGroup)
  : LoopState :=
  if ls_n st <=? 0 then
    mkLoop (ls_m st) (ls_n st) (ls_newGroups st ++ [group])
           (ls_segmentsRemoved st) (ls_segmentsGroupRemoved st)
  else
    let '(group, removed) := SegmentGroup_RemoveFromStart group (ls_n st) in
    let segmentsRemoved := ls_segmentsRemoved st + removed in
    let n := ls_n st - removed in
    if len (Segments group) =? 0 then
      let m1 := set_DiscontinuitySequence
                  (wrap32 (DiscontinuitySequence (ls_m st) + 1)) (ls_m st) in
      let m2 := set_MediaSequence
                  (wrap32 (MediaSequence m1 + wrap32 removed)) m1 in
      mkLoop m2 n (ls_newGroups st) segmentsRemoved
             (ls_segmentsGroupRemoved st + 1)
    else
      let m1 := set_MediaSequence
                  (wrap32 (MediaSequence (ls_m st) + wrap32 removed)) (ls_m st) in
      mkLoop m1 n (ls_newGroups st ++ [group]) segmentsRemoved
             (ls_segmentsGroupRemoved st).

(** [func (m *Manifest) RemoveFromStart(n int) (int, int)]: the manifest
    after the call and the pair (groups removed, segments removed). *)
Definition Manifest_RemoveFromStart (m : Manifest) (n : Z)
  : Manifest * (Z * Z) :=
  let st := fold_left RemoveFromStart_body (SegmentGroups m) (loop_init m n) in
  (set_SegmentGroups (ls_newGroups st) (ls_m st),
   (ls_segmentsGroupRemoved st, ls_segmentsRemoved st)).

(** Body of [for _, group := range slices.Backward(m.SegmentGroups)] in
    [RemoveFromEnd]; [append([]SegmentGroup{group}, newGroups...)] puts the
    group in front. *)
Definition RemoveFromEnd_body (st : LoopState) (group : SegmentGroup)
  : LoopState :=
  if ls_n st <=? 0 then
    mkLoop (ls_m st) (ls_n st) (group :: ls_newGroups st)
           (ls_segmentsRemoved st) (ls_segmentsGroupRemoved st)
  else
    let '(group, removed) := SegmentGroup_RemoveFromEnd group (ls_n st) in
    let segmentsRemoved := ls_segmentsRemoved st + removed in
    let n := ls_n st - removed in
    if len (Segments group) =? 0 then
      let m1 := set_DiscontinuitySequence
                  (wrap32 (DiscontinuitySequence (ls_m st) + 1)) (ls_m st) in
      mkLoop m1 n (ls_newGroups st) segmentsRemoved
             (ls_segmentsGroupRemoved st + 1)
    else
      mkLoop (ls_m st) n (group :: ls_newGroups st) segmentsRemoved
             (ls_segmentsGroupRemoved st).

(** The backward loop of [RemoveFromEnd], before the two final statements. *)
Definition RemoveFromEnd_loop (m : Manifest) (n : Z) : LoopState :=
  fold_left RemoveFromEnd_body (rev (SegmentGroups m)) (loop_init m n).

(** [func (m *Manifest) RemoveFromEnd(n int) (int, int)]. *)
Definition Manifest_RemoveFromEnd (m : Manifest) (n : Z)
  : Manifest * (Z * Z) :=
  let st := RemoveFromEnd_loop m n in
  let m1 := set_SegmentGroups (ls_newGroups st) (ls_m st) in
  let m2 := set_MediaSequence
              (wrap32 (MediaSequence m1 + wrap32 (ls_segmentsRemoved st))) m1 in
  (m2, (ls_segmentsGroupRemoved st, ls_segmentsRemoved st)).

(** ** Merge and compatibility *)

(** [func (m *Manifest) Merge(m2 Manifest) bool]: the receiver after the
    call and the returned flag. *)
Definition Manifest_Merge (m m2 : Manifest) : Manifest * bool :=
  let hasBreakingChange := false in
  let '(m, hasBreakingChange) :=
    if TargetDuration m <? TargetDuration m2
    then (set_TargetDuration (TargetDuration m2) m, true)
    else (m, hasBreakingChange) in
  let '(m, hasBreakingChange) :=
    if Version m <? Version m2
    then (set_Version (Version m2) m, true)
    else (m, hasBreakingChange) in
  (set_SegmentGroups (SegmentGroups m ++ SegmentGroups m2) m, hasBreakingChange).

(** [func (m *Manifest) IsCompatible(m2 Manifest) bool]. *)
Definition Manifest_IsCompatible (m m2 : Manifest) : bool :=
  (Version m >=? Version m2) && (TargetDuration m >=? TargetDuration m2).

(** ** Go's [strings] package, as far as the parser uses it *)

Local Open Scope string_scope.
Local Open Scope Z_scope.

(** The line feed, Go's ["\n"]. *)
Definition LF : ascii := "010"%char.
Definition nl : string := String LF "".

(** [strings.Split(s, sep)] for a one-byte separator: the pieces between
    the separators, [n+1] pieces for [n] separators. *)
Fixpoint Split (s : string) (sep : ascii) : list string :=
  match s with
  | "" => [""]
  | String c s' =>
      if Ascii.eqb c sep then "" :: Split s' sep
      else match Split s' sep with
           | piece :: pieces => String c piece :: pieces
           | [] => [String c ""]
           end
  end.

(** [strings.Cut(s, sep)] for a one-byte separator: (before, after, found);
    when [sep] does not occur the result is [(s, "", false)]. *)
Fixpoint Cut (s : string) (sep : ascii) : string * string * bool :=
  match s with
  | "" => ("", "", false)
  | String c s' =>
      if Ascii.eqb c sep then ("", s', true)
      else let '(before, after, found) := Cut s' sep in
           (String c before, after, found)
  end.

(** [strings.HasPrefix(s, prefix)]. *)
Definition HasPrefix (s pre : string) : bool := String.prefix pre s.

(** ** Go's [strconv] package *)

Inductive NumErrKind : Type := ErrSyntax | ErrRange.

(** [*strconv.NumError]. *)
Record NumError : Type := mkNumError {
  Func : string;
  Num : string;
  NumErr : NumErrKind
}.

(** The value of a byte in ['0'..'9']. *)
Definition digit_of (c : ascii) : option Z :=
  let k := Z.of_N (N_of_ascii c) in
  if (48 <=? k) && (k <=? 57) then Some (k - 48) else None.

(** The digit loop of [strconv.ParseUint] for base 10: [n] is the value read
    so far, [cutoff = maxUint64/10 + 1]. *)
Fixpoint ParseUint_loop (s0 s : string) (maxVal n : Z) : Z + NumError :=
  match s with
  | "" => inl n
  | String c rest =>
      match digit_of c with
      | None => inr (mkNumError "ParseUint" s0 ErrSyntax)
      | Some d =>
          if n >=? (2 ^ 64 - 1) / 10 + 1
          then inr (mkNumError "ParseUint" s0 ErrRange)
          else
            let n1 := n * 10 + d in
            if (n1 >=? 2 ^ 64) || (n1 >? maxVal)
            then inr (mkNumError "ParseUint" s0 ErrRange)
            else ParseUint_loop s0 rest maxVal n1
      end
  end.

(** [strconv.ParseUint(s, 10, bitSize)] for [0 < bitSize <= 64]. *)
Definition ParseUint (s : string) (bitSize : Z) : Z + NumError :=
  if String.eqb s "" then inr (mkNumError "ParseUint" s ErrSyntax)
  else ParseUint_loop s s (2 ^ bitSize - 1) 0.

(** [strconv.FormatUint(x, 10)]: the decimal digits of [x], ["0"] for zero. *)
Definition FormatUint (x : Z) : string :=
  NilZero.string_of_uint (N.to_uint (Z.to_N x)).

(** [strconv.FormatFloat(float64(x), 'f', -1, 32)] at a [uint8] argument
    [x]: the conversion is exact, the value is an integer below 256, and
    the shortest ['f'] rendering of such a value is its decimal digits
    with no fractional part. *)
Definition FormatFloat_uint8 (x : Z) : string := FormatUint x.

(** The value of a string of decimal digits read after [n]; [None] if some
    byte is not a digit. *)
Fixpoint digits_value (s : string) (n : Z) : option Z :=
  match s with
  | "" => Some n
  | String c rest =>
      match digit_of c with
      | None => None
      | Some d => digits_value rest (n * 10 + d)
      end
  end.

(** A stand-in for [strconv.ParseFloat(s, 32)] followed by the [float32]
    conversion, defined on literals made of decimal digits only: the value
    is the nearest binary32 number (ties to even), and a value that rounds
    to infinity is a range error, as in Go.  Every other literal (signs,
    fractions, exponents, hexadecimal, infinities, NaN) is outside this
    stand-in and reported as a syntax error, which Go does not do.  It is
    used only to run the parser on concrete playlists whose durations are
    digit strings; the general statements quantify over the routine. *)
Definition ParseFloat32_digits (s : string) : float32 + NumError :=
  if String.eqb s "" then inr (mkNumError "ParseFloat" s ErrSyntax)
  else match digits_value s 0 with
       | None => inr (mkNumError "ParseFloat" s ErrSyntax)
       | Some v =>
           match binary_normalize 24 128 v 0 false with
           | S754_infinity _ => inr (mkNumError "ParseFloat" s ErrRange)
           | f => inl f
           end
       end.

(** A stand-in for [strconv.FormatFloat(float64(f), 'f', -1, 32)] on the
    same fragment: zero and the positive integers below [2^24], which
    binary32 holds exactly and whose shortest rendering is their decimal
    digits.  Other values are outside the stand-in (rendered as ["?"]). *)
Definition FormatFloat32_digits (f : float32) : string :=
  match f with
  | S754_zero false => "0"
  | S754_finite false m e =>
      let whole := if 0 <=? e then true else Z.pos m mod 2 ^ (- e) =? 0 in
      let v := if 0 <=? e then Z.pos m * 2 ^ e else Z.pos m / 2 ^ (- e) in
      if whole && (v <? 2 ^ 24) then FormatUint v else "?"
  | _ => "?"
  end.

(** ** The parser and the serializer *)

Definition DeclarationField : string := "#EXTM3U".
Definition VersionField : string := "#EXT-X-VERSION".
Definition TargetDurationField : string := "#EXT-X-TARGETDURATION".
Definition MediaSequenceField : string := "#EXT-X-MEDIA-SEQUENCE".
Definition DiscontinuitySequenceField : string := "#EXT-X-DISCONTINUITY-SEQUENCE".
Definition SegmentField : string := "#EXTINF".
Definition DiscontinuityField : string := "#EXT-DISCONTINUITY".
Definition EndListField : string := "#EXT-X-ENDLIST".

(** The sentinel errors of the package and the wrapped [strconv] error. *)
Inductive error : Type :=
| ErrRequiredFieldMissing
| ErrSegmentPathMissing
| ErrFieldRequireValue
| ErrInvalidField
| ErrStrconv (e : NumError).

(** [type ParseError struct]. *)
Record ParseError : Type := mkParseError {
  Field : string;
  Line : Z;
  Err : error
}.

Definition declarationError : ParseError :=
  mkParseError DeclarationField 1 ErrRequiredFieldMissing.

Definition fieldError (field : string) (line : Z) (err : NumError) : ParseError :=
  mkParseError field line (ErrStrconv err).

Definition valueError (field : string) (line : Z) : ParseError :=
  mkParseError field line ErrFieldRequireValue.

Definition invalidFieldError (field : string) (line : Z) : ParseError :=
  mkParseError field line ErrInvalidField.

Definition segmentPathError (line : Z) : ParseError :=
  mkParseError SegmentField line ErrSegmentPathMissing.

(** [func getValue(line string) string]. *)
Definition getValue (line : string) : string :=
  let '(_, value, found) := Cut line ":"%char in
  if negb found then "" else value.

(** [func parseUintValue(field, line string, lineNumber, bitSize int)]. *)
Definition parseUintValue (field line : string) (lineNumber bitSize : Z)
  : Z + ParseError :=
  let value := getValue line in
  if String.eqb value "" then inr (valueError field lineNumber)
  else match ParseUint value bitSize with
       | inr err => inr (fieldError field lineNumber err)
       | inl result => inl result
       end.

(** The variables of [ParseHlsManifest] that live across the line loop;
    [None] is the nil pointer. *)
Record ParserState : Type := mkParser {
  ps_manifest : Manifest;
  ps_tempSegmentGroup : option SegmentGroup;
  ps_tempSegment : option Segment
}.

(** How one iteration of the line loop ends: at the next line, at [break],
    or at a [return manifest, err]. *)
Inductive LineResult : Type :=
| Next (st : ParserState)
| Break (st : ParserState)
| Return (manifest : Manifest) (err : ParseError).

Section Strconv.

(** [strconv.ParseFloat(s, 32)] followed by the conversion [float32(_)],
    and [strconv.FormatFloat(float64(f), 'f', -1, 32)]: standard library
    routines the package calls, taken as given. *)
Variable ParseFloat32 : string -> float32 + NumError.
Variable FormatFloat32 : float32 -> string.

(** The body of [for i, line := range lines]. *)
Definition parse_line (st : ParserState) (i : Z) (line : string) : LineResult :=
  let manifest := ps_manifest st in
  let tempSegmentGroup := ps_tempSegmentGroup st in
  let tempSegment := ps_tempSegment st in
  let lineNumber := i + 2 in
  if HasPrefix line VersionField then
    match parseUintValue VersionField line lineNumber 8 with
    | inr err => Return manifest err
    | inl version =>
        Next (mkParser (set_Version (wrap8 version) manifest)
                       tempSegmentGroup tempSegment)
    end
  else if HasPrefix line TargetDurationField then
    match parseUintValue TargetDurationField line lineNumber 8 with
    | inr err => Return manifest err
    | inl duration =>
        Next (mkParser (set_TargetDuration (wrap8 duration) manifest)
                       tempSegmentGroup tempSegment)
    end
  else if HasPrefix line MediaSequenceField then
    match parseUintValue MediaSequenceField line lineNumber 32 with
    | inr err => Return manifest err
    | inl mediaSequence =>
        Next (mkParser (set_MediaSequence (wrap32 mediaSequence) manifest)
                       tempSegmentGroup tempSegment)
    end
  else if HasPrefix line DiscontinuitySequenceField then
    match parseUintValue DiscontinuitySequenceField line lineNumber 32 with
    | inr err => Return manifest err
    | inl discontinuitySequence =>
        Next (mkParser
                (set_DiscontinuitySequence (wrap32 discontinuitySequence)
                                           manifest)
                tempSegmentGroup tempSegment)
    end
  else if HasPrefix line SegmentField then
    let tempSegmentGroup :=
      match tempSegmentGroup with
      | None => Some (mkSegmentGroup [])
      | Some g => Some g
      end in
    match tempSegment with
    | Some _ => Return manifest (segmentPathError lineNumber)
    | None =>
        let value := getValue line in
        let '(durationValue, title, found) := Cut value ","%char in
        if negb found then Return manifest (valueError SegmentField lineNumber)
        else match ParseFloat32 durationValue with
             | inr err => Return manifest (fieldError SegmentField lineNumber err)
             | inl duration =>
                 Next (mkParser manifest tempSegmentGroup
                                (Some (mkSegment "" duration title)))
             end
    end
  else if HasPrefix line DiscontinuityField then
    let manifest :=
      match tempSegmentGroup with
      | Some g =>
          set_SegmentGroups (SegmentGroups manifest ++ [g])%list manifest
      | None => manifest
      end in
    Next (mkParser manifest None tempSegment)
  else if HasPrefix line EndListField then
    Break (mkParser (set_HasEndList true manifest) tempSegmentGroup tempSegment)
  else
    match tempSegment, tempSegmentGroup with
    | Some s, Some g =>
        let s := mkSegment line (Duration s) (Title s) in
        Next (mkParser manifest
                       (Some (mkSegmentGroup (Segments g ++ [s])%list))
                       None)
    | _, _ => Return manifest (invalidFieldError line lineNumber)
    end.

(** The line loop from index [i] on.  It is left at the end of the slice
    ([Next]), at [break] ([Break]) or by an early [return]. *)
Fixpoint parse_lines (st : ParserState) (i : Z) (lines : list string)
  : LineResult :=
  match lines with
  | [] => Next st
  | line :: rest =>
      match parse_line st i line with
      | Next st' => parse_lines st' (i + 1) rest
      | Break st' => Break st'
      | Return manifest err => Return manifest err
      end
  end.

(** The statements after the loop. *)
Definition parse_finish (st : ParserState) (lines : list string)
  : Manifest * option ParseError :=
  let manifest := ps_manifest st in
  match ps_tempSegment st with
  | Some _ => (manifest, Some (segmentPathError (len lines + 1)))
  | None =>
      match ps_tempSegmentGroup st with
      | Some g =>
          (set_SegmentGroups (SegmentGroups manifest ++ [g])%list manifest,
           None)
      | None => (manifest, None)
      end
  end.

(** [func ParseHlsManifest(data string) (Manifest, error)]; [None] is the
    nil error.  [strings.Split] never returns an empty slice, so
    [lines[0]] is always there. *)
Definition ParseHlsManifest (data : string) : Manifest * option ParseError :=
  let lines := Split data LF in
  let manifest := Manifest_zero in
  let declaration := hd "" lines in
  let lines := tl lines in
  if negb (String.eqb declaration DeclarationField)
  then (manifest, Some declarationError)
  else
    match parse_lines (mkParser manifest None None) 0 lines with
    | Return manifest err => (manifest, Some err)
    | Next st | Break st => parse_finish st lines
    end.

(** The two [WriteString] calls of one segment. *)
Definition write_segment (builder : string) (segment : Segment) : string :=
  let builder :=
    builder ++ (SegmentField ++ ":" ++ FormatFloat32 (Duration segment)
                ++ "," ++ Title segment ++ nl) in
  builder ++ (Path segment ++ nl).

(** [for i, segmentGroup := range m.SegmentGroups] from index [i] on, with
    [count = len(m.SegmentGroups)]. *)
Fixpoint write_groups (builder : string) (i count : Z)
         (groups : list SegmentGroup) : string :=
  match groups with
  | [] => builder
  | segmentGroup :: rest =>
      let builder := fold_left write_segment (Segments segmentGroup) builder in
      let builder :=
        if i <? count - 1 then builder ++ (DiscontinuityField ++ nl)
        else builder in
      write_groups builder (i + 1) count rest
  end.

(** [func (m *Manifest) String() string]. *)
Definition Manifest_String (m : Manifest) : string :=
  let builder := "" in
  let builder := builder ++ (DeclarationField ++ nl) in
  let builder := builder ++ (VersionField ++ ":" ++ FormatUint (Version m) ++ nl) in
  let builder :=
    builder ++ (TargetDurationField ++ ":"
                ++ FormatFloat_uint8 (TargetDuration m) ++ nl) in
  let builder :=
    builder ++ (MediaSequenceField ++ ":" ++ FormatUint (MediaSequence m) ++ nl) in
  let builder :=
    builder ++ (DiscontinuitySequenceField ++ ":"
                ++ FormatUint (DiscontinuitySequence m) ++ nl) in
  let builder :=
    write_groups builder 0 (len (SegmentGroups m)) (SegmentGroups m) in
  if HasEndList m then builder ++ (EndListField ++ nl) else builder.

End Strconv.

(** ** Vocabulary of the specification *)

(** The fields of a manifest hold values of their Go types. *)
Definition Manifest_ok (m : Manifest) : Prop :=
  uint8_ok (Version m) /\ uint8_ok (TargetDuration m) /\
  uint32_ok (MediaSequence m) /\ uint32_ok (DiscontinuitySequence m).

(** Number of segments held by a run of groups. *)
Fixpoint count_segments (gs : list SegmentGroup) : Z :=
  match gs with
  | [] => 0
  | g :: rest => len (Segments g) + count_segments rest
  end.

(** The group sizes, in order. *)
Definition sizes (gs : list SegmentGroup) : list Z :=
  map (fun g => len (Segments g)) gs.

(** A group is non-empty. *)
Definition nonempty_group (g : SegmentGroup) : Prop := Segments g <> [].

(** Walking head-first with budget [n], every group of [dropped] is reached
    with budget left and is consumed whole. *)
Definition consumed_from_head (n : Z) (dropped : list SegmentGroup) : Prop :=
  forall p g q, dropped = (p ++ g :: q)%list ->
    count_segments p < n /\ count_segments p + len (Segments g) <= n.

(** Walking tail-first with budget [n], every group of [dropped] is reached
    with budget left and is consumed whole. *)
Definition consumed_from_tail (n : Z) (dropped : list SegmentGroup) : Prop :=
  forall p g q, dropped = (p ++ g :: q)%list ->
    count_segments q < n /\ len (Segments g) + count_segments q <= n.

(** A group with its first [b] segments removed / its last [b] removed. *)
Definition drop_head (b : Z) (g : SegmentGroup) : SegmentGroup :=
  mkSegmentGroup (skipn (Z.to_nat b) (Segments g)).
Definition drop_tail (b : Z) (g : SegmentGroup) : SegmentGroup :=
  mkSegmentGroup (firstn (Z.to_nat (len (Segments g) - b)) (Segments g)).

(** What the head-first walk leaves of the groups [kept] it did not
    consume whole, when it reaches them with budget [b]: nothing if there
    are none; otherwise the first one loses its first [b] segments
    ([b = 0]: the budget ran out, [b > 0]: the group is larger than the
    budget) and the others are untouched. *)
Definition trimmed_at_head (b : Z) (kept groups' : list SegmentGroup) : Prop :=
  (kept = [] /\ groups' = []) \/
  exists g rest, kept = g :: rest /\
                 (b = 0 \/ 0 < b < len (Segments g)) /\
                 groups' = drop_head b g :: rest.

(** The same for the tail-first walk: the last group of [kept] loses its
    last [b] segments. *)
Definition trimmed_at_tail (b : Z) (kept groups' : list SegmentGroup) : Prop :=
  (kept = [] /\ groups' = []) \/
  exists init g, kept = (init ++ [g])%list /\
                 (b = 0 \/ 0 < b < len (Segments g)) /\
                 groups' = (init ++ [drop_tail b g])%list.

(** The first line of a text: what precedes its first line feed. *)
Definition first_line (data : string) : string := fst (fst (Cut data LF)).

(** The first non-empty line of a text, if it has one. *)
Definition first_nonempty_line (data : string) : option string :=
  find (fun l => negb (String.eqb l "")) (Split data LF).

(** A line that starts with none of the tags the parser knows: the parser
    takes such a line for the path of the pending segment. *)
Definition is_path_line (line : string) : bool :=
  negb (HasPrefix line VersionField
        || HasPrefix line TargetDurationField
        || HasPrefix line MediaSequenceField
        || HasPrefix line DiscontinuitySequenceField
        || HasPrefix line SegmentField
        || HasPrefix line DiscontinuityField
        || HasPrefix line EndListField).

(** The two failures the specification names: a result whose error wraps
    [ErrRequiredFieldMissing], resp. [ErrSegmentPathMissing]. *)
Definition MissingDeclaration (r : Manifest * option ParseError) : Prop :=
  exists e, snd r = Some e /\ Err e = ErrRequiredFieldMissing.

(** The paths of the segments of a manifest, in order. *)
Definition paths (m : Manifest) : list string :=
  flat_map (fun g => map Path (Segments g)) (SegmentGroups m).

(** Every segment of [ss] has for path a line of [L] that starts with
    none of the tags. *)
Definition paths_from (L : list string) (ss : list Segment) : Prop :=
  Forall (fun s => In (Path s) L /\ is_path_line (Path s) = true) ss.

(** The same for all the segments a parser state holds, in the groups of
    its manifest and in its pending group. *)
Definition state_paths_from (L : list string) (st : ParserState) : Prop :=
  Forall (fun g => paths_from L (Segments g)) (SegmentGroups (ps_manifest st)) /\
  (forall g, ps_tempSegmentGroup st = Some g -> paths_from L (Segments g)).

(** The state the line loop is left with, when it does not return early. *)
Definition loop_end (r : LineResult) : option ParserState :=
  match r with
  | Next st | Break st => Some st
  | Return _ _ => None
  end.

(** The parser's initial state. *)
Definition parser_init : ParserState := mkParser Manifest_zero None None.

(** A manifest of two groups, of two and three segments. *)
Definition seg (path : string) : Segment := mkSegment path (S754_zero false) "".
Definition manifest_2_3 : Manifest :=
  mkManifest 3 4 0 0 true
    [mkSegmentGroup [seg "0.ts"; seg "1.ts"];
     mkSegmentGroup [seg "2.ts"; seg "3.ts"; seg "4.ts"]].

(** ** The text of a rendering *)

(** A text contains a byte. *)
Fixpoint contains (c : ascii) (s : string) : bool :=
  match s with
  | "" => false
  | String x s' => Ascii.eqb x c || contains c s'
  end.

(** Lines put one after the other, each ended by a line feed. *)
Fixpoint unlines (ls : list string) : string :=
  match ls with
  | [] => ""
  | l :: ls => l ++ nl ++ unlines ls
  end.

(** Whether a segment is pending, read off the text: a segment-info line
    opens one, a path line closes it, any other line leaves it. *)
Definition pending_after_line (pending : bool) (line : string) : bool :=
  if HasPrefix line SegmentField then true
  else if is_path_line line then false
  else pending.

Definition is_pending (st : ParserState) : bool :=
  match ps_tempSegment st with
  | Some _ => true
  | None => false
  end.

(** A segment whose path and title can stand on a line of their own: no
    line feed in either, and a path that starts with none of the tags. *)
Definition Segment_text_ok (s : Segment) : Prop :=
  contains LF (Path s) = false /\ contains LF (Title s) = false /\
  is_path_line (Path s) = true.

Definition Manifest_text_ok (m : Manifest) : Prop :=
  forall g s, In g (SegmentGroups m) -> In s (Segments g) -> Segment_text_ok s.

(** The titles a parser state holds, the pending one included, have no
    line feed. *)
Definition state_titles_ok (st : ParserState) : Prop :=
  Forall (fun g => Forall (fun s => contains LF (Title s) = false) (Segments g))
         (SegmentGroups (ps_manifest st)) /\
  (forall g, ps_tempSegmentGroup st = Some g ->
             Forall (fun s => contains LF (Title s) = false) (Segments g)) /\
  (forall s, ps_tempSegment st = Some s -> contains LF (Title s) = false).

Section RenderedLines.

Variable FormatFloat32 : float32 -> string.

(** The two lines [String] writes for a segment. *)
Definition segment_lines (s : Segment) : list string :=
  [SegmentField ++ ":" ++ FormatFloat32 (Duration s) ++ "," ++ Title s; Path s].

(** The lines it writes for the groups from index [i] on. *)
Fixpoint group_lines (i count : Z) (groups : list SegmentGroup) : list string :=
  match groups with
  | [] => []
  | g :: rest =>
      (flat_map segment_lines (Segments g)
       ++ (if i <? count - 1 then [DiscontinuityField] else [])
       ++ group_lines (i + 1) count rest)%list
  end.

(** The lines it writes after the declaration, the end marker apart. *)
Definition header_lines (m : Manifest) : list string :=
  [VersionField ++ ":" ++ FormatUint (Version m);
   TargetDurationField ++ ":" ++ FormatFloat_uint8 (TargetDuration m);
   MediaSequenceField ++ ":" ++ FormatUint (MediaSequence m);
   DiscontinuitySequenceField ++ ":" ++ FormatUint (DiscontinuitySequence m)].

Definition body_lines (m : Manifest) : list string :=
  (header_lines m
   ++ group_lines 0 (len (SegmentGroups m)) (SegmentGroups m))%list.

End RenderedLines.

(** ** Concrete playlists *)

(** The declaration alone: the empty playlist. *)
Definition playlist_empty : string := "#EXTM3U".

(** What [String] writes for the zero manifest. *)
Definition playlist_zero : string :=
  "#EXTM3U" ++ nl ++ "#EXT-X-VERSION:0" ++ nl ++ "#EXT-X-TARGETDURATION:0" ++ nl
  ++ "#EXT-X-MEDIA-SEQUENCE:0" ++ nl ++ "#EXT-X-DISCONTINUITY-SEQUENCE:0" ++ nl.

(** An empty line, then the declaration. *)
Definition playlist_blank_first : string := nl ++ "#EXTM3U".

(** A segment-info line at the end of the input, with no line feed behind. *)
Definition playlist_pending : string := "#EXTM3U" ++ nl ++ "#EXTINF:1,a".

(** The same, followed by a line feed: the last line is empty. *)
Definition playlist_empty_path : string :=
  "#EXTM3U" ++ nl ++ "#EXTINF:1,a" ++ nl.




(** A live playlist: one segment, no end marker, no final line feed. *)
Definition playlist_live : string :=
  "#EXTM3U" ++ nl ++ "#EXT-X-VERSION:3" ++ nl ++ "#EXT-X-TARGETDURATION:4" ++ nl
  ++ "#EXTINF:4,t" ++ nl ++ "0.ts".

(** A finished playlist: one segment and the end marker. *)
Definition playlist_vod : string :=
  "#EXTM3U" ++ nl ++ "#EXT-X-VERSION:3" ++ nl ++ "#EXT-X-TARGETDURATION:4" ++ nl
  ++ "#EXTINF:4,t" ++ nl ++ "0.ts" ++ nl ++ "#EXT-X-ENDLIST" ++ nl.

(** The numbers 1 and 4 in binary32. *)
Definition f32_1 : float32 := S754_finite false 8388608 (-23).
Definition f32_4 : float32 := S754_finite false 8388608 (-21).

(** ** Further vocabulary: the removals as functions of the groups *)

(** All the segments of a run of groups, in playback order. *)
Definition all_segments (gs : list SegmentGroup) : list Segment :=
  flat_map Segments gs.

(** The groups a head-first walk with budget [n] leaves. *)
Fixpoint trim_head (n : Z) (gs : list SegmentGroup) : list SegmentGroup :=
  match gs with
  | [] => []
  | g :: rest =>
      if n <=? 0 then g :: rest
      else if len (Segments g) <=? n then trim_head (n - len (Segments g)) rest
      else drop_head n g :: rest
  end.

(** The number of groups it drops. *)
Fixpoint dropped_head (n : Z) (gs : list SegmentGroup) : Z :=
  match gs with
  | [] => 0
  | g :: rest =>
      if n <=? 0 then 0
      else if len (Segments g) <=? n
           then dropped_head (n - len (Segments g)) rest + 1
           else 0
  end.

(** The number of segments a walk with budget [n] removes from [count]. *)
Definition clamp (n count : Z) : Z := Z.min (Z.max n 0) count.

(** A group, a manifest, played backwards. *)
Definition mirror_group (g : SegmentGroup) : SegmentGroup :=
  mkSegmentGroup (rev (Segments g)).
Definition mirror (m : Manifest) : Manifest :=
  set_SegmentGroups (rev (map mirror_group (SegmentGroups m))) m.


(** ** Further vocabulary: the parser's states *)

(** A state with a segment pending and no group to put it in: whatever
    follows, the parser fails. *)
Definition doomed (st : ParserState) : Prop :=
  ps_tempSegment st <> None /\ ps_tempSegmentGroup st = None.

(** No group closed so far is empty, and the pending group is empty only
    while its first segment is pending. *)
Definition state_groups_ok (st : ParserState) : Prop :=
  doomed st \/
  (Forall nonempty_group (SegmentGroups (ps_manifest st)) /\
   forall g, ps_tempSegmentGroup st = Some g -> Segments g = [] ->
             ps_tempSegment st <> None).

(** A finished playlist followed by lines that are no playlist. *)
Definition playlist_vod_trailer : string :=
  playlist_vod ++ "#EXTINF:oops" ++ nl ++ "#EXT-X-VERSION:x".


(** ** Further vocabulary: what prints and parses back *)

(** A duration that [String] prints on one line, without the comma that
    ends it in a segment-info line, and that [ParseFloat] reads back. *)
Definition Duration_prints_ok (ParseFloat32 : string -> float32 + NumError)
           (FormatFloat32 : float32 -> string) (d : float32) : Prop :=
  contains LF (FormatFloat32 d) = false /\
  contains ","%char (FormatFloat32 d) = false /\
  ParseFloat32 (FormatFloat32 d) = inl d.

(** All the durations of a manifest do. *)
Definition Durations_print_ok (ParseFloat32 : string -> float32 + NumError)
           (FormatFloat32 : float32 -> string) (m : Manifest) : Prop :=
  forall g s, In g (SegmentGroups m) -> In s (Segments g) ->
              Duration_prints_ok ParseFloat32 FormatFloat32 (Duration s).

(** The manifest of [playlist_vod]. *)
Definition manifest_vod : Manifest :=
  mkManifest 3 4 0 0 true [mkSegmentGroup [mkSegment "0.ts" f32_4 "t"]].


(** ** Target durations

    [manifest.go]: the checks of the segments' rounded durations against
    a target duration. *)

Section TargetDurations.

(** [func (s *Segment) TargetDuration() uint8], which is
    [uint8(math.Round(float64(s.Duration)))], is a parameter here: the
    loops below only compare its results. *)
Variable Segment_TargetDuration : Segment -> Z.

(** The loop of [func (g *SegmentGroup) ExceedsTargetDuration]. *)
Fixpoint SegmentGroup_ExceedsTargetDuration_loop (segments : list Segment)
         (targetDuration : Z) : bool :=
  match segments with
  | [] => false
  | segment :: rest =>
      if Segment_TargetDuration segment >? targetDuration then true
      else SegmentGroup_ExceedsTargetDuration_loop rest targetDuration
  end.

(** [func (g *SegmentGroup) ExceedsTargetDuration(targetDuration uint8) bool]. *)
Definition SegmentGroup_ExceedsTargetDuration (g : SegmentGroup)
           (targetDuration : Z) : bool :=
  SegmentGroup_ExceedsTargetDuration_loop (Segments g) targetDuration.

(** The loop of [func (m *Manifest) ExceedsTargetDuration]. *)
Fixpoint Manifest_ExceedsTargetDuration_loop (groups : list SegmentGroup)
         (targetDuration : Z) : bool :=
  match groups with
  | [] => false
  | segmentGroup :: rest =>
      if SegmentGroup_ExceedsTargetDuration segmentGroup targetDuration then true
      else Manifest_ExceedsTargetDuration_loop rest targetDuration
  end.

(** [func (m *Manifest) ExceedsTargetDuration(targetDuration uint8) bool]. *)
Definition Manifest_ExceedsTargetDuration (m : Manifest) (targetDuration : Z)
  : bool :=
  Manifest_ExceedsTargetDuration_loop (SegmentGroups m) targetDuration.

(** [func (m *Manifest) HasValidTargetDuration() bool]. *)
Definition Manifest_HasValidTargetDuration (m : Manifest) : bool :=
  negb (Manifest_ExceedsTargetDuration m (TargetDuration m)).

(** [func (g *SegmentGroup) MaxTargetDuration() uint8]. *)
Definition SegmentGroup_MaxTargetDuration (g : SegmentGroup) : Z :=
  fold_left (fun maxTargetDuration segment =>
               let targetDuration := Segment_TargetDuration segment in
               if targetDuration >? maxTargetDuration then targetDuration
               else maxTargetDuration)
            (Segments g) 0.

(** [func (m *Manifest) MaxTargetDuration() uint8]. *)
Definition Manifest_MaxTargetDuration (m : Manifest) : Z :=
  fold_left (fun maxTargetDuration segmentGroup =>
               let targetDuration :=
                 SegmentGroup_MaxTargetDuration segmentGroup in
               if targetDuration >? maxTargetDuration then targetDuration
               else maxTargetDuration)
            (SegmentGroups m) 0.

End TargetDurations.

(** [math.Round] on a binary float: the nearest integer, halves away from
    zero; nothing for infinities and NaN. *)
Definition Round (f : float32) : option Z :=
  match f with
  | S754_zero _ => Some 0
  | S754_finite s m e =>
      let v := if 0 <=? e then Z.pos m * 2 ^ e
               else (Z.pos m + 2 ^ (- e - 1)) / 2 ^ (- e) in
      Some (if s then - v else v)
  | _ => None
  end.

(** A stand-in for [Segment.TargetDuration]: exact where the rounded
    duration lies in 0..255.  Go leaves the conversion of any other value
    to [uint8] to the implementation; the stand-in gives 0 there. *)
Definition Segment_TargetDuration_round (s : Segment) : Z :=
  match Round (Duration s) with
  | Some v => if (0 <=? v) && (v <=? 255) then v else 0
  | None => 0
  end.

(** A manifest with a segment longer than its target duration. *)
Definition manifest_long : Manifest :=
  mkManifest 3 1 0 0 true
    [mkSegmentGroup [mkSegment "0.ts" f32_1 "a"];
     mkSegmentGroup [mkSegment "1.ts" f32_4 "b"]].


(** ** Longest segment *)

(** The comparison [a > b] of two floats: false when either is NaN. *)
Definition float_gt (a b : float32) : bool := SFltb b a.

(** [func (g *SegmentGroup) MaxDuration() float32]. *)
Definition SegmentGroup_MaxDuration (g : SegmentGroup) : float32 :=
  fold_left (fun maxDuration segment =>
               let duration := Duration segment in
               if float_gt duration maxDuration then duration
               else maxDuration)
            (Segments g) (S754_zero false).

(** [func (m *Manifest) MaxDuration() float32]. *)
Definition Manifest_MaxDuration (m : Manifest) : float32 :=
  fold_left (fun maxDuration segmentGroup =>
               let duration := SegmentGroup_MaxDuration segmentGroup in
               if float_gt duration maxDuration then duration
               else maxDuration)
            (SegmentGroups m) (S754_zero false).

Definition not_nan (f : float32) : Prop := f <> S754_nan.

(** Zero, or a duration of one of the segments that is above zero. *)
Definition zero_or_positive_of (ss : list Segment) (d : float32) : Prop :=
  d = S754_zero false \/
  exists s, In s ss /\ d = Duration s /\ float_gt d (S754_zero false) = true.


(** ** Further vocabulary: the lines the parser reads *)

(** The lines in front of the first line that starts with the end
    marker: the loop leaves at that line. *)
Fixpoint lines_before_end_marker (lines : list string) : list string :=
  match lines with
  | [] => []
  | l :: rest =>
      if HasPrefix l EndListField then [] else l :: lines_before_end_marker rest
  end.

(** The paths of the segments a parser state holds, those of its open
    group behind those of its manifest. *)
Definition state_paths (st : ParserState) : list string :=
  (paths (ps_manifest st)
   ++ match ps_tempSegmentGroup st with
      | Some g => map Path (Segments g)
      | None => []
      end)%list.


(** * Properties *)

Local Close Scope string_scope.

(** ** Machine arithmetic and slices *)

Lemma wrap32_ok (x : Z) : uint32_ok (wrap32 x).
Proof. unfold uint32_ok, wrap32. apply Z.mod_pos_bound. lia. Qed.

Lemma wrap32_small (x : Z) : uint32_ok x -> wrap32 x = x.
Proof. unfold uint32_ok, wrap32. intros H. apply Z.mod_small. exact H. Qed.

Lemma wrap32_add_l (a b : Z) : wrap32 (wrap32 a + b) = wrap32 (a + b).
Proof. unfold wrap32. apply Zplus_mod_idemp_l. Qed.

Lemma wrap32_add_r (a b : Z) : wrap32 (a + wrap32 b) = wrap32 (a + b).
Proof. unfold wrap32. apply Zplus_mod_idemp_r. Qed.

Lemma wrap8_small (x : Z) : uint8_ok x -> wrap8 x = x.
Proof. unfold uint8_ok, wrap8. intros H. apply Z.mod_small. exact H. Qed.

Lemma wrap8_ok (x : Z) : uint8_ok (wrap8 x).
Proof. unfold uint8_ok, wrap8. apply Z.mod_pos_bound. lia. Qed.

Lemma len_nonneg {A : Type} (l : list A) : 0 <= len l.
Proof. unfold len. lia. Qed.

Lemma len_nil_iff {A : Type} (l : list A) : len l = 0 <-> l = [].
Proof.
  unfold len. destruct l as [|a l]; simpl; split; intros H;
    try reflexivity; try discriminate; lia.
Qed.

Lemma len_cons {A : Type} (a : A) (l : list A) : len (a :: l) = 1 + len l.
Proof. unfold len. simpl List.length. lia. Qed.

Lemma len_app {A : Type} (l1 l2 : list A) : len (l1 ++ l2) = len l1 + len l2.
Proof. unfold len. rewrite length_app. lia. Qed.

Lemma len_skipn {A : Type} (l : list A) (n : Z) :
  0 <= n <= len l -> len (skipn (Z.to_nat n) l) = len l - n.
Proof. unfold len. intros H. rewrite length_skipn. lia. Qed.

Lemma len_firstn {A : Type} (l : list A) (n : Z) :
  0 <= n <= len l -> len (firstn (Z.to_nat n) l) = n.
Proof. unfold len. intros H. rewrite length_firstn. lia. Qed.

Lemma SegmentGroup_eta (g : SegmentGroup) : mkSegmentGroup (Segments g) = g.
Proof. destruct g. reflexivity. Qed.

Lemma drop_head_0 (g : SegmentGroup) : drop_head 0 g = g.
Proof. unfold drop_head. simpl. apply SegmentGroup_eta. Qed.

Lemma drop_tail_0 (g : SegmentGroup) : drop_tail 0 g = g.
Proof.
  unfold drop_tail. rewrite Z.sub_0_r. unfold len. rewrite Nat2Z.id.
  rewrite firstn_all. apply SegmentGroup_eta.
Qed.

Lemma count_segments_nonneg (gs : list SegmentGroup) : 0 <= count_segments gs.
Proof.
  induction gs as [|g gs IH]; simpl; [lia|].
  pose proof (len_nonneg (Segments g)). lia.
Qed.

Lemma count_segments_app (gs1 gs2 : list SegmentGroup) :
  count_segments (gs1 ++ gs2) = count_segments gs1 + count_segments gs2.
Proof. induction gs1 as [|g gs1 IH]; simpl; lia. Qed.

Lemma count_segments_rev (gs : list SegmentGroup) :
  count_segments (rev gs) = count_segments gs.
Proof.
  induction gs as [|g gs IH]; simpl; [reflexivity|].
  rewrite count_segments_app. simpl. lia.
Qed.

Lemma SegmentCount_count (m : Manifest) :
  SegmentCount m = count_segments (SegmentGroups m).
Proof.
  unfold SegmentCount.
  assert (H : forall gs acc,
             fold_left (fun count g => count + len (Segments g)) gs acc
             = acc + count_segments gs).
  { induction gs as [|g gs IH]; intros acc; simpl; [lia|]. rewrite IH. lia. }
  rewrite H. lia.
Qed.

(** ** The group-level removals *)

Lemma SegmentGroup_RemoveFromStart_whole (g : SegmentGroup) (n : Z) :
  0 < n -> len (Segments g) <= n ->
  SegmentGroup_RemoveFromStart g n = (mkSegmentGroup [], len (Segments g)).
Proof.
  intros Hn Hle. unfold SegmentGroup_RemoveFromStart.
  destruct (Z.leb_spec n 0); [lia|].
  destruct (Z.geb_spec n (len (Segments g))); [reflexivity|lia].
Qed.

Lemma SegmentGroup_RemoveFromStart_part (g : SegmentGroup) (n : Z) :
  0 < n < len (Segments g) ->
  SegmentGroup_RemoveFromStart g n = (drop_head n g, n).
Proof.
  intros Hn. unfold SegmentGroup_RemoveFromStart.
  destruct (Z.leb_spec n 0); [lia|].
  destruct (Z.geb_spec n (len (Segments g))); [lia|].
  unfold drop_head. simpl. rewrite len_skipn by lia. f_equal. lia.
Qed.

Lemma SegmentGroup_RemoveFromEnd_whole (g : SegmentGroup) (n : Z) :
  0 < n -> len (Segments g) <= n ->
  SegmentGroup_RemoveFromEnd g n = (mkSegmentGroup [], len (Segments g)).
Proof.
  intros Hn Hle. unfold SegmentGroup_RemoveFromEnd.
  destruct (Z.leb_spec n 0); [lia|].
  destruct (Z.geb_spec n (len (Segments g))); [reflexivity|lia].
Qed.

Lemma SegmentGroup_RemoveFromEnd_part (g : SegmentGroup) (n : Z) :
  0 < n < len (Segments g) ->
  SegmentGroup_RemoveFromEnd g n = (drop_tail n g, n).
Proof.
  intros Hn. unfold SegmentGroup_RemoveFromEnd.
  destruct (Z.leb_spec n 0); [lia|].
  destruct (Z.geb_spec n (len (Segments g))); [lia|].
  unfold drop_tail. simpl. rewrite len_firstn by lia. f_equal. lia.
Qed.

(** ** The loop of [RemoveFromStart] *)

Lemma RemoveFromStart_body_idle (st : LoopState) (g : SegmentGroup) :
  ls_n st <= 0 ->
  RemoveFromStart_body st g =
  mkLoop (ls_m st) (ls_n st) (ls_newGroups st ++ [g])
         (ls_segmentsRemoved st) (ls_segmentsGroupRemoved st).
Proof.
  intros H. unfold RemoveFromStart_body.
  destruct (Z.leb_spec (ls_n st) 0); [reflexivity|lia].
Qed.

Lemma RemoveFromStart_body_whole (st : LoopState) (g : SegmentGroup) :
  0 < ls_n st -> len (Segments g) <= ls_n st ->
  RemoveFromStart_body st g =
  mkLoop (set_MediaSequence
            (wrap32 (MediaSequence (ls_m st) + wrap32 (len (Segments g))))
            (set_DiscontinuitySequence
               (wrap32 (DiscontinuitySequence (ls_m st) + 1)) (ls_m st)))
         (ls_n st - len (Segments g)) (ls_newGroups st)
         (ls_segmentsRemoved st + len (Segments g))
         (ls_segmentsGroupRemoved st + 1).
Proof.
  intros Hn Hle. unfold RemoveFromStart_body.
  destruct (Z.leb_spec (ls_n st) 0); [lia|].
  rewrite SegmentGroup_RemoveFromStart_whole by assumption.
  reflexivity.
Qed.

Lemma RemoveFromStart_body_part (st : LoopState) (g : SegmentGroup) :
  0 < ls_n st < len (Segments g) ->
  RemoveFromStart_body st g =
  mkLoop (set_MediaSequence
            (wrap32 (MediaSequence (ls_m st) + wrap32 (ls_n st))) (ls_m st))
         0 (ls_newGroups st ++ [drop_head (ls_n st) g])
         (ls_segmentsRemoved st + ls_n st)
         (ls_segmentsGroupRemoved st).
Proof.
  intros Hn. unfold RemoveFromStart_body.
  destruct (Z.leb_spec (ls_n st) 0); [lia|].
  rewrite SegmentGroup_RemoveFromStart_part by assumption.
  assert (Hlen : (len (Segments (drop_head (ls_n st) g)) =? 0) = false).
  { apply Z.eqb_neq. unfold drop_head. simpl. rewrite len_skipn by lia. lia. }
  rewrite Hlen. rewrite Z.sub_diag. reflexivity.
Qed.

(** Once the budget is spent the loop only copies groups. *)
Lemma RemoveFromStart_loop_idle (gs : list SegmentGroup) (st : LoopState) :
  ls_n st <= 0 ->
  fold_left RemoveFromStart_body gs st =
  mkLoop (ls_m st) (ls_n st) (ls_newGroups st ++ gs)
         (ls_segmentsRemoved st) (ls_segmentsGroupRemoved st).
Proof.
  revert st. induction gs as [|g gs IH]; intros st H; simpl.
  - rewrite app_nil_r. destruct st; reflexivity.
  - rewrite RemoveFromStart_body_idle by assumption.
    rewrite IH by (simpl; assumption). simpl.
    rewrite <- app_assoc. reflexivity.
Qed.

Lemma consumed_from_head_nil (n : Z) : consumed_from_head n [].
Proof. intros p g q H. destruct p; discriminate. Qed.

Lemma consumed_from_head_cons (n : Z) (g : SegmentGroup) (gs : list SegmentGroup) :
  0 < n -> len (Segments g) <= n ->
  consumed_from_head (n - len (Segments g)) gs ->
  consumed_from_head n (g :: gs).
Proof.
  intros Hn Hle H p x q E. destruct p as [|y p]; simpl in E.
  - injection E as <- _. simpl. lia.
  - injection E as <- E. destruct (H p x q E) as [H1 H2]. simpl. lia.
Qed.

(** The walk: which groups go, what is left, and the locals at the end. *)
Lemma RemoveFromStart_loop_walk (gs : list SegmentGroup) (st : LoopState) :
  0 < ls_n st ->
  exists dropped kept groups',
    gs = dropped ++ kept /\
    consumed_from_head (ls_n st) dropped /\
    trimmed_at_head (ls_n st - count_segments dropped) kept groups' /\
    let st' := fold_left RemoveFromStart_body gs st in
    ls_newGroups st' = ls_newGroups st ++ groups' /\
    ls_segmentsGroupRemoved st' = ls_segmentsGroupRemoved st + len dropped /\
    ls_segmentsRemoved st' =
      ls_segmentsRemoved st + Z.min (ls_n st) (count_segments gs).
Proof.
  revert st. induction gs as [|g gs IH]; intros st Hn.
  - exists [], [], []. simpl.
    split; [reflexivity|]. split; [apply consumed_from_head_nil|].
    split; [left; split; reflexivity|].
    rewrite app_nil_r. unfold len. simpl. repeat split; try reflexivity; lia.
  - pose proof (len_nonneg (Segments g)) as Hg.
    pose proof (count_segments_nonneg gs) as Hgs.
    destruct (Z.le_gt_cases (len (Segments g)) (ls_n st)) as [Hle|Hgt].
    + (* the group is consumed whole *)
      simpl fold_left. rewrite RemoveFromStart_body_whole by assumption.
      destruct (Z.eq_dec (ls_n st) (len (Segments g))) as [Heq|Hne].
      * (* and the budget is spent *)
        exists [g], gs, gs. simpl count_segments.
        split; [reflexivity|].
        split; [apply consumed_from_head_cons; try assumption;
                apply consumed_from_head_nil|].
        split.
        { destruct gs as [|g2 rest]; [left; split; reflexivity|].
          right. exists g2, rest.
          split; [reflexivity|]. split; [left; lia|].
          replace (ls_n st - (len (Segments g) + 0)) with 0 by lia.
          rewrite drop_head_0. reflexivity. }
        rewrite RemoveFromStart_loop_idle by (simpl; lia). simpl.
        change (len [g]) with 1. repeat split; try reflexivity; lia.
      * match goal with
        | |- context [fold_left _ gs ?s] => destruct (IH s) as
              (dropped & kept & groups' & E & Hc & Ht & Hng & Hgr & Hsr)
        end; [simpl; lia|].
        simpl in Hc, Ht, Hng, Hgr, Hsr.
        exists (g :: dropped), kept, groups'. simpl count_segments.
        split; [simpl; rewrite E; reflexivity|].
        split; [apply consumed_from_head_cons; assumption|].
        split.
        { replace (ls_n st - (len (Segments g) + count_segments dropped))
            with (ls_n st - len (Segments g) - count_segments dropped) by lia.
          exact Ht. }
        cbv zeta. split; [exact Hng|].
        split; [rewrite Hgr, len_cons; lia|].
        rewrite Hsr. lia.
    + (* the group is larger than the budget *)
      simpl fold_left. rewrite RemoveFromStart_body_part by lia.
      rewrite RemoveFromStart_loop_idle by (simpl; lia). simpl.
      exists [], (g :: gs), (drop_head (ls_n st) g :: gs). simpl.
      split; [reflexivity|]. split; [apply consumed_from_head_nil|].
      split.
      { right. exists g, gs. rewrite Z.sub_0_r.
        split; [reflexivity|]. split; [right; lia|reflexivity]. }
      rewrite <- app_assoc. change (len (@nil SegmentGroup)) with 0.
      repeat split; try reflexivity; lia.
Qed.

(** The receiver's fields during the loop: only the two counters move. *)
Lemma RemoveFromStart_loop_fields (gs : list SegmentGroup) (st : LoopState) :
  uint32_ok (MediaSequence (ls_m st)) ->
  uint32_ok (DiscontinuitySequence (ls_m st)) ->
  let st' := fold_left RemoveFromStart_body gs st in
  ls_m st' =
  mkManifest (Version (ls_m st)) (TargetDuration (ls_m st))
    (wrap32 (MediaSequence (ls_m st)
             + (ls_segmentsRemoved st' - ls_segmentsRemoved st)))
    (wrap32 (DiscontinuitySequence (ls_m st)
             + (ls_segmentsGroupRemoved st' - ls_segmentsGroupRemoved st)))
    (HasEndList (ls_m st)) (SegmentGroups (ls_m st)).
Proof.
  revert st. induction gs as [|g gs IH]; intros st Hm Hd; simpl.
  - rewrite !Z.sub_diag, !Z.add_0_r, !wrap32_small by assumption.
    destruct (ls_m st); reflexivity.
  - destruct (Z.le_gt_cases (ls_n st) 0) as [Hidle|Hpos].
    + rewrite RemoveFromStart_body_idle by assumption.
      rewrite IH by (simpl; assumption). reflexivity.
    + destruct (Z.le_gt_cases (len (Segments g)) (ls_n st)) as [Hle|Hgt].
      * rewrite RemoveFromStart_body_whole by assumption.
        rewrite IH by (simpl; apply wrap32_ok). simpl.
        rewrite !wrap32_add_r, !wrap32_add_l. f_equal; f_equal; lia.
      * rewrite RemoveFromStart_body_part by lia.
        rewrite IH by (simpl; try apply wrap32_ok; assumption). simpl.
        rewrite !wrap32_add_r, !wrap32_add_l. f_equal; f_equal; lia.
Qed.

(** ** The loop of [RemoveFromEnd] *)

Lemma RemoveFromEnd_body_idle (st : LoopState) (g : SegmentGroup) :
  ls_n st <= 0 ->
  RemoveFromEnd_body st g =
  mkLoop (ls_m st) (ls_n st) (g :: ls_newGroups st)
         (ls_segmentsRemoved st) (ls_segmentsGroupRemoved st).
Proof.
  intros H. unfold RemoveFromEnd_body.
  destruct (Z.leb_spec (ls_n st) 0); [reflexivity|lia].
Qed.

Lemma RemoveFromEnd_body_whole (st : LoopState) (g : SegmentGroup) :
  0 < ls_n st -> len (Segments g) <= ls_n st ->
  RemoveFromEnd_body st g =
  mkLoop (set_DiscontinuitySequence
            (wrap32 (DiscontinuitySequence (ls_m st) + 1)) (ls_m st))
         (ls_n st - len (Segments g)) (ls_newGroups st)
         (ls_segmentsRemoved st + len (Segments g))
         (ls_segmentsGroupRemoved st + 1).
Proof.
  intros Hn Hle. unfold RemoveFromEnd_body.
  destruct (Z.leb_spec (ls_n st) 0); [lia|].
  rewrite SegmentGroup_RemoveFromEnd_whole by assumption.
  reflexivity.
Qed.

Lemma RemoveFromEnd_body_part (st : LoopState) (g : SegmentGroup) :
  0 < ls_n st < len (Segments g) ->
  RemoveFromEnd_body st g =
  mkLoop (ls_m st) 0 (drop_tail (ls_n st) g :: ls_newGroups st)
         (ls_segmentsRemoved st + ls_n st)
         (ls_segmentsGroupRemoved st).
Proof.
  intros Hn. unfold RemoveFromEnd_body.
  destruct (Z.leb_spec (ls_n st) 0); [lia|].
  rewrite SegmentGroup_RemoveFromEnd_part by assumption.
  assert (Hlen : (len (Segments (drop_tail (ls_n st) g)) =? 0) = false).
  { apply Z.eqb_neq. unfold drop_tail. simpl. rewrite len_firstn by lia. lia. }
  rewrite Hlen. rewrite Z.sub_diag. reflexivity.
Qed.

(** Once the budget is spent the backward loop only copies groups, each in
    front of the ones copied before. *)
Lemma RemoveFromEnd_loop_idle (l : list SegmentGroup) (st : LoopState) :
  ls_n st <= 0 ->
  fold_left RemoveFromEnd_body l st =
  mkLoop (ls_m st) (ls_n st) (rev l ++ ls_newGroups st)
         (ls_segmentsRemoved st) (ls_segmentsGroupRemoved st).
Proof.
  revert st. induction l as [|g l IH]; intros st H; simpl.
  - destruct st; reflexivity.
  - rewrite RemoveFromEnd_body_idle by assumption.
    rewrite IH by (simpl; assumption). simpl.
    rewrite <- app_assoc. reflexivity.
Qed.

Lemma consumed_from_tail_nil (n : Z) : consumed_from_tail n [].
Proof. intros p g q H. destruct p; discriminate. Qed.

Lemma consumed_from_tail_snoc (n : Z) (g : SegmentGroup) (gs : list SegmentGroup) :
  0 < n -> len (Segments g) <= n ->
  consumed_from_tail (n - len (Segments g)) gs ->
  consumed_from_tail n (gs ++ [g]).
Proof.
  intros Hn Hle H p x q E.
  destruct q as [|y q'] using rev_ind.
  - apply app_inj_tail in E. destruct E as [_ <-]. simpl. lia.
  - clear IHq'. rewrite app_comm_cons, app_assoc in E.
    apply app_inj_tail in E. destruct E as [E <-].
    destruct (H p x q' E) as [H1 H2].
    rewrite count_segments_app. simpl. lia.
Qed.

(** The backward walk over [l], the groups in reverse order. *)
Lemma RemoveFromEnd_loop_walk (l : list SegmentGroup) (st : LoopState) :
  0 < ls_n st ->
  exists kept dropped groups',
    rev l = kept ++ dropped /\
    consumed_from_tail (ls_n st) dropped /\
    trimmed_at_tail (ls_n st - count_segments dropped) kept groups' /\
    let st' := fold_left RemoveFromEnd_body l st in
    ls_newGroups st' = groups' ++ ls_newGroups st /\
    ls_segmentsGroupRemoved st' = ls_segmentsGroupRemoved st + len dropped /\
    ls_segmentsRemoved st' =
      ls_segmentsRemoved st + Z.min (ls_n st) (count_segments l).
Proof.
  revert st. induction l as [|g l IH]; intros st Hn.
  - exists [], [], []. simpl.
    split; [reflexivity|]. split; [apply consumed_from_tail_nil|].
    split; [left; split; reflexivity|].
    change (len (@nil SegmentGroup)) with 0.
    repeat split; try reflexivity; lia.
  - pose proof (len_nonneg (Segments g)) as Hg.
    pose proof (count_segments_nonneg l) as Hl.
    destruct (Z.le_gt_cases (len (Segments g)) (ls_n st)) as [Hle|Hgt].
    + simpl fold_left. rewrite RemoveFromEnd_body_whole by assumption.
      destruct (Z.eq_dec (ls_n st) (len (Segments g))) as [Heq|Hne].
      * exists (rev l), [g], (rev l). simpl count_segments.
        split; [reflexivity|].
        split; [apply (consumed_from_tail_snoc _ g []); try assumption;
                apply consumed_from_tail_nil|].
        split.
        { destruct (rev l) as [|g2 rest] eqn:E using rev_ind;
            [left; split; reflexivity|].
          right. exists rest, g2.
          split; [reflexivity|]. split; [left; lia|].
          replace (ls_n st - (len (Segments g) + 0)) with 0 by lia.
          rewrite drop_tail_0. reflexivity. }
        rewrite RemoveFromEnd_loop_idle by (simpl; lia). simpl.
        change (len [g]) with 1. repeat split; try reflexivity; lia.
      * match goal with
        | |- context [fold_left _ l ?s] => destruct (IH s) as
              (kept & dropped & groups' & E & Hc & Ht & Hng & Hgr & Hsr)
        end; [simpl; lia|].
        simpl in Hc, Ht, Hng, Hgr, Hsr.
        exists kept, (dropped ++ [g]), groups'.
        rewrite count_segments_app. simpl count_segments.
        split; [simpl; rewrite E, app_assoc; reflexivity|].
        split; [apply consumed_from_tail_snoc; assumption|].
        split.
        { replace (ls_n st - (count_segments dropped + (len (Segments g) + 0)))
            with (ls_n st - len (Segments g) - count_segments dropped) by lia.
          exact Ht. }
        cbv zeta. split; [exact Hng|].
        split; [rewrite Hgr, len_app; change (len [g]) with 1; lia|].
        rewrite Hsr. lia.
    + simpl fold_left. rewrite RemoveFromEnd_body_part by lia.
      rewrite RemoveFromEnd_loop_idle by (simpl; lia). simpl.
      exists (rev l ++ [g]), [], (rev l ++ [drop_tail (ls_n st) g]). simpl.
      split; [rewrite app_nil_r; reflexivity|].
      split; [apply consumed_from_tail_nil|].
      split.
      { right. exists (rev l), g. rewrite Z.sub_0_r.
        split; [reflexivity|]. split; [right; lia|reflexivity]. }
      rewrite <- app_assoc. change (len (@nil SegmentGroup)) with 0.
      repeat split; try reflexivity; lia.
Qed.

(** The receiver's fields during the backward loop: only the discontinuity
    counter moves; the media sequence is not written. *)
Lemma RemoveFromEnd_loop_fields (l : list SegmentGroup) (st : LoopState) :
  uint32_ok (DiscontinuitySequence (ls_m st)) ->
  let st' := fold_left RemoveFromEnd_body l st in
  ls_m st' =
  mkManifest (Version (ls_m st)) (TargetDuration (ls_m st))
    (MediaSequence (ls_m st))
    (wrap32 (DiscontinuitySequence (ls_m st)
             + (ls_segmentsGroupRemoved st' - ls_segmentsGroupRemoved st)))
    (HasEndList (ls_m st)) (SegmentGroups (ls_m st)).
Proof.
  revert st. induction l as [|g l IH]; intros st Hd; simpl.
  - rewrite !Z.sub_diag, !Z.add_0_r, !wrap32_small by assumption.
    destruct (ls_m st); reflexivity.
  - destruct (Z.le_gt_cases (ls_n st) 0) as [Hidle|Hpos].
    + rewrite RemoveFromEnd_body_idle by assumption.
      rewrite IH by (simpl; assumption). reflexivity.
    + destruct (Z.le_gt_cases (len (Segments g)) (ls_n st)) as [Hle|Hgt].
      * rewrite RemoveFromEnd_body_whole by assumption.
        rewrite IH by (simpl; apply wrap32_ok). simpl.
        rewrite !wrap32_add_l. f_equal; f_equal; lia.
      * rewrite RemoveFromEnd_body_part by lia.
        rewrite IH by (simpl; assumption). reflexivity.
Qed.

(** The media sequence is never written inside the backward loop, whatever
    the receiver holds. *)
Lemma RemoveFromEnd_loop_MediaSequence (l : list SegmentGroup) (st : LoopState) :
  MediaSequence (ls_m (fold_left RemoveFromEnd_body l st))
  = MediaSequence (ls_m st).
Proof.
  revert st. induction l as [|g l IH]; intros st; simpl; [reflexivity|].
  rewrite IH. unfold RemoveFromEnd_body.
  destruct (ls_n st <=? 0); [reflexivity|].
  destruct (SegmentGroup_RemoveFromEnd g (ls_n st)) as [g' removed].
  destruct (len (Segments g') =? 0); reflexivity.
Qed.

(** ** Count-based removal: the walks *)

Lemma consumed_from_head_total (n : Z) (dropped : list SegmentGroup) :
  0 < n -> consumed_from_head n dropped -> count_segments dropped <= n.
Proof.
  intros Hn H. destruct dropped as [|g q] using rev_ind; [simpl; lia|].
  destruct (H q g [] eq_refl) as [_ H2].
  rewrite count_segments_app. simpl. lia.
Qed.

Lemma consumed_from_tail_total (n : Z) (dropped : list SegmentGroup) :
  0 < n -> consumed_from_tail n dropped -> count_segments dropped <= n.
Proof.
  intros Hn H. destruct dropped as [|g q]; [simpl; lia|].
  destruct (H [] g q eq_refl) as [_ H2]. simpl. lia.
Qed.

(** What the head-first walk removes is what it took from each group. *)
Lemma trimmed_at_head_removed (n : Z) (dropped kept groups' : list SegmentGroup) :
  0 < n -> consumed_from_head n dropped ->
  trimmed_at_head (n - count_segments dropped) kept groups' ->
  Z.min n (count_segments (dropped ++ kept))
  = count_segments dropped + (count_segments kept - count_segments groups').
Proof.
  intros Hn Hc Ht. pose proof (consumed_from_head_total n dropped Hn Hc) as Hle.
  rewrite count_segments_app.
  destruct Ht as [[-> ->]|(g & rest & -> & Hb & ->)]; simpl.
  - lia.
  - pose proof (count_segments_nonneg rest). pose proof (len_nonneg (Segments g)).
    destruct Hb as [Hb|Hb].
    + rewrite Hb. simpl. lia.
    + rewrite len_skipn by lia. lia.
Qed.

Lemma trimmed_at_tail_removed (n : Z) (kept dropped groups' : list SegmentGroup) :
  0 < n -> consumed_from_tail n dropped ->
  trimmed_at_tail (n - count_segments dropped) kept groups' ->
  Z.min n (count_segments (kept ++ dropped))
  = count_segments dropped + (count_segments kept - count_segments groups').
Proof.
  intros Hn Hc Ht. pose proof (consumed_from_tail_total n dropped Hn Hc) as Hle.
  rewrite count_segments_app.
  destruct Ht as [[-> ->]|(init & g & -> & Hb & ->)].
  - simpl. lia.
  - rewrite !count_segments_app.
    pose proof (count_segments_nonneg init). pose proof (len_nonneg (Segments g)).
    destruct Hb as [Hb|Hb].
    + rewrite Hb, drop_tail_0. simpl. lia.
    + unfold drop_tail. simpl. rewrite len_firstn by lia. lia.
Qed.

(** [RemoveFromStart] in closed form, for a positive count. *)
Lemma RemoveFromStart_closed (m : Manifest) (n : Z) :
  Manifest_ok m -> 0 < n ->
  exists dropped kept groups',
    SegmentGroups m = dropped ++ kept /\
    consumed_from_head n dropped /\
    trimmed_at_head (n - count_segments dropped) kept groups' /\
    Manifest_RemoveFromStart m n =
      (mkManifest (Version m) (TargetDuration m)
         (wrap32 (MediaSequence m + Z.min n (SegmentCount m)))
         (wrap32 (DiscontinuitySequence m + len dropped))
         (HasEndList m) groups',
       (len dropped, Z.min n (SegmentCount m))).
Proof.
  intros (_ & _ & Hm & Hd) Hn.
  destruct (RemoveFromStart_loop_walk (SegmentGroups m) (loop_init m n) Hn)
    as (dropped & kept & groups' & E & Hc & Ht & Hng & Hgr & Hsr).
  pose proof (RemoveFromStart_loop_fields (SegmentGroups m) (loop_init m n) Hm Hd)
    as Hf.
  simpl in Hc, Ht, Hng, Hgr, Hsr, Hf.
  exists dropped, kept, groups'.
  split; [exact E|]. split; [exact Hc|]. split; [exact Ht|].
  unfold Manifest_RemoveFromStart. rewrite Hf, Hng, Hgr, Hsr.
  rewrite SegmentCount_count. unfold set_SegmentGroups. simpl.
  rewrite !Z.sub_0_r. reflexivity.
Qed.

(** [RemoveFromEnd] in closed form, for a positive count. *)
Lemma RemoveFromEnd_closed (m : Manifest) (n : Z) :
  Manifest_ok m -> 0 < n ->
  exists kept dropped groups',
    SegmentGroups m = kept ++ dropped /\
    consumed_from_tail n dropped /\
    trimmed_at_tail (n - count_segments dropped) kept groups' /\
    ls_segmentsRemoved (RemoveFromEnd_loop m n) = Z.min n (SegmentCount m) /\
    Manifest_RemoveFromEnd m n =
      (mkManifest (Version m) (TargetDuration m)
         (wrap32 (MediaSequence m + Z.min n (SegmentCount m)))
         (wrap32 (DiscontinuitySequence m + len dropped))
         (HasEndList m) groups',
       (len dropped, Z.min n (SegmentCount m))).
Proof.
  intros (_ & _ & Hm & Hd) Hn.
  destruct (RemoveFromEnd_loop_walk (rev (SegmentGroups m)) (loop_init m n) Hn)
    as (kept & dropped & groups' & E & Hc & Ht & Hng & Hgr & Hsr).
  pose proof (RemoveFromEnd_loop_fields (rev (SegmentGroups m)) (loop_init m n) Hd)
    as Hf.
  rewrite rev_involutive in E. rewrite count_segments_rev in Hsr.
  simpl in Hc, Ht, Hng, Hgr, Hsr, Hf.
  exists kept, dropped, groups'.
  split; [exact E|]. split; [exact Hc|]. split; [exact Ht|].
  unfold Manifest_RemoveFromEnd, RemoveFromEnd_loop. rewrite Hf, Hng, Hgr, Hsr.
  rewrite SegmentCount_count. unfold set_SegmentGroups, set_MediaSequence. simpl.
  rewrite !Z.sub_0_r, app_nil_r, wrap32_add_r. split; reflexivity.
Qed.

(** Manifests whose groups have two and three segments. *)
Lemma sizes_2_3 (m : Manifest) :
  sizes (SegmentGroups m) = [2; 3] ->
  exists a b c d e,
    SegmentGroups m = [mkSegmentGroup [a; b]; mkSegmentGroup [c; d; e]].
Proof.
  unfold sizes, len. intros H.
  destruct (SegmentGroups m) as [|[s1] [|[s2] [|g3 gs]]]; try discriminate.
  simpl in H. injection H as H1 H2.
  destruct s1 as [|a [|b [|x s1]]]; simpl in H1; try lia.
  destruct s2 as [|c [|d [|e [|y s2]]]]; simpl in H2; try lia.
  exists a, b, c, d, e. reflexivity.
Qed.

(** ** Count-based removal: the specification's statements *)

(** C1.  [RemoveFromStart(n)] with [n > 0] walks the groups head-first.
    The groups split into [dropped ++ kept]: every group of [dropped] is
    reached with budget left and is no larger than that budget, so it is
    emptied, dropped, and counted once in the discontinuity sequence; of
    [kept], the first group loses the [b] segments the remaining budget
    still pays for and survives, and the groups behind it are kept
    unchanged.  The media sequence advances by all the segments removed,
    those of the dropped groups and those of the surviving one alike
    (uint32 arithmetic), nothing else changes, and the call returns the
    number of groups dropped and of segments removed.  In particular, from
    groups of sizes [2,3] with both counters at 0, removing 1 yields media
    sequence 1, discontinuity sequence 0 and sizes [1,3], and removing 3
    yields media sequence 3, discontinuity sequence 1 and sizes [2]. *)
Theorem RemoveFromStart_walks_head_first :
  (forall (m : Manifest) (n : Z), Manifest_ok m -> 0 < n ->
     exists dropped kept groups',
       SegmentGroups m = dropped ++ kept /\
       consumed_from_head n dropped /\
       trimmed_at_head (n - count_segments dropped) kept groups' /\
       let removed :=
         count_segments dropped + (count_segments kept - count_segments groups') in
       removed = Z.min n (SegmentCount m) /\
       Manifest_RemoveFromStart m n =
         (mkManifest (Version m) (TargetDuration m)
            (wrap32 (MediaSequence m + removed))
            (wrap32 (DiscontinuitySequence m + len dropped))
            (HasEndList m) groups',
          (len dropped, removed)))
  /\
  (forall m : Manifest,
     sizes (SegmentGroups m) = [2; 3] ->
     MediaSequence m = 0 -> DiscontinuitySequence m = 0 ->
     let m1 := fst (Manifest_RemoveFromStart m 1) in
     let m3 := fst (Manifest_RemoveFromStart m 3) in
     (MediaSequence m1 = 1 /\ DiscontinuitySequence m1 = 0 /\
      sizes (SegmentGroups m1) = [1; 3]) /\
     (MediaSequence m3 = 3 /\ DiscontinuitySequence m3 = 1 /\
      sizes (SegmentGroups m3) = [2])).
Proof.
  split.
  - intros m n Hok Hn.
    destruct (RemoveFromStart_closed m n Hok Hn)
      as (dropped & kept & groups' & E & Hc & Ht & Hres).
    exists dropped, kept, groups'.
    split; [exact E|]. split; [exact Hc|]. split; [exact Ht|].
    cbv zeta.
    rewrite <- (trimmed_at_head_removed n dropped kept groups' Hn Hc Ht).
    rewrite <- E, <- SegmentCount_count. split; [reflexivity|exact Hres].
  - intros m Hs Hm Hd.
    destruct (sizes_2_3 m Hs) as (a & b & c & d & e & E).
    destruct m as [v td ms ds el gs]. simpl in Hm, Hd, E. subst ms ds gs.
    cbv zeta. repeat split; reflexivity.
Qed.

Lemma RemoveFromStart_walks_head_first_witness :
  (Manifest_ok manifest_2_3 /\ 0 < 3 /\
   exists dropped kept groups',
     SegmentGroups manifest_2_3 = dropped ++ kept /\
     consumed_from_head 3 dropped /\
     trimmed_at_head (3 - count_segments dropped) kept groups' /\
     let removed :=
       count_segments dropped + (count_segments kept - count_segments groups') in
     removed = Z.min 3 (SegmentCount manifest_2_3) /\
     Manifest_RemoveFromStart manifest_2_3 3 =
       (mkManifest (Version manifest_2_3) (TargetDuration manifest_2_3)
          (wrap32 (MediaSequence manifest_2_3 + removed))
          (wrap32 (DiscontinuitySequence manifest_2_3 + len dropped))
          (HasEndList manifest_2_3) groups',
        (len dropped, removed)))
  /\
  (sizes (SegmentGroups manifest_2_3) = [2; 3] /\
   MediaSequence manifest_2_3 = 0 /\ DiscontinuitySequence manifest_2_3 = 0 /\
   let m1 := fst (Manifest_RemoveFromStart manifest_2_3 1) in
   let m3 := fst (Manifest_RemoveFromStart manifest_2_3 3) in
   (MediaSequence m1 = 1 /\ DiscontinuitySequence m1 = 0 /\
    sizes (SegmentGroups m1) = [1; 3]) /\
   (MediaSequence m3 = 3 /\ DiscontinuitySequence m3 = 1 /\
    sizes (SegmentGroups m3) = [2])).
Proof.
  assert (Hok : Manifest_ok manifest_2_3).
  { unfold Manifest_ok, uint8_ok, uint32_ok. simpl. lia. }
  assert (Hn : 0 < 3) by lia.
  split.
  - split; [exact Hok|]. split; [exact Hn|].
    exact (proj1 RemoveFromStart_walks_head_first manifest_2_3 3 Hok Hn).
  - split; [reflexivity|]. split; [reflexivity|]. split; [reflexivity|].
    exact (proj2 RemoveFromStart_walks_head_first manifest_2_3
                 eq_refl eq_refl eq_refl).
Defined.

(** C2.  [RemoveFromEnd(n)] with [n > 0] walks the groups tail-first.  The
    groups split into [kept ++ dropped]: every group of [dropped] is reached
    with budget left and is no larger than that budget, so it is emptied,
    dropped, and counted once in the discontinuity sequence; of [kept], the
    last group loses its last [b] segments and survives, and the groups
    before it are kept, in order.  The loop does not write the media
    sequence: it is increased once, after the loop, by the total number of
    segments removed (uint32 arithmetic).  In particular, for groups of
    sizes [2,3], removing 1 yields sizes [2,2], the discontinuity sequence
    unchanged and the media sequence incremented by 1. *)
Theorem RemoveFromEnd_walks_tail_first :
  (forall (m : Manifest) (n : Z), Manifest_ok m -> 0 < n ->
     exists kept dropped groups',
       SegmentGroups m = kept ++ dropped /\
       consumed_from_tail n dropped /\
       trimmed_at_tail (n - count_segments dropped) kept groups' /\
       let removed :=
         count_segments dropped + (count_segments kept - count_segments groups') in
       removed = Z.min n (SegmentCount m) /\
       MediaSequence (ls_m (RemoveFromEnd_loop m n)) = MediaSequence m /\
       ls_segmentsRemoved (RemoveFromEnd_loop m n) = removed /\
       Manifest_RemoveFromEnd m n =
         (mkManifest (Version m) (TargetDuration m)
            (wrap32 (MediaSequence m + removed))
            (wrap32 (DiscontinuitySequence m + len dropped))
            (HasEndList m) groups',
          (len dropped, removed)))
  /\
  (forall m : Manifest,
     sizes (SegmentGroups m) = [2; 3] ->
     let m1 := fst (Manifest_RemoveFromEnd m 1) in
     sizes (SegmentGroups m1) = [2; 2] /\
     DiscontinuitySequence m1 = DiscontinuitySequence m /\
     MediaSequence m1 = wrap32 (MediaSequence m + 1)).
Proof.
  split.
  - intros m n Hok Hn.
    destruct (RemoveFromEnd_closed m n Hok Hn)
      as (kept & dropped & groups' & E & Hc & Ht & Hsr & Hres).
    exists kept, dropped, groups'.
    split; [exact E|]. split; [exact Hc|]. split; [exact Ht|].
    cbv zeta.
    rewrite <- (trimmed_at_tail_removed n kept dropped groups' Hn Hc Ht).
    rewrite <- E, <- SegmentCount_count. split; [reflexivity|].
    split; [apply RemoveFromEnd_loop_MediaSequence|].
    split; [exact Hsr|exact Hres].
  - intros m Hs.
    destruct (sizes_2_3 m Hs) as (a & b & c & d & e & E).
    destruct m as [v td ms ds el gs]. simpl in E. subst gs.
    cbv zeta. split; [reflexivity|]. split; [reflexivity|].
    simpl. rewrite wrap32_add_r. reflexivity.
Qed.

Lemma RemoveFromEnd_walks_tail_first_witness :
  (Manifest_ok manifest_2_3 /\ 0 < 4 /\
   exists kept dropped groups',
     SegmentGroups manifest_2_3 = kept ++ dropped /\
     consumed_from_tail 4 dropped /\
     trimmed_at_tail (4 - count_segments dropped) kept groups' /\
     let removed :=
       count_segments dropped + (count_segments kept - count_segments groups') in
     removed = Z.min 4 (SegmentCount manifest_2_3) /\
     MediaSequence (ls_m (RemoveFromEnd_loop manifest_2_3 4))
       = MediaSequence manifest_2_3 /\
     ls_segmentsRemoved (RemoveFromEnd_loop manifest_2_3 4) = removed /\
     Manifest_RemoveFromEnd manifest_2_3 4 =
       (mkManifest (Version manifest_2_3) (TargetDuration manifest_2_3)
          (wrap32 (MediaSequence manifest_2_3 + removed))
          (wrap32 (DiscontinuitySequence manifest_2_3 + len dropped))
          (HasEndList manifest_2_3) groups',
        (len dropped, removed)))
  /\
  (sizes (SegmentGroups manifest_2_3) = [2; 3] /\
   let m1 := fst (Manifest_RemoveFromEnd manifest_2_3 1) in
   sizes (SegmentGroups m1) = [2; 2] /\
   DiscontinuitySequence m1 = DiscontinuitySequence manifest_2_3 /\
   MediaSequence m1 = wrap32 (MediaSequence manifest_2_3 + 1)).
Proof.
  assert (Hok : Manifest_ok manifest_2_3).
  { unfold Manifest_ok, uint8_ok, uint32_ok. simpl. lia. }
  assert (Hn : 0 < 4) by lia.
  split.
  - split; [exact Hok|]. split; [exact Hn|].
    exact (proj1 RemoveFromEnd_walks_tail_first manifest_2_3 4 Hok Hn).
  - split; [reflexivity|].
    exact (proj2 RemoveFromEnd_walks_tail_first manifest_2_3 eq_refl).
Defined.

(** With more budget than there are segments, nothing survives. *)
Lemma trimmed_at_head_all (n : Z) (dropped kept groups' : list SegmentGroup) :
  count_segments (dropped ++ kept) < n ->
  trimmed_at_head (n - count_segments dropped) kept groups' ->
  groups' = [].
Proof.
  rewrite count_segments_app. intros Hn [[_ ->]|(g & rest & -> & Hb & _)].
  - reflexivity.
  - simpl in Hn. pose proof (count_segments_nonneg rest).
    pose proof (len_nonneg (Segments g)). lia.
Qed.

Lemma trimmed_at_tail_all (n : Z) (kept dropped groups' : list SegmentGroup) :
  count_segments (kept ++ dropped) < n ->
  trimmed_at_tail (n - count_segments dropped) kept groups' ->
  groups' = [].
Proof.
  rewrite count_segments_app. intros Hn [[_ ->]|(init & g & -> & Hb & _)].
  - reflexivity.
  - rewrite count_segments_app in Hn. simpl in Hn.
    pose proof (count_segments_nonneg init).
    pose proof (len_nonneg (Segments g)). lia.
Qed.

Lemma RemoveFromStart_nonpositive (m : Manifest) (n : Z) :
  n <= 0 -> Manifest_RemoveFromStart m n = (m, (0, 0)).
Proof.
  intros Hn. unfold Manifest_RemoveFromStart.
  rewrite RemoveFromStart_loop_idle by (simpl; assumption). simpl.
  destruct m; reflexivity.
Qed.

Lemma RemoveFromEnd_nonpositive (m : Manifest) (n : Z) :
  uint32_ok (MediaSequence m) -> n <= 0 ->
  Manifest_RemoveFromEnd m n = (m, (0, 0)).
Proof.
  intros Hm Hn. unfold Manifest_RemoveFromEnd, RemoveFromEnd_loop.
  rewrite RemoveFromEnd_loop_idle by (simpl; assumption). simpl.
  rewrite app_nil_r, rev_involutive.
  unfold set_MediaSequence, set_SegmentGroups. simpl.
  change (wrap32 0) with 0. rewrite Z.add_0_r, wrap32_small by assumption.
  destruct m; reflexivity.
Qed.

(** The operations keep every field within its Go type. *)
Lemma RemoveFromStart_ok (m : Manifest) (n : Z) :
  Manifest_ok m -> Manifest_ok (fst (Manifest_RemoveFromStart m n)).
Proof.
  intros Hok. destruct (Z.le_gt_cases n 0) as [Hn|Hn].
  - rewrite RemoveFromStart_nonpositive by assumption. exact Hok.
  - destruct (RemoveFromStart_closed m n Hok Hn)
      as (dropped & kept & groups' & _ & _ & _ & ->).
    destruct Hok as (Hv & Ht & _ & _).
    repeat split; simpl; try apply Hv; try apply Ht; apply wrap32_ok.
Qed.

Lemma RemoveFromEnd_ok (m : Manifest) (n : Z) :
  Manifest_ok m -> Manifest_ok (fst (Manifest_RemoveFromEnd m n)).
Proof.
  intros Hok. destruct (Z.le_gt_cases n 0) as [Hn|Hn].
  - rewrite RemoveFromEnd_nonpositive by (assumption || apply Hok). exact Hok.
  - destruct (RemoveFromEnd_closed m n Hok Hn)
      as (kept & dropped & groups' & _ & _ & _ & _ & ->).
    destruct Hok as (Hv & Ht & _ & _).
    repeat split; simpl; try apply Hv; try apply Ht; apply wrap32_ok.
Qed.

(** C5.  The removals are total functions, so they never fail.  When [n]
    exceeds the manifest's [SegmentCount], either call leaves no group at
    all and reports the original [SegmentCount] as the number of segments
    removed, not [n]; when [n <= 0] either call returns [(0, 0)] and leaves
    the manifest as it was. *)
Theorem Remove_clamps_and_never_fails (m : Manifest) (n : Z) :
  Manifest_ok m ->
  (SegmentCount m < n ->
     (SegmentGroups (fst (Manifest_RemoveFromStart m n)) = [] /\
      snd (snd (Manifest_RemoveFromStart m n)) = SegmentCount m) /\
     (SegmentGroups (fst (Manifest_RemoveFromEnd m n)) = [] /\
      snd (snd (Manifest_RemoveFromEnd m n)) = SegmentCount m)) /\
  (n <= 0 ->
     Manifest_RemoveFromStart m n = (m, (0, 0)) /\
     Manifest_RemoveFromEnd m n = (m, (0, 0))).
Proof.
  intros Hok. split.
  - intros Hlt.
    assert (Hn : 0 < n).
    { rewrite SegmentCount_count in Hlt.
      pose proof (count_segments_nonneg (SegmentGroups m)). lia. }
    split.
    + destruct (RemoveFromStart_closed m n Hok Hn)
        as (dropped & kept & groups' & E & Hc & Ht & Hres).
      rewrite Hres. simpl. split; [|lia].
      apply (trimmed_at_head_all n dropped kept); [|exact Ht].
      rewrite <- E, <- SegmentCount_count. exact Hlt.
    + destruct (RemoveFromEnd_closed m n Hok Hn)
        as (kept & dropped & groups' & E & Hc & Ht & _ & Hres).
      rewrite Hres. simpl. split; [|lia].
      apply (trimmed_at_tail_all n kept dropped); [|exact Ht].
      rewrite <- E, <- SegmentCount_count. exact Hlt.
  - intros Hn. split.
    + apply RemoveFromStart_nonpositive. exact Hn.
    + apply RemoveFromEnd_nonpositive; [apply Hok|exact Hn].
Qed.

Lemma Remove_clamps_and_never_fails_witness :
  Manifest_ok manifest_2_3 /\
  (SegmentCount manifest_2_3 < 9 /\
   (SegmentGroups (fst (Manifest_RemoveFromStart manifest_2_3 9)) = [] /\
    snd (snd (Manifest_RemoveFromStart manifest_2_3 9)) = SegmentCount manifest_2_3) /\
   (SegmentGroups (fst (Manifest_RemoveFromEnd manifest_2_3 9)) = [] /\
    snd (snd (Manifest_RemoveFromEnd manifest_2_3 9)) = SegmentCount manifest_2_3)) /\
  (-1 <= 0 /\
   Manifest_RemoveFromStart manifest_2_3 (-1) = (manifest_2_3, (0, 0)) /\
   Manifest_RemoveFromEnd manifest_2_3 (-1) = (manifest_2_3, (0, 0))).
Proof.
  assert (Hok : Manifest_ok manifest_2_3).
  { unfold Manifest_ok, uint8_ok, uint32_ok. simpl. lia. }
  assert (H9 : SegmentCount manifest_2_3 < 9) by (vm_compute; reflexivity).
  assert (H1 : -1 <= 0) by lia.
  split; [exact Hok|]. split.
  - split; [exact H9|].
    exact (proj1 (Remove_clamps_and_never_fails manifest_2_3 9 Hok) H9).
  - split; [exact H1|].
    exact (proj2 (Remove_clamps_and_never_fails manifest_2_3 (-1) Hok) H1).
Defined.

(** ** Count-based removal: no empty group is retained *)

Lemma trimmed_at_head_nonempty (b : Z) (kept groups' : list SegmentGroup) :
  Forall nonempty_group kept -> trimmed_at_head b kept groups' ->
  Forall nonempty_group groups'.
Proof.
  intros Hk [[_ ->]|(g & rest & -> & Hb & ->)]; [constructor|].
  inversion Hk as [|x xs Hg Hrest]; subst. constructor; [|exact Hrest].
  destruct Hb as [->|Hb]; [rewrite drop_head_0; exact Hg|].
  unfold nonempty_group, drop_head. simpl. intros E.
  apply len_nil_iff in E. rewrite len_skipn in E by lia. lia.
Qed.

Lemma trimmed_at_tail_nonempty (b : Z) (kept groups' : list SegmentGroup) :
  Forall nonempty_group kept -> trimmed_at_tail b kept groups' ->
  Forall nonempty_group groups'.
Proof.
  intros Hk [[_ ->]|(init & g & -> & Hb & ->)]; [constructor|].
  apply Forall_app in Hk. destruct Hk as [Hinit Hg].
  inversion Hg as [|x xs Hg' _]; subst.
  apply Forall_app. split; [exact Hinit|]. constructor; [|constructor].
  destruct Hb as [->|Hb]; [rewrite drop_tail_0; exact Hg'|].
  unfold nonempty_group, drop_tail. simpl. intros E.
  apply len_nil_iff in E. rewrite len_firstn in E by lia. lia.
Qed.

(** C6.  If every group of a manifest is non-empty, then after
    [RemoveFromStart(n)] or [RemoveFromEnd(n)], for any [n], every group
    still in the manifest is non-empty: a group emptied by the trimming is
    removed, never retained. *)
Theorem Remove_retains_no_empty_group (m : Manifest) (n : Z) :
  Forall nonempty_group (SegmentGroups m) ->
  Forall nonempty_group (SegmentGroups (fst (Manifest_RemoveFromStart m n))) /\
  Forall nonempty_group (SegmentGroups (fst (Manifest_RemoveFromEnd m n))).
Proof.
  intros Hne. destruct (Z.le_gt_cases n 0) as [Hn|Hn].
  - split.
    + rewrite RemoveFromStart_nonpositive by assumption. exact Hne.
    + unfold Manifest_RemoveFromEnd, RemoveFromEnd_loop.
      rewrite RemoveFromEnd_loop_idle by (simpl; assumption). simpl.
      rewrite app_nil_r, rev_involutive. exact Hne.
  - split.
    + destruct (RemoveFromStart_loop_walk (SegmentGroups m) (loop_init m n) Hn)
        as (dropped & kept & groups' & E & _ & Ht & Hng & _).
      simpl in Ht, Hng. unfold Manifest_RemoveFromStart. simpl. rewrite Hng.
      rewrite E in Hne. apply Forall_app in Hne.
      eapply trimmed_at_head_nonempty; [|exact Ht]; apply Hne.
    + destruct (RemoveFromEnd_loop_walk (rev (SegmentGroups m)) (loop_init m n) Hn)
        as (kept & dropped & groups' & E & _ & Ht & Hng & _).
      simpl in Ht, Hng. rewrite rev_involutive in E.
      unfold Manifest_RemoveFromEnd, RemoveFromEnd_loop. simpl. rewrite Hng.
      rewrite app_nil_r. rewrite E in Hne. apply Forall_app in Hne.
      eapply trimmed_at_tail_nonempty; [|exact Ht]; apply Hne.
Qed.

Lemma Remove_retains_no_empty_group_witness :
  Forall nonempty_group (SegmentGroups manifest_2_3) /\
  Forall nonempty_group
    (SegmentGroups (fst (Manifest_RemoveFromStart manifest_2_3 2))) /\
  Forall nonempty_group
    (SegmentGroups (fst (Manifest_RemoveFromEnd manifest_2_3 2))).
Proof.
  assert (H : Forall nonempty_group (SegmentGroups manifest_2_3)).
  { repeat constructor; discriminate. }
  split; [exact H|].
  exact (Remove_retains_no_empty_group manifest_2_3 2 H).
Defined.

(** ** Merge *)

(** C4.  [Merge(base, other)] sets the version and the target duration of
    [base] to the larger of the two values, sets the groups of [base] to
    its own followed by those of [other] (so [g1] and [g2] groups give
    [g1 + g2]), and returns true exactly when the version or the target
    duration was strictly raised. *)
Theorem Merge_max_concat_breaking (base other : Manifest) :
  let base' := fst (Manifest_Merge base other) in
  Version base' = Z.max (Version base) (Version other) /\
  TargetDuration base' = Z.max (TargetDuration base) (TargetDuration other) /\
  SegmentGroups base' = SegmentGroups base ++ SegmentGroups other /\
  len (SegmentGroups base') = len (SegmentGroups base) + len (SegmentGroups other) /\
  (snd (Manifest_Merge base other) = true <->
   Version base < Version base' \/ TargetDuration base < TargetDuration base').
Proof.
  unfold Manifest_Merge.
  destruct (Z.ltb_spec (TargetDuration base) (TargetDuration other)) as [Ht|Ht];
    simpl; destruct (Z.ltb_spec (Version base) (Version other)) as [Hv|Hv];
    simpl; rewrite len_app;
    (split; [lia|]); (split; [lia|]); (split; [reflexivity|]);
    (split; [reflexivity|]);
    (split; [intros H; try discriminate; lia | intros H; try reflexivity; lia]).
Qed.

Lemma Merge_ok (base other : Manifest) :
  Manifest_ok base -> Manifest_ok other ->
  Manifest_ok (fst (Manifest_Merge base other)).
Proof.
  intros (Hv & Ht & Hm & Hd) (Hv' & Ht' & _ & _). unfold Manifest_Merge.
  destruct (TargetDuration base <? TargetDuration other); simpl;
    destruct (Version base <? Version other);
    repeat split; simpl; assumption || apply Hv || apply Ht
                         || apply Hv' || apply Ht' || apply Hm || apply Hd.
Qed.

(** C10.  [Merge(base, other)] writes only the version, the target duration
    and the groups of [base]: its media sequence, its discontinuity sequence
    and its end-list flag are unchanged, whatever [other] holds. *)
Theorem Merge_frame (base other : Manifest) :
  let base' := fst (Manifest_Merge base other) in
  MediaSequence base' = MediaSequence base /\
  DiscontinuitySequence base' = DiscontinuitySequence base /\
  HasEndList base' = HasEndList base.
Proof.
  unfold Manifest_Merge.
  destruct (TargetDuration base <? TargetDuration other); simpl;
    destruct (Version base <? Version other);
    repeat split; reflexivity.
Qed.

(** ** Lines *)

Lemma Split_not_nil (s : string) (sep : ascii) : Split s sep <> [].
Proof.
  destruct s as [|c s]; simpl; [discriminate|].
  destruct (Ascii.eqb c sep); [discriminate|].
  destruct (Split s sep); discriminate.
Qed.

(** [lines[0]] is the text before the first line feed. *)
Lemma Split_first_line (data : string) : hd ""%string (Split data LF) = first_line data.
Proof.
  unfold first_line. induction data as [|c data IH]; simpl; [reflexivity|].
  destruct (Ascii.eqb c LF); [reflexivity|].
  pose proof (Split_not_nil data LF) as Hne.
  destruct (Split data LF) as [|piece pieces]; [contradiction|].
  simpl in IH. destruct (Cut data LF) as [[before after] found]. simpl in *.
  rewrite IH. reflexivity.
Qed.

(** The tags exclude one another: a line starts with at most one of them. *)
Lemma prefix_common (a b s : string) :
  String.prefix a s = true -> String.prefix b s = true ->
  String.prefix a b = true \/ String.prefix b a = true.
Proof.
  revert b s. induction a as [|x a IH]; intros b s Ha Hb;
    [left; destruct b; reflexivity|].
  destruct b as [|y b]; [right; reflexivity|].
  destruct s as [|z s]; [discriminate|]. simpl in Ha, Hb.
  destruct (ascii_dec x z) as [->|]; [|discriminate].
  destruct (ascii_dec y z) as [->|]; [|discriminate].
  simpl. destruct (ascii_dec z z) as [_|N]; [|contradiction].
  apply (IH b s); assumption.
Qed.

Lemma HasPrefix_exclusive (line f1 f2 : string) :
  String.prefix f1 f2 = false -> String.prefix f2 f1 = false ->
  HasPrefix line f1 = true -> HasPrefix line f2 = false.
Proof.
  unfold HasPrefix. intros H12 H21 H1.
  destruct (String.prefix f2 line) eqn:H2; [|reflexivity].
  destruct (prefix_common f1 f2 line H1 H2); congruence.
Qed.

(** ** Texts and their lines *)

Lemma sapp_assoc (a b c : string) : ((a ++ b) ++ c = a ++ (b ++ c))%string.
Proof. induction a as [|x a IH]; simpl; [reflexivity|]. rewrite IH. reflexivity. Qed.

Lemma sapp_nil_r (a : string) : (a ++ "" = a)%string.
Proof. induction a as [|x a IH]; simpl; [reflexivity|]. rewrite IH. reflexivity. Qed.

Lemma contains_app (c : ascii) (a b : string) :
  contains c (a ++ b)%string = contains c a || contains c b.
Proof.
  induction a as [|x a IH]; simpl; [reflexivity|].
  rewrite IH, orb_assoc. reflexivity.
Qed.

Lemma unlines_app (ls1 ls2 : list string) :
  unlines (ls1 ++ ls2) = (unlines ls1 ++ unlines ls2)%string.
Proof.
  induction ls1 as [|l ls1 IH]; simpl; [reflexivity|].
  rewrite IH, !sapp_assoc. reflexivity.
Qed.

(** Splitting gives back a line that holds no line feed. *)
Lemma Split_line (l rest : string) :
  contains LF l = false ->
  Split (l ++ String LF rest)%string LF = l :: Split rest LF.
Proof.
  induction l as [|x l IH]; simpl; intros H.
  - reflexivity.
  - apply orb_false_iff in H. destruct H as [Hx Hl].
    rewrite Hx, (IH Hl). reflexivity.
Qed.

(** Splitting a text made of lines gives the lines, and an empty piece
    behind the last line feed. *)
Lemma Split_unlines (ls : list string) :
  Forall (fun l => contains LF l = false) ls ->
  Split (unlines ls) LF = ls ++ [""%string].
Proof.
  induction 1 as [|l ls Hl _ IH]; [reflexivity|].
  change (unlines (l :: ls)) with (l ++ String LF (unlines ls))%string.
  rewrite (Split_line l _ Hl), IH. reflexivity.
Qed.

(** The pieces of a split hold no separator. *)
Lemma Split_pieces (s : string) (c : ascii) :
  Forall (fun l => contains c l = false) (Split s c).
Proof.
  induction s as [|x s IH]; simpl.
  - constructor; [reflexivity|constructor].
  - destruct (Ascii.eqb x c) eqn:E.
    + constructor; [reflexivity|exact IH].
    + destruct (Split s c) as [|piece pieces].
      * constructor; [simpl; rewrite E; reflexivity|constructor].
      * inversion IH as [|? ? Hp Hps]; subst.
        constructor; [simpl; rewrite E, Hp; reflexivity|exact Hps].
Qed.

(** Cutting a text brings no byte in. *)
Lemma Cut_contains (s : string) (sep c : ascii) (before after : string)
      (found : bool) :
  Cut s sep = (before, after, found) -> contains c s = false ->
  contains c before = false /\ contains c after = false.
Proof.
  revert before after found.
  induction s as [|x s IH]; simpl; intros before after found H Hc.
  - injection H as <- <- <-. split; reflexivity.
  - apply orb_false_iff in Hc. destruct Hc as [Hx Hs].
    destruct (Ascii.eqb x sep).
    + injection H as <- <- <-. split; [reflexivity|exact Hs].
    + destruct (Cut s sep) as [[b a] f]. injection H as <- <- <-.
      destruct (IH b a f eq_refl Hs) as [Hb Ha].
      split; [simpl; rewrite Hx, Hb; reflexivity|exact Ha].
Qed.

Lemma getValue_contains (line : string) (c : ascii) :
  contains c line = false -> contains c (getValue line) = false.
Proof.
  intros H. unfold getValue.
  destruct (Cut line ":"%char) as [[b a] f] eqn:E.
  destruct (Cut_contains _ _ c _ _ _ E H) as [_ Ha].
  destruct f; simpl; [exact Ha|reflexivity].
Qed.

(** Decimal digits hold no line feed. *)
Lemma FormatUint_no_LF (x : Z) : contains LF (FormatUint x) = false.
Proof.
  unfold FormatUint.
  assert (H : forall d, contains LF (NilEmpty.string_of_uint d) = false).
  { induction d; simpl; try reflexivity; exact IHd. }
  unfold NilZero.string_of_uint.
  destruct (N.to_uint (Z.to_N x)); try apply H. reflexivity.
Qed.

(** ** The parser *)

Section ParserProperties.

Variable ParseFloat32 : string -> float32 + NumError.
Variable FormatFloat32 : float32 -> string.

Local Abbreviation step := (parse_line ParseFloat32).
Local Abbreviation run := (parse_lines ParseFloat32).
Local Abbreviation Parse := (ParseHlsManifest ParseFloat32).
Local Abbreviation Render := (Manifest_String FormatFloat32).

(** Case analysis along the branches of the loop body. *)
Ltac line_cases :=
  unfold parse_line; cbv zeta;
  repeat (match goal with
    | |- context [if HasPrefix ?l ?f then _ else _] =>
        destruct (HasPrefix l f) eqn:?
    | |- context [parseUintValue ?a ?b ?c ?d] =>
        destruct (parseUintValue a b c d) eqn:?
    | |- context [Cut ?v ?c] => destruct (Cut v c) as [[? ?] [|]] eqn:?
    | |- context [ParseFloat32 ?d] => destruct (ParseFloat32 d) eqn:?
    | |- context [match ps_tempSegment ?s with _ => _ end] =>
        destruct (ps_tempSegment s) eqn:?
    | |- context [match ps_tempSegmentGroup ?s with _ => _ end] =>
        destruct (ps_tempSegmentGroup s) eqn:?
    end; cbv beta iota delta [negb]).

(** Two different tags at the head of one line. *)
Ltac prefix_clash :=
  match goal with
  | H1 : HasPrefix ?l ?f1 = true, H2 : HasPrefix ?l ?f2 = true |- _ =>
      let H := fresh in
      assert (H := HasPrefix_exclusive l f1 f2 eq_refl eq_refl H1);
      congruence
  end.

Lemma parseUintValue_error (field line : string) (lineNumber bitSize : Z)
      (e : ParseError) :
  parseUintValue field line lineNumber bitSize = inr e ->
  Line e = lineNumber /\
  (Err e = ErrFieldRequireValue \/ exists ne, Err e = ErrStrconv ne).
Proof.
  unfold parseUintValue.
  destruct (String.eqb (getValue line) ""); [intros [= <-]; simpl; auto|].
  destruct (ParseUint (getValue line) bitSize) as [v|ne]; [discriminate|].
  intros [= <-]. simpl. split; [reflexivity|]. right. exists ne. reflexivity.
Qed.

(** An early return of the loop body: the manifest is returned as it is,
    the error carries the line's number, and it is a missing segment path
    only at a segment-info line met with a segment pending. *)
Lemma parse_line_Return (st : ParserState) (i : Z) (line : string)
      (m : Manifest) (e : ParseError) :
  step st i line = Return m e ->
  m = ps_manifest st /\ Line e = i + 2 /\
  Err e <> ErrRequiredFieldMissing /\
  (Err e = ErrSegmentPathMissing ->
   HasPrefix line SegmentField = true /\ ps_tempSegment st <> None /\
   e = segmentPathError (i + 2)).
Proof.
  line_cases; intros H; try discriminate; injection H as <- <-;
    repeat match goal with
      | H : parseUintValue _ _ _ _ = inr _ |- _ =>
          apply parseUintValue_error in H;
          destruct H as [? [?|[? ?]]]
      end;
    (split; [reflexivity|]); (split; [simpl; congruence|]);
    (split; [simpl; congruence|]); simpl; intros E; try congruence.
  all: split; [reflexivity|]; split; [congruence|reflexivity].
Qed.

(** An early return of the loop happens at one line, reached normally. *)
Lemma parse_lines_Return (lines : list string) (st : ParserState) (i : Z)
      (m : Manifest) (e : ParseError) :
  run st i lines = Return m e ->
  exists pre line post st',
    lines = pre ++ line :: post /\
    run st i pre = Next st' /\
    step st' (i + len pre) line = Return m e.
Proof.
  revert st i. induction lines as [|l lines IH]; intros st i H; simpl in H;
    [discriminate|].
  destruct (step st i l) as [st1|st1|m1 e1] eqn:E; [|discriminate|].
  - destruct (IH _ _ H) as (pre & line & post & st' & -> & Hrun & Hstep).
    exists (l :: pre), line, post, st'. simpl. rewrite E.
    split; [reflexivity|]. split; [exact Hrun|].
    rewrite len_cons. rewrite <- Hstep. f_equal. lia.
  - injection H as <- <-. exists [], l, lines, st. simpl.
    split; [reflexivity|]. split; [reflexivity|].
    change (len (@nil string)) with 0. rewrite Z.add_0_r. exact E.
Qed.

Lemma parse_lines_cons (l : string) (lines : list string) (st : ParserState)
      (i : Z) :
  run st i (l :: lines) =
  match step st i l with
  | Next st' => run st' (i + 1) lines
  | Break st' => Break st'
  | Return manifest err => Return manifest err
  end.
Proof. reflexivity. Qed.

(** Running the loop over a list cut in two. *)
Lemma parse_lines_app (pre post : list string) (st : ParserState) (i : Z) :
  run st i (pre ++ post) =
  match run st i pre with
  | Next st' => run st' (i + len pre) post
  | r => r
  end.
Proof.
  revert st i. induction pre as [|l pre IH]; intros st i; simpl.
  - change (len (@nil string)) with 0. rewrite Z.add_0_r. reflexivity.
  - destruct (step st i l) as [st1|st1|m1 e1]; try reflexivity.
    rewrite IH, len_cons. replace (i + 1 + len pre) with (i + (1 + len pre)) by lia.
    reflexivity.
Qed.

Lemma parse_lines_no_declaration_error (lines : list string) (st : ParserState)
      (i : Z) (m : Manifest) (e : ParseError) :
  run st i lines = Return m e -> Err e <> ErrRequiredFieldMissing.
Proof.
  intros H. destruct (parse_lines_Return _ _ _ _ _ H)
    as (pre & line & post & st' & _ & _ & Hstep).
  apply parse_line_Return in Hstep. apply Hstep.
Qed.

Lemma parse_finish_no_declaration_error (st : ParserState) (lines : list string)
      (e : ParseError) :
  snd (parse_finish st lines) = Some e -> Err e <> ErrRequiredFieldMissing.
Proof.
  unfold parse_finish. destruct (ps_tempSegment st).
  - simpl. intros [= <-]. discriminate.
  - destruct (ps_tempSegmentGroup st); discriminate.
Qed.

(** C8, as the code has it.  [ParseHlsManifest] gets past the declaration
    check exactly when the first line of the text (what precedes the
    first line feed, empty or not) equals [#EXTM3U]; with any other first
    line it returns the zero manifest and the missing-declaration error,
    reported at line 1. *)
Theorem declaration_is_first_line (data : string) :
  (first_line data = DeclarationField <-> ~ MissingDeclaration (Parse data)) /\
  (first_line data <> DeclarationField ->
   Parse data = (Manifest_zero, Some declarationError)) /\
  Line declarationError = 1 /\ Err declarationError = ErrRequiredFieldMissing.
Proof.
  assert (Hbad : first_line data <> DeclarationField ->
                 Parse data = (Manifest_zero, Some declarationError)).
  { intros Hne. unfold ParseHlsManifest. rewrite Split_first_line.
    destruct (String.eqb_spec (first_line data) DeclarationField);
      [contradiction|reflexivity]. }
  split; [|split; [exact Hbad|split; reflexivity]].
  split.
  - intros Hfirst (e & He & Herr). revert He.
    unfold ParseHlsManifest. rewrite Split_first_line.
    destruct (String.eqb_spec (first_line data) DeclarationField);
      [|contradiction]. cbv beta iota delta [negb].
    destruct (run _ 0 (tl (Split data LF))) as [st|st|m1 e1] eqn:E.
    + intros He. apply parse_finish_no_declaration_error in He. contradiction.
    + intros He. apply parse_finish_no_declaration_error in He. contradiction.
    + simpl. intros [= <-].
      apply parse_lines_no_declaration_error in E. contradiction.
  - intros Hnot.
    destruct (string_dec (first_line data) DeclarationField) as [E|N];
      [exact E|].
    exfalso. apply Hnot. exists declarationError.
    rewrite (Hbad N). split; reflexivity.
Qed.

(** *** The paths of the parsed segments *)

Lemma parse_line_paths (L : list string) (st st' : ParserState) (i : Z)
      (line : string) :
  state_paths_from L st -> In line L ->
  loop_end (step st i line) = Some st' ->
  state_paths_from L st'.
Proof.
  intros [Hm Hg] Hin. unfold state_paths_from.
  line_cases; simpl; intros H; try discriminate; injection H as <-; simpl;
    try (split; [assumption|]); try (intros g' [= <-]);
    try solve [assumption | constructor | discriminate
               | eapply Hg; eassumption | apply Hg; reflexivity].
  - (* a discontinuity closes the pending group *)
    split; [|discriminate].
    apply Forall_app. split; [assumption|].
    constructor; [|constructor]. apply Hg. reflexivity.
  - (* a path line completes the pending segment *)
    simpl. apply Forall_app. split; [apply Hg; reflexivity|].
    constructor; [|constructor]. simpl. split; [assumption|].
    unfold is_path_line.
    repeat match goal with H : HasPrefix _ _ = false |- _ => rewrite H; clear H end.
    reflexivity.
Qed.

Lemma parse_lines_paths (L lines : list string) (st st' : ParserState) (i : Z) :
  state_paths_from L st -> incl lines L ->
  loop_end (run st i lines) = Some st' ->
  state_paths_from L st'.
Proof.
  revert st i. induction lines as [|l lines IH]; intros st i Hst Hincl; simpl.
  - intros [= <-]. exact Hst.
  - destruct (step st i l) as [st1|st1|m1 e1] eqn:E; simpl.
    + apply IH.
      * apply (parse_line_paths L st st1 i l); [exact Hst| |rewrite E; reflexivity].
        apply Hincl. left. reflexivity.
      * intros x Hx. apply Hincl. right. exact Hx.
    + intros [= <-].
      apply (parse_line_paths L st st1 i l); [exact Hst| |rewrite E; reflexivity].
      apply Hincl. left. reflexivity.
    + discriminate.
Qed.

(** *** Missing segment paths *)





Lemma len_Split_tl (data : string) :
  len (tl (Split data LF)) + 1 = len (Split data LF).
Proof.
  pose proof (Split_not_nil data LF) as Hne.
  destruct (Split data LF) as [|l ls]; [contradiction|].
  simpl tl. rewrite len_cons. lia.
Qed.


(** The parser past a good declaration. *)
Lemma ParseHlsManifest_body (data : string) :
  first_line data = DeclarationField ->
  Parse data =
  match run parser_init 0 (tl (Split data LF)) with
  | Return manifest err => (manifest, Some err)
  | Next st | Break st => parse_finish st (tl (Split data LF))
  end.
Proof.
  intros H. unfold ParseHlsManifest. rewrite Split_first_line, H. reflexivity.
Qed.

(** *** Rendering and parsing again *)

(** C3 fails on the code.  The empty playlist [#EXTM3U] is accepted and
    parses to the zero manifest; [String] renders it as five lines, each
    ended by a line feed; splitting that text at the line feeds leaves an
    empty sixth piece, which the parser, with no segment pending and no
    end marker met, rejects as an invalid line.  So the rendering of an
    accepted text is not accepted again.  This holds whatever the
    floating-point routines do. *)
Theorem rendering_without_end_marker_is_rejected :
  Parse playlist_empty = (Manifest_zero, None) /\
  Render (fst (Parse playlist_empty)) = playlist_zero /\
  Parse (Render (fst (Parse playlist_empty)))
    = (Manifest_zero, Some (invalidFieldError "" 6)).
Proof.
  split; [reflexivity|]. split; reflexivity.
Qed.

(** *** The lines of a rendering *)

Local Abbreviation seglines := (segment_lines FormatFloat32).
Local Abbreviation grouplines := (group_lines FormatFloat32).

Lemma write_segment_lines (builder : string) (s : Segment) :
  write_segment FormatFloat32 builder s = (builder ++ unlines (seglines s))%string.
Proof.
  unfold write_segment, segment_lines. cbn [unlines].
  rewrite ?sapp_assoc, ?sapp_nil_r. reflexivity.
Qed.

Lemma write_segments_lines (ss : list Segment) (builder : string) :
  fold_left (write_segment FormatFloat32) ss builder
  = (builder ++ unlines (flat_map seglines ss))%string.
Proof.
  revert builder. induction ss as [|s ss IH]; intros builder.
  - simpl. rewrite sapp_nil_r. reflexivity.
  - cbn [fold_left flat_map]. rewrite IH, write_segment_lines, unlines_app.
    rewrite sapp_assoc. reflexivity.
Qed.

Lemma write_groups_lines (groups : list SegmentGroup) (builder : string)
      (i count : Z) :
  write_groups FormatFloat32 builder i count groups
  = (builder ++ unlines (grouplines i count groups))%string.
Proof.
  revert builder i. induction groups as [|g groups IH]; intros builder i.
  - simpl. rewrite sapp_nil_r. reflexivity.
  - cbn [write_groups group_lines]. rewrite IH, write_segments_lines.
    rewrite !unlines_app. destruct (i <? count - 1).
    + cbn [unlines]. rewrite ?sapp_assoc, ?sapp_nil_r. reflexivity.
    + cbn [unlines]. rewrite ?sapp_assoc, ?sapp_nil_r. reflexivity.
Qed.

(** [String] writes the declaration, the body lines and, if the flag is
    set, the end marker, each ended by a line feed. *)
Lemma Manifest_String_lines (m : Manifest) :
  Render m =
  unlines (DeclarationField
           :: body_lines FormatFloat32 m
           ++ (if HasEndList m then [EndListField] else [])).
Proof.
  unfold Manifest_String. rewrite write_groups_lines.
  unfold body_lines, header_lines. cbn [unlines app].
  rewrite !unlines_app.
  destruct (HasEndList m); cbn [unlines];
    rewrite ?sapp_assoc, ?sapp_nil_r; cbn [append];
    rewrite ?sapp_assoc, ?sapp_nil_r; reflexivity.
Qed.


Lemma Manifest_text_ok_Forall (m : Manifest) :
  Manifest_text_ok m ->
  Forall (fun g => Forall Segment_text_ok (Segments g)) (SegmentGroups m).
Proof.
  intros H. apply Forall_forall. intros g Hg.
  apply Forall_forall. intros s Hs. exact (H g s Hg Hs).
Qed.

Lemma is_path_line_prefixes (line : string) :
  is_path_line line = true ->
  HasPrefix line SegmentField = false /\ HasPrefix line EndListField = false.
Proof.
  unfold is_path_line. intros H. apply negb_true_iff in H.
  repeat (apply orb_false_iff in H; destruct H as [H ?]).
  split; assumption.
Qed.

Section BodyLines.

Hypothesis FormatFloat32_no_LF : forall d, contains LF (FormatFloat32 d) = false.

Lemma segment_lines_no_LF (s : Segment) :
  Segment_text_ok s -> Forall (fun l => contains LF l = false) (seglines s).
Proof.
  intros (Hp & Ht & _). unfold segment_lines.
  constructor; [|constructor; [exact Hp|constructor]].
  rewrite !contains_app, FormatFloat32_no_LF, Ht. reflexivity.
Qed.

Lemma group_lines_no_LF (groups : list SegmentGroup) (i count : Z) :
  Forall (fun g => Forall Segment_text_ok (Segments g)) groups ->
  Forall (fun l => contains LF l = false) (grouplines i count groups).
Proof.
  intros H. revert i. induction H as [|g groups Hg _ IH]; intros i;
    cbn [group_lines]; [constructor|].
  apply Forall_app. split.
  - induction Hg as [|s ss Hs _ IHs]; cbn [flat_map]; [constructor|].
    apply Forall_app. split; [apply segment_lines_no_LF; exact Hs|exact IHs].
  - apply Forall_app. split; [|apply IH].
    destruct (i <? count - 1); [|constructor].
    constructor; [reflexivity|constructor].
Qed.

Lemma body_lines_no_LF (m : Manifest) :
  Manifest_text_ok m ->
  Forall (fun l => contains LF l = false) (body_lines FormatFloat32 m).
Proof.
  intros H. unfold body_lines, header_lines. apply Forall_app. split.
  - repeat constructor; rewrite !contains_app; unfold FormatFloat_uint8;
      rewrite FormatUint_no_LF; reflexivity.
  - apply group_lines_no_LF, Manifest_text_ok_Forall, H.
Qed.

End BodyLines.

Lemma segment_lines_facts (s : Segment) (p : bool) :
  Segment_text_ok s ->
  Forall (fun l => HasPrefix l EndListField = false) (seglines s) /\
  fold_left pending_after_line (seglines s) p = false.
Proof.
  intros (_ & _ & Hpath). apply is_path_line_prefixes in Hpath as Hpre.
  destruct Hpre as [Hseg Hend]. unfold segment_lines. split.
  - constructor; [reflexivity|constructor; [exact Hend|constructor]].
  - cbn [fold_left].
    replace (pending_after_line p _) with true by reflexivity.
    unfold pending_after_line. rewrite Hseg, Hpath. reflexivity.
Qed.

Lemma group_lines_facts (groups : list SegmentGroup) (i count : Z) :
  Forall (fun g => Forall Segment_text_ok (Segments g)) groups ->
  Forall (fun l => HasPrefix l EndListField = false) (grouplines i count groups) /\
  fold_left pending_after_line (grouplines i count groups) false = false.
Proof.
  intros H. revert i. induction H as [|g groups Hg _ IH]; intros i;
    cbn [group_lines]; [split; [constructor|reflexivity]|].
  assert (Hsegs : Forall (fun l => HasPrefix l EndListField = false)
                         (flat_map seglines (Segments g)) /\
                  fold_left pending_after_line
                            (flat_map seglines (Segments g)) false = false).
  { clear IH.
    induction Hg as [|s ss Hs _ IHs]; cbn [flat_map];
      [split; [constructor|reflexivity]|].
    destruct (segment_lines_facts s false Hs) as [H1 H2].
    destruct IHs as [H3 H4].
    split; [apply Forall_app; split; assumption|].
    rewrite fold_left_app, H2. exact H4. }
  destruct Hsegs as [H1 H2]. destruct (IH (i + 1)) as [H3 H4].
  split.
  - apply Forall_app. split; [exact H1|].
    apply Forall_app. split; [|exact H3].
    destruct (i <? count - 1); [|constructor].
    constructor; [reflexivity|constructor].
  - rewrite !fold_left_app, H2.
    destruct (i <? count - 1); cbn [fold_left]; [|exact H4].
    replace (pending_after_line false DiscontinuityField) with false
      by reflexivity.
    exact H4.
Qed.

Lemma body_lines_facts (m : Manifest) :
  Manifest_text_ok m ->
  Forall (fun l => HasPrefix l EndListField = false) (body_lines FormatFloat32 m) /\
  fold_left pending_after_line (body_lines FormatFloat32 m) false = false.
Proof.
  intros H. unfold body_lines, header_lines.
  destruct (group_lines_facts (SegmentGroups m) 0 (len (SegmentGroups m))
              (Manifest_text_ok_Forall m H)) as [H1 H2].
  split.
  - apply Forall_app. split; [|exact H1]. repeat constructor.
  - rewrite fold_left_app. cbn [fold_left].
    replace (pending_after_line false (VersionField ++ _)) with false
      by reflexivity.
    replace (pending_after_line false (TargetDurationField ++ _)) with false
      by reflexivity.
    replace (pending_after_line false (MediaSequenceField ++ _)) with false
      by reflexivity.
    replace (pending_after_line false (DiscontinuitySequenceField ++ _)) with false
      by reflexivity.
    exact H2.
Qed.


(** *** What the loop knows of the text it has read *)

(** Whether a segment is pending can be read off the lines accepted. *)
Lemma parse_line_pending (st st' : ParserState) (i : Z) (line : string) :
  step st i line = Next st' ->
  is_pending st' = pending_after_line (is_pending st) line.
Proof.
  unfold pending_after_line, is_path_line.
  line_cases; intros H; try discriminate; try prefix_clash;
    injection H as <-; unfold is_pending; simpl;
    repeat match goal with
      | H : ps_tempSegment _ = _ |- _ => rewrite H
      end;
    reflexivity.
Qed.

Lemma parse_lines_pending (lines : list string) (st st' : ParserState) (i : Z) :
  run st i lines = Next st' ->
  is_pending st' = fold_left pending_after_line lines (is_pending st).
Proof.
  revert st i. induction lines as [|l lines IH]; intros st i; simpl.
  - intros [= <-]. reflexivity.
  - destruct (step st i l) as [st1|st1|m1 e1] eqn:E; try discriminate.
    intros H. rewrite (IH _ _ H). f_equal.
    apply (parse_line_pending st st1 i l E).
Qed.

(** The loop breaks only at a line that starts with the end marker. *)
Lemma parse_line_Break (st st' : ParserState) (i : Z) (line : string) :
  step st i line = Break st' -> HasPrefix line EndListField = true.
Proof.
  line_cases; intros H; try discriminate; reflexivity.
Qed.

Lemma parse_lines_Break (lines : list string) (st st' : ParserState) (i : Z) :
  run st i lines = Break st' ->
  Exists (fun l => HasPrefix l EndListField = true) lines.
Proof.
  revert st i. induction lines as [|l lines IH]; intros st i; simpl;
    [discriminate|].
  destruct (step st i l) as [st1|st1|m1 e1] eqn:E; try discriminate.
  - intros H. apply Exists_cons_tl. apply (IH _ _ H).
  - intros _. apply Exists_cons_hd. apply (parse_line_Break st st1 i l E).
Qed.

(** A line that starts with the end marker breaks the loop. *)
Lemma parse_line_end_marker (st : ParserState) (i : Z) (line : string) :
  HasPrefix line EndListField = true ->
  step st i line =
  Break (mkParser (set_HasEndList true (ps_manifest st))
                  (ps_tempSegmentGroup st) (ps_tempSegment st)).
Proof.
  intros Hp. unfold parse_line. cbv zeta.
  rewrite (HasPrefix_exclusive line EndListField VersionField),
    (HasPrefix_exclusive line EndListField TargetDurationField),
    (HasPrefix_exclusive line EndListField MediaSequenceField),
    (HasPrefix_exclusive line EndListField DiscontinuitySequenceField),
    (HasPrefix_exclusive line EndListField SegmentField),
    (HasPrefix_exclusive line EndListField DiscontinuityField), Hp
    by (reflexivity || exact Hp).
  reflexivity.
Qed.


(** Where the loop breaks: at a line that starts with the end marker,
    every line before it accepted. *)
Lemma parse_lines_Break_at (lines : list string) (st st' : ParserState)
      (i : Z) :
  run st i lines = Break st' ->
  exists pre marker post st0,
    lines = (pre ++ marker :: post)%list /\
    run st i pre = Next st0 /\
    HasPrefix marker EndListField = true /\
    st' = mkParser (set_HasEndList true (ps_manifest st0))
                   (ps_tempSegmentGroup st0) (ps_tempSegment st0).
Proof.
  revert st i. induction lines as [|l lines IH]; intros st i; simpl;
    [discriminate|].
  destruct (step st i l) as [st1|st1|m1 e1] eqn:E; try discriminate.
  - intros H. destruct (IH _ _ H) as (pre & marker & post & st0 & -> & Hrun & Hp & ->).
    exists (l :: pre), marker, post, st0.
    split; [reflexivity|]. split; [|split; [exact Hp|reflexivity]].
    rewrite parse_lines_cons, E. exact Hrun.
  - intros [= <-]. pose proof (parse_line_Break st st1 i l E) as Hp.
    exists [], l, lines, st. split; [reflexivity|]. split; [reflexivity|].
    split; [exact Hp|].
    rewrite (parse_line_end_marker st i l Hp) in E.
    injection E as <-. reflexivity.
Qed.





(** An empty line met with no segment pending is an invalid line. *)
Lemma parse_line_empty (st : ParserState) (i : Z) :
  is_pending st = false ->
  step st i ""%string
  = Return (ps_manifest st) (invalidFieldError ""%string (i + 2)).
Proof.
  unfold is_pending, parse_line. cbv zeta.
  destruct (ps_tempSegment st); [discriminate|]. reflexivity.
Qed.

(** A text whose accepted lines leave no segment pending and hold no end
    marker is rejected once a line feed ends its last line. *)
Lemma unlines_rejected (body : list string) :
  Forall (fun l => contains LF l = false) body ->
  Forall (fun l => HasPrefix l EndListField = false) body ->
  fold_left pending_after_line body false = false ->
  exists e, snd (Parse (unlines (DeclarationField :: body))) = Some e.
Proof.
  intros Hlf Hend Hpend.
  assert (HS : Split (unlines (DeclarationField :: body)) LF
               = (DeclarationField :: body) ++ [""%string]).
  { apply Split_unlines. constructor; [reflexivity|exact Hlf]. }
  rewrite ParseHlsManifest_body
    by (rewrite <- Split_first_line, HS; reflexivity).
  rewrite HS. cbn [app tl]. rewrite parse_lines_app.
  destruct (run parser_init 0 body) as [st|st|m1 e1] eqn:E.
  - rewrite parse_lines_cons, parse_line_empty.
    + eexists. reflexivity.
    + rewrite (parse_lines_pending body parser_init st 0 E). exact Hpend.
  - exfalso. apply parse_lines_Break in E.
    apply Exists_exists in E. destruct E as (l & Hl & Hp).
    rewrite Forall_forall in Hend. rewrite (Hend l Hl) in Hp. discriminate.
  - eexists. reflexivity.
Qed.

(** The rendering of a manifest without the end-list flag is never
    accepted, provided its paths and titles can stand on a line and the
    durations are printed without a line feed. *)
Lemma Render_without_end_marker_rejected (m : Manifest) :
  (forall d, contains LF (FormatFloat32 d) = false) ->
  Manifest_text_ok m -> HasEndList m = false ->
  exists e, snd (Parse (Render m)) = Some e.
Proof.
  intros Hff Hok Hend. rewrite Manifest_String_lines, Hend, app_nil_r.
  destruct (body_lines_facts m Hok) as [H1 H2].
  apply unlines_rejected; [apply body_lines_no_LF| |]; assumption.
Qed.


(** *** What the parser accepts can stand on lines *)

Lemma parse_line_titles (st st' : ParserState) (i : Z) (line : string) :
  contains LF line = false -> state_titles_ok st ->
  loop_end (step st i line) = Some st' ->
  state_titles_ok st'.
Proof.
  intros Hline (Hm & Hg & Hs). unfold state_titles_ok.
  line_cases; simpl; intros H; try discriminate; injection H as <-; simpl;
    (split; [|split]); try assumption;
    try (intros ? [= <-]); try discriminate;
    try solve [ eapply Hg; eassumption | eapply Hs; eassumption | constructor ].
  - (* the title of a segment-info line, a new group being opened *)
    simpl. apply getValue_contains with (c := LF) in Hline.
    match goal with
    | E : Cut (getValue line) _ = _ |- _ =>
        apply (Cut_contains _ _ LF _ _ _ E) in Hline
    end.
    apply Hline.
  - (* the same, within the pending group *)
    simpl. apply getValue_contains with (c := LF) in Hline.
    match goal with
    | E : Cut (getValue line) _ = _ |- _ =>
        apply (Cut_contains _ _ LF _ _ _ E) in Hline
    end.
    apply Hline.
  - (* a discontinuity closes the pending group *)
    apply Forall_app. split; [assumption|].
    constructor; [|constructor]. apply Hg. reflexivity.
  - (* a path line completes the pending segment *)
    simpl. apply Forall_app. split; [apply Hg; reflexivity|].
    constructor; [|constructor]. simpl. apply Hs. reflexivity.
Qed.

Lemma parse_lines_titles (lines : list string) (st st' : ParserState) (i : Z) :
  Forall (fun l => contains LF l = false) lines -> state_titles_ok st ->
  loop_end (run st i lines) = Some st' ->
  state_titles_ok st'.
Proof.
  intros Hlines. revert st i.
  induction Hlines as [|l lines Hl _ IH]; intros st i Hst; simpl.
  - intros [= <-]. exact Hst.
  - destruct (step st i l) as [st1|st1|m1 e1] eqn:E; simpl.
    + apply IH. apply (parse_line_titles st st1 i l Hl Hst).
      rewrite E. reflexivity.
    + intros [= <-]. apply (parse_line_titles st st1 i l Hl Hst).
      rewrite E. reflexivity.
    + discriminate.
Qed.

(** The state behind an accepted text. *)
Lemma ParseHlsManifest_accepts (data : string) (m : Manifest) :
  Parse data = (m, None) ->
  exists st,
    loop_end (run parser_init 0 (tl (Split data LF))) = Some st /\
    ps_tempSegment st = None /\
    HasEndList m = HasEndList (ps_manifest st) /\
    SegmentGroups m =
      SegmentGroups (ps_manifest st)
      ++ match ps_tempSegmentGroup st with Some g => [g] | None => [] end.
Proof.
  unfold ParseHlsManifest.
  destruct (negb (String.eqb (hd ""%string (Split data LF)) DeclarationField));
    [discriminate|].
  fold parser_init.
  assert (Hfin : forall st, parse_finish st (tl (Split data LF)) = (m, None) ->
            ps_tempSegment st = None /\
            HasEndList m = HasEndList (ps_manifest st) /\
            SegmentGroups m =
              SegmentGroups (ps_manifest st)
              ++ match ps_tempSegmentGroup st with Some g => [g] | None => [] end).
  { intros st. unfold parse_finish.
    destruct (ps_tempSegment st); [discriminate|].
    destruct (ps_tempSegmentGroup st); intros [= <-]; simpl;
      rewrite ?app_nil_r; repeat split; reflexivity. }
  destruct (run parser_init 0 (tl (Split data LF))) as [st|st|m1 e1];
    try discriminate; intros H; exists st; (split; [reflexivity|]);
    apply Hfin; exact H.
Qed.

(** Paths and titles of an accepted text hold no line feed, and the paths
    start with none of the tags. *)
Lemma ParseHlsManifest_text_ok (data : string) (m : Manifest) :
  Parse data = (m, None) -> Manifest_text_ok m.
Proof.
  intros HP. destruct (ParseHlsManifest_accepts data m HP)
    as (st & Hrun & _ & _ & Hgroups).
  pose proof (Split_pieces data LF) as Hpieces.
  assert (Hlines : Forall (fun l => contains LF l = false) (tl (Split data LF))).
  { destruct (Split data LF); [constructor|].
    inversion Hpieces; assumption. }
  assert (Hpaths : state_paths_from (tl (Split data LF)) st).
  { apply (parse_lines_paths _ (tl (Split data LF)) parser_init st 0);
      [split; [constructor|discriminate]|apply incl_refl|exact Hrun]. }
  assert (Htitles : state_titles_ok st).
  { apply (parse_lines_titles (tl (Split data LF)) parser_init st 0 Hlines);
      [|exact Hrun].
    split; [constructor|]. split; discriminate. }
  destruct Hpaths as [Hp1 Hp2]. destruct Htitles as (Ht1 & Ht2 & _).
  intros g s Hg Hs. rewrite Hgroups in Hg.
  assert (H : (In (Path s) (tl (Split data LF)) /\ is_path_line (Path s) = true)
              /\ contains LF (Title s) = false).
  { apply in_app_or in Hg. destruct Hg as [Hg|Hg].
    - rewrite Forall_forall in Hp1, Ht1.
      specialize (Hp1 g Hg). specialize (Ht1 g Hg).
      unfold paths_from in Hp1. rewrite Forall_forall in Hp1, Ht1.
      split; [apply Hp1|apply Ht1]; exact Hs.
    - destruct (ps_tempSegmentGroup st) as [tg|]; [|contradiction].
      destruct Hg as [<-|[]].
      specialize (Hp2 tg eq_refl). specialize (Ht2 tg eq_refl).
      unfold paths_from in Hp2. rewrite Forall_forall in Hp2, Ht2.
      split; [apply Hp2|apply Ht2]; exact Hs. }
  destruct H as [[Hin Hpath] Htitle].
  rewrite Forall_forall in Hlines.
  split; [apply Hlines; exact Hin|]. split; assumption.
Qed.

(** C3, the extent of the failure.  Whatever text the parser accepts, if
    it met no end marker then the rendering of the manifest it returns is
    not accepted again (the durations being printed without a line feed):
    the empty piece behind the rendering's last line feed is an invalid
    line, or an earlier line fails. *)
Theorem accepted_text_without_end_marker_does_not_round_trip
        (data : string) (m : Manifest) :
  (forall d, contains LF (FormatFloat32 d) = false) ->
  Parse data = (m, None) -> HasEndList m = false ->
  exists e, snd (Parse (Render m)) = Some e.
Proof.
  intros Hff HP Hend.
  apply Render_without_end_marker_rejected; [exact Hff| |exact Hend].
  apply (ParseHlsManifest_text_ok data m HP).
Qed.


(** *** The fields of a parsed manifest *)

Lemma parse_line_ok (st : ParserState) (i : Z) (line : string) :
  Manifest_ok (ps_manifest st) ->
  match step st i line with
  | Next st' | Break st' => Manifest_ok (ps_manifest st')
  | Return m _ => Manifest_ok m
  end.
Proof.
  intros (Hv & Ht & Hm & Hd).
  line_cases; unfold Manifest_ok; simpl;
    repeat split; try apply Hv; try apply Ht; try apply Hm; try apply Hd;
    try apply wrap8_ok; apply wrap32_ok.
Qed.

Lemma parse_lines_ok (lines : list string) (st : ParserState) (i : Z) :
  Manifest_ok (ps_manifest st) ->
  match run st i lines with
  | Next st' | Break st' => Manifest_ok (ps_manifest st')
  | Return m _ => Manifest_ok m
  end.
Proof.
  revert st i. induction lines as [|l lines IH]; intros st i Hok; simpl;
    [exact Hok|].
  pose proof (parse_line_ok st i l Hok) as H.
  destruct (step st i l) as [st1|st1|m1 e1]; [apply IH|..]; exact H.
Qed.

(** Whatever [ParseHlsManifest] returns, with or without an error, holds
    values of the fields' Go types. *)
Lemma ParseHlsManifest_ok (data : string) : Manifest_ok (fst (Parse data)).
Proof.
  assert (H0 : Manifest_ok Manifest_zero).
  { unfold Manifest_ok, uint8_ok, uint32_ok. simpl. lia. }
  unfold ParseHlsManifest.
  destruct (negb (String.eqb (hd ""%string (Split data LF)) DeclarationField));
    [exact H0|].
  pose proof (parse_lines_ok (tl (Split data LF))
                (mkParser Manifest_zero None None) 0 H0) as H.
  assert (Hfin : forall st lines, Manifest_ok (ps_manifest st) ->
                                  Manifest_ok (fst (parse_finish st lines))).
  { intros st lines Hok. unfold parse_finish.
    destruct (ps_tempSegment st); [exact Hok|].
    destruct (ps_tempSegmentGroup st); exact Hok. }
  destruct (run _ 0 (tl (Split data LF))) as [st|st|m1 e1];
    [apply Hfin| apply Hfin|]; exact H.
Qed.


(** *** No empty group comes out of the parser *)

Lemma parse_line_groups_ok (st st' : ParserState) (i : Z) (line : string) :
  state_groups_ok st -> loop_end (step st i line) = Some st' ->
  state_groups_ok st'.
Proof.
  unfold state_groups_ok, doomed. intros Hst.
  line_cases; simpl; intros H; try discriminate; injection H as <-; simpl;
    try exact Hst.
  - (* a segment-info line within the pending group *)
    right. destruct Hst as [[Hp _]|[Hm _]]; [exfalso; apply Hp; reflexivity|].
    split; [exact Hm|]. intros; discriminate.
  - (* a segment-info line opens a group *)
    right. destruct Hst as [[Hp _]|[Hm _]]; [exfalso; apply Hp; reflexivity|].
    split; [exact Hm|]. intros; discriminate.
  - (* a discontinuity closes the pending group *)
    destruct Hst as [[_ Hg]|[Hm Hg]]; [discriminate|].
    match goal with
    | |- context [SegmentGroups (ps_manifest st) ++ [?s]] =>
        destruct (Segments s) as [|x xs] eqn:Es;
        [ left; split; [apply (Hg s eq_refl Es)|reflexivity]
        | right; split; [|intros; discriminate];
          apply Forall_app; split; [exact Hm|];
          constructor; [|constructor]; unfold nonempty_group; rewrite Es;
          discriminate ]
    end.
  - (* a path line completes the pending segment *)
    right. destruct Hst as [[_ Hg]|[Hm _]]; [discriminate|].
    split; [exact Hm|]. intros g [= <-]. simpl. intros E.
    apply app_eq_nil in E. destruct E as [_ E]. discriminate.
Qed.

Lemma parse_lines_groups_ok (lines : list string) (st st' : ParserState) (i : Z) :
  state_groups_ok st -> loop_end (run st i lines) = Some st' ->
  state_groups_ok st'.
Proof.
  revert st i. induction lines as [|l lines IH]; intros st i Hst; simpl.
  - intros [= <-]. exact Hst.
  - destruct (step st i l) as [st1|st1|m1 e1] eqn:E; simpl.
    + apply IH. apply (parse_line_groups_ok st st1 i l Hst).
      rewrite E. reflexivity.
    + intros [= <-]. apply (parse_line_groups_ok st st1 i l Hst).
      rewrite E. reflexivity.
    + discriminate.
Qed.

Lemma ParseHlsManifest_groups_nonempty (data : string) (m : Manifest) :
  Parse data = (m, None) -> Forall nonempty_group (SegmentGroups m).
Proof.
  intros HP. destruct (ParseHlsManifest_accepts data m HP)
    as (st & Hrun & Hpend & _ & Hgroups).
  assert (Hinit : state_groups_ok parser_init).
  { right. split; [constructor|discriminate]. }
  pose proof (parse_lines_groups_ok _ parser_init st 0 Hinit Hrun) as Hst.
  destruct Hst as [[Hp _]|[Hm Hg]]; [contradiction|].
  rewrite Hgroups. apply Forall_app. split; [exact Hm|].
  destruct (ps_tempSegmentGroup st) as [g|]; [|constructor].
  constructor; [|constructor]. intros E.
  apply (Hg g eq_refl E). exact Hpend.
Qed.

(** X10.  A manifest that [ParseHlsManifest] returns without error has no
    empty group: a group is only opened by a segment-info line, and the
    text is rejected unless that segment gets its path within the group. *)
Theorem parsed_groups_are_nonempty (data : string) (m : Manifest) :
  Parse data = (m, None) -> Forall nonempty_group (SegmentGroups m).
Proof. exact (ParseHlsManifest_groups_nonempty data m). Qed.

(** *** Behind the end marker *)

Lemma parse_lines_end_marker (pre post : list string) (e : string)
      (st : ParserState) (i : Z) :
  HasPrefix e EndListField = true ->
  run st i (pre ++ e :: post) = run st i (pre ++ [e]).
Proof.
  intros Hp. rewrite !parse_lines_app.
  destruct (run st i pre) as [st1|st1|m1 e1]; try reflexivity.
  rewrite !parse_lines_cons, !parse_line_end_marker by exact Hp.
  reflexivity.
Qed.

(** X11.  What stands behind the end marker is not read: two texts with
    the same lines up to and including a line that starts with
    [#EXT-X-ENDLIST] yield the same manifest, and one is accepted exactly
    when the other is. *)
Theorem lines_behind_the_end_marker_are_ignored
        (data1 data2 : string) (first e : string) (pre post1 post2 : list string) :
  Split data1 LF = first :: pre ++ e :: post1 ->
  Split data2 LF = first :: pre ++ e :: post2 ->
  HasPrefix e EndListField = true ->
  fst (Parse data1) = fst (Parse data2) /\
  (snd (Parse data1) = None <-> snd (Parse data2) = None).
Proof.
  intros H1 H2 Hp. unfold ParseHlsManifest. rewrite H1, H2. cbn [hd tl].
  destruct (negb (String.eqb first DeclarationField)); [split; reflexivity|].
  rewrite (parse_lines_end_marker pre post1 e _ 0 Hp),
    (parse_lines_end_marker pre post2 e _ 0 Hp).
  destruct (run _ 0 (pre ++ [e])) as [st|st|m1 e1];
    try (split; reflexivity);
    unfold parse_finish; destruct (ps_tempSegment st);
    try destruct (ps_tempSegmentGroup st); simpl;
    (split; [reflexivity|split; intros; (reflexivity || discriminate)]).
Qed.

(** *** Line numbers *)

(** X12.  Every error [ParseHlsManifest] returns carries the number of a
    line of the input: at least 1 and at most the number of pieces the
    text splits into. *)
Theorem error_line_is_a_line_of_the_input (data : string) (m : Manifest)
        (e : ParseError) :
  Parse data = (m, Some e) -> 1 <= Line e <= len (Split data LF).
Proof.
  pose proof (len_Split_tl data) as Hlen.
  pose proof (len_nonneg (tl (Split data LF))) as Htl.
  unfold ParseHlsManifest.
  destruct (negb (String.eqb (hd ""%string (Split data LF)) DeclarationField)).
  - intros [= _ <-]. simpl. lia.
  - destruct (run _ 0 (tl (Split data LF))) as [st|st|m1 e1] eqn:E.
    + unfold parse_finish. destruct (ps_tempSegment st);
        [|destruct (ps_tempSegmentGroup st)]; intros [= _ <-]. simpl. lia.
    + unfold parse_finish. destruct (ps_tempSegment st);
        [|destruct (ps_tempSegmentGroup st)]; intros [= _ <-]. simpl. lia.
    + intros [= _ <-].
      destruct (parse_lines_Return _ _ _ _ _ E)
        as (pre & line & post & st' & Hl & _ & Hstep).
      apply parse_line_Return in Hstep. destruct Hstep as (_ & HL & _).
      rewrite HL. rewrite Hl, len_app, len_cons in Hlen.
      pose proof (len_nonneg pre). pose proof (len_nonneg post). lia.
Qed.

(** *** The paths of an accepted text *)

(** Each line the loop reads adds its text to the paths exactly when it
    is a path line. *)
Lemma parse_line_state_paths (st st' : ParserState) (i : Z) (line : string) :
  loop_end (step st i line) = Some st' ->
  state_paths st'
  = (state_paths st ++ if is_path_line line then [line] else [])%list.
Proof.
  line_cases; simpl; intros H; try discriminate; injection H as <-;
    unfold state_paths, is_path_line, paths; simpl;
    repeat match goal with
           | H : HasPrefix _ _ = _ |- _ => rewrite H; clear H
           | H : ps_tempSegmentGroup _ = _ |- _ => rewrite H; clear H
           end;
    simpl; rewrite ?app_nil_r; try reflexivity.
  - rewrite flat_map_app. simpl. rewrite app_nil_r. reflexivity.
  - rewrite map_app, app_assoc. reflexivity.
Qed.

Lemma parse_lines_state_paths (lines : list string) (st st' : ParserState)
      (i : Z) :
  run st i lines = Next st' ->
  state_paths st' = (state_paths st ++ filter is_path_line lines)%list /\
  lines_before_end_marker lines = lines.
Proof.
  revert st i. induction lines as [|l lines IH]; intros st i; simpl.
  - intros [= <-]. rewrite app_nil_r. split; reflexivity.
  - destruct (step st i l) as [st1|st1|m1 e1] eqn:E; try discriminate.
    intros H. destruct (IH _ _ H) as [IH1 IH2].
    assert (Hl : loop_end (step st i l) = Some st1) by (rewrite E; reflexivity).
    rewrite IH1, (parse_line_state_paths st st1 i l Hl), IH2.
    destruct (HasPrefix l EndListField) eqn:Hend.
    + rewrite (parse_line_end_marker st i l Hend) in E. discriminate.
    + split; [|reflexivity].
      destruct (is_path_line l); rewrite <- app_assoc; reflexivity.
Qed.

Lemma lines_before_end_marker_app (pre post : list string) (marker : string) :
  lines_before_end_marker pre = pre ->
  HasPrefix marker EndListField = true ->
  lines_before_end_marker (pre ++ marker :: post) = pre.
Proof.
  intros Hpre Hm. induction pre as [|l pre IH]; simpl in *.
  - rewrite Hm. reflexivity.
  - destruct (HasPrefix l EndListField); [discriminate|].
    injection Hpre as Hpre. rewrite (IH Hpre). reflexivity.
Qed.

Lemma len_paths (gs : list SegmentGroup) :
  len (flat_map (fun g => map Path (Segments g)) gs) = count_segments gs.
Proof.
  induction gs as [|g gs IH]; [reflexivity|].
  cbn [flat_map count_segments]. rewrite len_app, IH. unfold len.
  rewrite length_map. reflexivity.
Qed.

(** The paths of an accepted text, in order, are the path lines among
    the lines in front of the end marker. *)
Lemma ParseHlsManifest_paths (data : string) (m : Manifest) :
  Parse data = (m, None) ->
  paths m
  = filter is_path_line (lines_before_end_marker (tl (Split data LF))).
Proof.
  intros HP. destruct (ParseHlsManifest_accepts data m HP)
    as (st & Hrun & _ & _ & Hgroups).
  assert (Hm : paths m = state_paths st).
  { unfold state_paths, paths. rewrite Hgroups, flat_map_app.
    destruct (ps_tempSegmentGroup st); simpl; rewrite ?app_nil_r; reflexivity. }
  rewrite Hm. clear Hm Hgroups HP.
  destruct (run parser_init 0 (tl (Split data LF))) as [st1|st1|m1 e1] eqn:E;
    simpl in Hrun; try discriminate; injection Hrun as ->.
  - destruct (parse_lines_state_paths _ _ _ _ E) as [H1 H2].
    rewrite H1, H2. reflexivity.
  - destruct (parse_lines_Break_at _ _ _ _ E)
      as (pre & marker & post & st0 & Hl & Hpre & Hmark & ->).
    destruct (parse_lines_state_paths _ _ _ _ Hpre) as [H1 H2].
    rewrite Hl, (lines_before_end_marker_app pre post marker H2 Hmark).
    unfold state_paths in *. cbn [ps_manifest ps_tempSegmentGroup].
    unfold paths in *. cbn [set_HasEndList SegmentGroups]. exact H1.
Qed.

(** X20.  The paths of the segments of an accepted text are, in order,
    the lines in front of the end marker that start with none of the
    tags; the manifest has as many segments as there are such lines. *)
Theorem parsed_paths_are_the_untagged_lines_read (data : string)
        (m : Manifest) :
  Parse data = (m, None) ->
  let read := lines_before_end_marker (tl (Split data LF)) in
  paths m = filter is_path_line read /\
  SegmentCount m = len (filter is_path_line read).
Proof.
  intros HP. cbv zeta.
  pose proof (ParseHlsManifest_paths data m HP) as H.
  split; [exact H|].
  rewrite <- H, SegmentCount_count. unfold paths. symmetry. apply len_paths.
Qed.

End ParserProperties.

(** ** The parser on concrete playlists

    The floating-point routines are here the stand-ins for digit-only
    durations; the playlists below use no other duration. *)

(** C8 as stated fails: the first non-empty line of this text is the
    declaration, yet the text is rejected for a missing declaration,
    because its first line is empty. *)
Lemma first_nonempty_line_is_not_what_is_checked :
  first_nonempty_line playlist_blank_first = Some DeclarationField /\
  ParseHlsManifest ParseFloat32_digits playlist_blank_first
    = (Manifest_zero, Some declarationError) /\
  MissingDeclaration (ParseHlsManifest ParseFloat32_digits playlist_blank_first).
Proof.
  split; [reflexivity|]. split; [reflexivity|].
  exists declarationError. split; reflexivity.
Qed.

Lemma declaration_is_first_line_witness :
  (first_line playlist_blank_first <> DeclarationField /\
   ParseHlsManifest ParseFloat32_digits playlist_blank_first
     = (Manifest_zero, Some declarationError)) /\
  (first_line playlist_empty = DeclarationField /\
   ~ MissingDeclaration (ParseHlsManifest ParseFloat32_digits playlist_empty)).
Proof.
  assert (H1 : first_line playlist_blank_first <> DeclarationField)
    by (vm_compute; discriminate).
  assert (H2 : first_line playlist_empty = DeclarationField) by reflexivity.
  split.
  - split; [exact H1|].
    exact (proj1 (proj2 (declaration_is_first_line ParseFloat32_digits
                           playlist_blank_first)) H1).
  - split; [exact H2|].
    exact (proj1 (proj1 (declaration_is_first_line ParseFloat32_digits
                           playlist_empty)) H2).
Defined.

(** C9 fails on the code.  A segment-info line at the end of the input
    is rejected for its missing path; the same text with a line feed
    behind it is accepted: the empty piece behind the final line feed is
    taken for the path, and the only segment of the returned manifest has
    the empty string for path.  This holds whatever [ParseFloat] makes of
    the duration [1], as long as it accepts it. *)
Theorem segment_without_path_is_accepted_behind_a_line_feed
        (ParseFloat32 : string -> float32 + NumError) (d : float32) :
  ParseFloat32 "1"%string = inl d ->
  ParseHlsManifest ParseFloat32 playlist_pending
    = (Manifest_zero, Some (segmentPathError 2)) /\
  ParseHlsManifest ParseFloat32 playlist_empty_path
    = (mkManifest 0 0 0 0 false [mkSegmentGroup [mkSegment "" d "a"]], None) /\
  paths (fst (ParseHlsManifest ParseFloat32 playlist_empty_path))
    = [""%string].
Proof.
  intros Hd.
  assert (H1 : ParseHlsManifest ParseFloat32 playlist_pending
               = (Manifest_zero, Some (segmentPathError 2))).
  { unfold ParseHlsManifest, playlist_pending. cbn. rewrite Hd. reflexivity. }
  assert (H2 : ParseHlsManifest ParseFloat32 playlist_empty_path
               = (mkManifest 0 0 0 0 false
                    [mkSegmentGroup [mkSegment "" d "a"]], None)).
  { unfold ParseHlsManifest, playlist_empty_path. cbn. rewrite Hd. reflexivity. }
  split; [exact H1|]. split; [exact H2|]. rewrite H2. reflexivity.
Qed.

Lemma segment_without_path_is_accepted_behind_a_line_feed_witness :
  ParseHlsManifest ParseFloat32_digits playlist_pending
    = (Manifest_zero, Some (segmentPathError 2)) /\
  ParseHlsManifest ParseFloat32_digits playlist_empty_path
    = (mkManifest 0 0 0 0 false [mkSegmentGroup [mkSegment "" f32_1 "a"]],
       None) /\
  paths (fst (ParseHlsManifest ParseFloat32_digits playlist_empty_path))
    = [""%string].
Proof.
  exact (segment_without_path_is_accepted_behind_a_line_feed
           ParseFloat32_digits f32_1 eq_refl).
Defined.



(** C3 on a live playlist: the text is accepted; its rendering ends every
    line with a line feed and has no end marker, so parsing it again fails
    at the empty eighth piece; the manifest returned with that error has
    lost the pending group, and renders differently. *)
Example live_playlist_does_not_round_trip :
  let P := ParseHlsManifest ParseFloat32_digits in
  let R := Manifest_String FormatFloat32_digits in
  snd (P playlist_live) = None /\
  P (R (fst (P playlist_live)))
    = (mkManifest 3 4 0 0 false [], Some (invalidFieldError "" 8)) /\
  R (fst (P (R (fst (P playlist_live))))) <> R (fst (P playlist_live)).
Proof.
  cbv zeta. split; [reflexivity|]. split; [reflexivity|].
  vm_compute. discriminate.
Qed.

(** With the end marker the same playlist does round-trip. *)
Example finished_playlist_round_trips :
  let P := ParseHlsManifest ParseFloat32_digits in
  let R := Manifest_String FormatFloat32_digits in
  snd (P playlist_vod) = None /\
  snd (P (R (fst (P playlist_vod)))) = None /\
  R (fst (P (R (fst (P playlist_vod))))) = R (fst (P playlist_vod)).
Proof.
  cbv zeta. repeat split; reflexivity.
Qed.

Lemma FormatFloat32_digits_no_LF (d : float32) :
  contains LF (FormatFloat32_digits d) = false.
Proof.
  unfold FormatFloat32_digits.
  destruct d as [[|]|[|]| |[|] m e]; try reflexivity.
  destruct (_ && _); [apply FormatUint_no_LF|reflexivity].
Qed.

Lemma accepted_text_without_end_marker_does_not_round_trip_witness :
  ParseHlsManifest ParseFloat32_digits playlist_live
    = (mkManifest 3 4 0 0 false [mkSegmentGroup [mkSegment "0.ts" f32_4 "t"]],
       None) /\
  exists e,
    snd (ParseHlsManifest ParseFloat32_digits
           (Manifest_String FormatFloat32_digits
              (mkManifest 3 4 0 0 false
                 [mkSegmentGroup [mkSegment "0.ts" f32_4 "t"]])))
    = Some e.
Proof.
  assert (HP : ParseHlsManifest ParseFloat32_digits playlist_live
               = (mkManifest 3 4 0 0 false
                    [mkSegmentGroup [mkSegment "0.ts" f32_4 "t"]], None))
    by reflexivity.
  split; [exact HP|].
  exact (accepted_text_without_end_marker_does_not_round_trip
           ParseFloat32_digits FormatFloat32_digits playlist_live _
           FormatFloat32_digits_no_LF HP eq_refl).
Defined.

(** * Further properties of the count-based removals *)

(** ** The group-level removals, for any count *)

(** X1.  [SegmentGroup.RemoveFromStart(n)] and [RemoveFromEnd(n)] clamp
    their argument: for every [n], negative or larger than the group, they
    return [min(max(n,0), len)], and leave the group without its first,
    resp. last, that many segments. *)
Theorem SegmentGroup_Remove_clamps (g : SegmentGroup) (n : Z) :
  let k := clamp n (len (Segments g)) in
  (snd (SegmentGroup_RemoveFromStart g n) = k /\
   Segments (fst (SegmentGroup_RemoveFromStart g n))
     = skipn (Z.to_nat k) (Segments g)) /\
  (snd (SegmentGroup_RemoveFromEnd g n) = k /\
   Segments (fst (SegmentGroup_RemoveFromEnd g n))
     = firstn (Z.to_nat (len (Segments g) - k)) (Segments g)).
Proof.
  pose proof (len_nonneg (Segments g)) as Hlen. unfold clamp. cbv zeta.
  destruct (Z.le_gt_cases n 0) as [Hn|Hn].
  - replace (Z.min (Z.max n 0) (len (Segments g))) with 0 by lia.
    unfold SegmentGroup_RemoveFromStart, SegmentGroup_RemoveFromEnd.
    destruct (Z.leb_spec n 0); [|lia]. simpl.
    rewrite Z.sub_0_r. unfold len. rewrite Nat2Z.id, firstn_all.
    repeat split; reflexivity.
  - destruct (Z.le_gt_cases (len (Segments g)) n) as [Hle|Hgt].
    + replace (Z.min (Z.max n 0) (len (Segments g))) with (len (Segments g))
        by lia.
      rewrite SegmentGroup_RemoveFromStart_whole,
        SegmentGroup_RemoveFromEnd_whole by assumption.
      simpl. rewrite Z.sub_diag. simpl.
      split; (split; [reflexivity|]); [|reflexivity].
      unfold len. rewrite Nat2Z.id, skipn_all. reflexivity.
    + replace (Z.min (Z.max n 0) (len (Segments g))) with n by lia.
      rewrite SegmentGroup_RemoveFromStart_part,
        SegmentGroup_RemoveFromEnd_part by lia.
      repeat split; reflexivity.
Qed.

(** ** The walks as functions *)

Lemma RemoveFromStart_loop_trim (gs : list SegmentGroup) (st : LoopState) :
  let st' := fold_left RemoveFromStart_body gs st in
  ls_newGroups st' = ls_newGroups st ++ trim_head (ls_n st) gs /\
  ls_segmentsGroupRemoved st'
    = ls_segmentsGroupRemoved st + dropped_head (ls_n st) gs /\
  ls_segmentsRemoved st'
    = ls_segmentsRemoved st + clamp (ls_n st) (count_segments gs).
Proof.
  revert st. induction gs as [|g gs IH]; intros st; cbv zeta.
  - simpl. rewrite app_nil_r. unfold clamp. repeat split; lia.
  - pose proof (len_nonneg (Segments g)) as Hg.
    pose proof (count_segments_nonneg gs) as Hgs.
    cbn [fold_left trim_head dropped_head count_segments].
    destruct (Z.leb_spec (ls_n st) 0) as [Hn|Hn].
    + rewrite RemoveFromStart_body_idle by assumption.
      rewrite RemoveFromStart_loop_idle by (simpl; assumption). simpl.
      rewrite <- app_assoc. unfold clamp. repeat split; try reflexivity; lia.
    + destruct (Z.leb_spec (len (Segments g)) (ls_n st)) as [Hle|Hgt].
      * rewrite RemoveFromStart_body_whole by assumption.
        match goal with
        | |- context [fold_left _ gs ?s] => destruct (IH s) as (H1 & H2 & H3)
        end.
        simpl in H1, H2, H3. rewrite H1, H2, H3. unfold clamp.
        repeat split; try reflexivity; lia.
      * rewrite RemoveFromStart_body_part by lia.
        rewrite RemoveFromStart_loop_idle by (simpl; lia). simpl.
        rewrite <- app_assoc. unfold clamp.
        repeat split; try reflexivity; lia.
Qed.

Lemma len_drop_head (b : Z) (g : SegmentGroup) :
  0 <= b <= len (Segments g) ->
  len (Segments (drop_head b g)) = len (Segments g) - b.
Proof. intros H. unfold drop_head. simpl. apply len_skipn. exact H. Qed.

Lemma drop_head_add (a b : Z) (g : SegmentGroup) :
  0 <= a -> 0 <= b -> drop_head b (drop_head a g) = drop_head (a + b) g.
Proof.
  intros Ha Hb. unfold drop_head. simpl. rewrite skipn_skipn.
  f_equal. f_equal. lia.
Qed.

(** Two walks, one after the other, are one walk with the sum. *)
Lemma trim_head_add (gs : list SegmentGroup) (a b : Z) :
  0 <= a -> 0 <= b ->
  trim_head b (trim_head a gs) = trim_head (a + b) gs /\
  dropped_head a gs + dropped_head b (trim_head a gs) = dropped_head (a + b) gs.
Proof.
  revert a. induction gs as [|g gs IH]; intros a Ha Hb; [split; reflexivity|].
  pose proof (len_nonneg (Segments g)) as Hg.
  cbn [trim_head dropped_head].
  destruct (Z.leb_spec a 0) as [Ha0|Ha0].
  - replace (a + b) with b by lia. cbn [trim_head dropped_head].
    split; [reflexivity|lia].
  - destruct (Z.leb_spec (a + b) 0) as [Hab|Hab]; [lia|].
    destruct (Z.leb_spec (len (Segments g)) a) as [Hle|Hgt].
    + destruct (Z.leb_spec (len (Segments g)) (a + b)) as [_|]; [|lia].
      destruct (IH (a - len (Segments g)) ltac:(lia) Hb) as [H1 H2].
      replace (a + b - len (Segments g)) with (a - len (Segments g) + b) by lia.
      split; [exact H1|lia].
    + cbn [trim_head dropped_head].
      rewrite len_drop_head by lia.
      destruct (Z.leb_spec b 0) as [Hb0|Hb0].
      * replace (a + b) with a by lia.
        destruct (Z.leb_spec (len (Segments g)) a); [lia|].
        split; [reflexivity|lia].
      * destruct (Z.leb_spec (len (Segments g) - a) b) as [Hle'|Hgt'];
          destruct (Z.leb_spec (len (Segments g)) (a + b)); try lia.
        -- replace (a + b - len (Segments g)) with (b - (len (Segments g) - a))
             by lia.
           split; [reflexivity|lia].
        -- rewrite drop_head_add by lia. split; [reflexivity|lia].
Qed.

Lemma count_trim_head (gs : list SegmentGroup) (n : Z) :
  count_segments (trim_head n gs) = count_segments gs - clamp n (count_segments gs).
Proof.
  unfold clamp. revert n. induction gs as [|g gs IH]; intros n; [simpl; lia|].
  pose proof (len_nonneg (Segments g)) as Hg.
  pose proof (count_segments_nonneg gs) as Hgs.
  cbn [trim_head count_segments].
  destruct (Z.leb_spec n 0); [simpl; lia|].
  destruct (Z.leb_spec (len (Segments g)) n).
  - rewrite IH. lia.
  - cbn [count_segments]. rewrite len_drop_head by lia. lia.
Qed.

Lemma len_trim_head (gs : list SegmentGroup) (n : Z) :
  len (trim_head n gs) = len gs - dropped_head n gs.
Proof.
  revert n. induction gs as [|g gs IH]; intros n; [reflexivity|].
  cbn [trim_head dropped_head].
  destruct (Z.leb_spec n 0); [lia|].
  destruct (Z.leb_spec (len (Segments g)) n).
  - rewrite IH, len_cons. lia.
  - rewrite !len_cons. lia.
Qed.

(** The segments left are the segments there were, the first ones apart. *)
Lemma all_segments_trim_head (gs : list SegmentGroup) (n : Z) :
  all_segments (trim_head n gs)
  = skipn (Z.to_nat (clamp n (count_segments gs))) (all_segments gs).
Proof.
  unfold clamp, all_segments. revert n.
  induction gs as [|g gs IH]; intros n; [simpl; rewrite skipn_nil; reflexivity|].
  pose proof (len_nonneg (Segments g)) as Hg.
  pose proof (count_segments_nonneg gs) as Hgs.
  cbn [trim_head count_segments flat_map].
  destruct (Z.leb_spec n 0).
  - replace (Z.min (Z.max n 0) _) with 0 by lia. reflexivity.
  - destruct (Z.leb_spec (len (Segments g)) n).
    + rewrite IH, skipn_app.
      replace (Z.to_nat (Z.min (Z.max n 0) (len (Segments g) + count_segments gs))
               - List.length (Segments g))%nat
        with (Z.to_nat (Z.min (Z.max (n - len (Segments g)) 0) (count_segments gs)))
        by (unfold len in *; lia).
      rewrite (skipn_all2 (Segments g)) by (unfold len in *; lia).
      reflexivity.
    + cbn [flat_map]. unfold drop_head. simpl Segments.
      replace (Z.min (Z.max n 0) (len (Segments g) + count_segments gs)) with n
        by lia.
      rewrite skipn_app.
      replace (Z.to_nat n - List.length (Segments g))%nat with 0%nat
        by (unfold len in *; lia).
      reflexivity.
Qed.

(** ** The tail-first walk is the head-first walk played backwards *)

Lemma mirror_group_involutive (g : SegmentGroup) :
  mirror_group (mirror_group g) = g.
Proof. unfold mirror_group. simpl. rewrite rev_involutive. apply SegmentGroup_eta. Qed.

Lemma len_mirror_group (g : SegmentGroup) :
  len (Segments (mirror_group g)) = len (Segments g).
Proof. unfold mirror_group, len. simpl. rewrite length_rev. reflexivity. Qed.

Lemma mirror_drop_head (n : Z) (g : SegmentGroup) :
  0 <= n -> mirror_group (drop_head n (mirror_group g)) = drop_tail n g.
Proof.
  intros Hn. unfold mirror_group, drop_head, drop_tail. simpl.
  rewrite skipn_rev, rev_involutive. f_equal. f_equal. unfold len. lia.
Qed.

Lemma mirror_groups_involutive (gs : list SegmentGroup) :
  rev (map mirror_group (rev (map mirror_group gs))) = gs.
Proof.
  rewrite map_rev, rev_involutive, map_map.
  rewrite <- (map_id gs) at 2. apply map_ext. apply mirror_group_involutive.
Qed.

Lemma count_segments_mirror (gs : list SegmentGroup) :
  count_segments (rev (map mirror_group gs)) = count_segments gs.
Proof.
  rewrite count_segments_rev.
  induction gs as [|g gs IH]; cbn [map count_segments]; [reflexivity|].
  rewrite IH, len_mirror_group. reflexivity.
Qed.

Lemma all_segments_mirror (gs : list SegmentGroup) :
  all_segments (rev (map mirror_group gs)) = rev (all_segments gs).
Proof.
  unfold all_segments. induction gs as [|g gs IH]; simpl; [reflexivity|].
  rewrite flat_map_app, IH, rev_app_distr. simpl. rewrite app_nil_r.
  reflexivity.
Qed.

(** One iteration of the backward loop on a group is one iteration of the
    forward loop on the group reversed, the new groups being kept in
    reverse. *)
Lemma RemoveFromEnd_body_mirror (stE stS : LoopState) (g : SegmentGroup) :
  ls_n stE = ls_n stS ->
  ls_segmentsRemoved stE = ls_segmentsRemoved stS ->
  ls_segmentsGroupRemoved stE = ls_segmentsGroupRemoved stS ->
  ls_newGroups stE = rev (map mirror_group (ls_newGroups stS)) ->
  let stE' := RemoveFromEnd_body stE g in
  let stS' := RemoveFromStart_body stS (mirror_group g) in
  ls_n stE' = ls_n stS' /\
  ls_segmentsRemoved stE' = ls_segmentsRemoved stS' /\
  ls_segmentsGroupRemoved stE' = ls_segmentsGroupRemoved stS' /\
  ls_newGroups stE' = rev (map mirror_group (ls_newGroups stS')).
Proof.
  intros Hn Hsr Hgr Hng. cbv zeta.
  pose proof (len_mirror_group g) as Hlen.
  destruct (Z.le_gt_cases (ls_n stE) 0) as [Hidle|Hpos].
  - rewrite RemoveFromEnd_body_idle, RemoveFromStart_body_idle by lia. simpl.
    rewrite map_app, rev_app_distr. simpl.
    rewrite mirror_group_involutive, Hng. repeat split; assumption.
  - destruct (Z.le_gt_cases (len (Segments g)) (ls_n stE)) as [Hle|Hgt].
    + rewrite RemoveFromEnd_body_whole, RemoveFromStart_body_whole by lia.
      rewrite Hlen, Hn, Hsr, Hgr. simpl. repeat split; assumption.
    + rewrite RemoveFromEnd_body_part, RemoveFromStart_body_part by lia.
      simpl. rewrite map_app, rev_app_distr. simpl.
      rewrite <- Hn, mirror_drop_head, Hng, Hsr by lia.
      repeat split; try reflexivity; assumption.
Qed.

Lemma RemoveFromEnd_loop_mirror (l : list SegmentGroup) (stE stS : LoopState) :
  ls_n stE = ls_n stS ->
  ls_segmentsRemoved stE = ls_segmentsRemoved stS ->
  ls_segmentsGroupRemoved stE = ls_segmentsGroupRemoved stS ->
  ls_newGroups stE = rev (map mirror_group (ls_newGroups stS)) ->
  let stE' := fold_left RemoveFromEnd_body l stE in
  let stS' := fold_left RemoveFromStart_body (map mirror_group l) stS in
  ls_segmentsRemoved stE' = ls_segmentsRemoved stS' /\
  ls_segmentsGroupRemoved stE' = ls_segmentsGroupRemoved stS' /\
  ls_newGroups stE' = rev (map mirror_group (ls_newGroups stS')).
Proof.
  revert stE stS. induction l as [|g l IH]; intros stE stS Hn Hsr Hgr Hng.
  - simpl. repeat split; assumption.
  - cbn [fold_left map].
    destruct (RemoveFromEnd_body_mirror stE stS g Hn Hsr Hgr Hng)
      as (H1 & H2 & H3 & H4).
    apply IH; assumption.
Qed.

(** The backward walk in terms of the forward one, whatever the fields. *)
Lemma RemoveFromEnd_groups (m : Manifest) (n : Z) :
  let gs' := rev (map mirror_group (SegmentGroups m)) in
  SegmentGroups (fst (Manifest_RemoveFromEnd m n))
    = rev (map mirror_group (trim_head n gs')) /\
  snd (Manifest_RemoveFromEnd m n)
    = (dropped_head n gs', clamp n (SegmentCount m)).
Proof.
  cbv zeta.
  destruct (RemoveFromEnd_loop_mirror (rev (SegmentGroups m))
              (loop_init m n) (loop_init m n) eq_refl eq_refl eq_refl eq_refl)
    as (H1 & H2 & H3).
  destruct (RemoveFromStart_loop_trim (map mirror_group (rev (SegmentGroups m)))
              (loop_init m n)) as (T1 & T2 & T3).
  simpl in T1, T2, T3.
  unfold Manifest_RemoveFromEnd, RemoveFromEnd_loop. simpl.
  rewrite H1, H2, H3, T1, T2, T3, SegmentCount_count.
  rewrite (map_rev mirror_group (SegmentGroups m)), count_segments_mirror.
  split; reflexivity.
Qed.

Lemma RemoveFromStart_groups (m : Manifest) (n : Z) :
  SegmentGroups (fst (Manifest_RemoveFromStart m n))
    = trim_head n (SegmentGroups m) /\
  snd (Manifest_RemoveFromStart m n)
    = (dropped_head n (SegmentGroups m), clamp n (SegmentCount m)).
Proof.
  destruct (RemoveFromStart_loop_trim (SegmentGroups m) (loop_init m n))
    as (T1 & T2 & T3).
  simpl in T1, T2, T3. unfold Manifest_RemoveFromStart. simpl.
  rewrite T1, T2, T3, SegmentCount_count. split; reflexivity.
Qed.

(** The forward removal as a function of the manifest. *)
Lemma RemoveFromStart_function (m : Manifest) (n : Z) :
  Manifest_ok m ->
  Manifest_RemoveFromStart m n =
    (mkManifest (Version m) (TargetDuration m)
       (wrap32 (MediaSequence m + clamp n (SegmentCount m)))
       (wrap32 (DiscontinuitySequence m + dropped_head n (SegmentGroups m)))
       (HasEndList m) (trim_head n (SegmentGroups m)),
     (dropped_head n (SegmentGroups m), clamp n (SegmentCount m))).
Proof.
  intros (_ & _ & Hm & Hd).
  destruct (RemoveFromStart_loop_trim (SegmentGroups m) (loop_init m n))
    as (T1 & T2 & T3).
  pose proof (RemoveFromStart_loop_fields (SegmentGroups m) (loop_init m n) Hm Hd)
    as Hf.
  simpl in T1, T2, T3, Hf. unfold Manifest_RemoveFromStart.
  rewrite Hf, T1, T2, T3, SegmentCount_count. unfold set_SegmentGroups. simpl.
  rewrite !Z.sub_0_r. reflexivity.
Qed.

Lemma RemoveFromEnd_function (m : Manifest) (n : Z) :
  Manifest_ok m ->
  let gs' := rev (map mirror_group (SegmentGroups m)) in
  Manifest_RemoveFromEnd m n =
    (mkManifest (Version m) (TargetDuration m)
       (wrap32 (MediaSequence m + clamp n (SegmentCount m)))
       (wrap32 (DiscontinuitySequence m + dropped_head n gs'))
       (HasEndList m) (rev (map mirror_group (trim_head n gs'))),
     (dropped_head n gs', clamp n (SegmentCount m))).
Proof.
  intros (_ & _ & Hm & Hd). cbv zeta.
  destruct (RemoveFromEnd_groups m n) as [G1 G2]. cbv zeta in G1, G2.
  pose proof (RemoveFromEnd_loop_fields (rev (SegmentGroups m)) (loop_init m n) Hd)
    as Hf.
  simpl in Hf. revert G1 G2.
  unfold Manifest_RemoveFromEnd, RemoveFromEnd_loop. rewrite Hf.
  unfold set_SegmentGroups, set_MediaSequence. simpl.
  intros G1 G2. injection G2 as G2 G3. rewrite G1, G2, G3.
  rewrite Z.sub_0_r, wrap32_add_r. reflexivity.
Qed.

Lemma mirror_ok (m : Manifest) : Manifest_ok m -> Manifest_ok (mirror m).
Proof. intros H. exact H. Qed.

Lemma mirror_involutive (m : Manifest) : mirror (mirror m) = m.
Proof.
  unfold mirror, set_SegmentGroups. simpl. rewrite mirror_groups_involutive.
  destruct m; reflexivity.
Qed.

(** X2.  [RemoveFromEnd] is [RemoveFromStart] on the playlist played
    backwards: reversing the groups and the segments of each group,
    removing [n] from the start and reversing again gives the manifest
    [RemoveFromEnd(n)] leaves, counters included, and the same pair of
    returned counts. *)
Theorem RemoveFromEnd_is_mirrored_RemoveFromStart (m : Manifest) (n : Z) :
  Manifest_ok m ->
  Manifest_RemoveFromEnd m n =
    (mirror (fst (Manifest_RemoveFromStart (mirror m) n)),
     snd (Manifest_RemoveFromStart (mirror m) n)).
Proof.
  intros Hok.
  rewrite (RemoveFromEnd_function m n Hok).
  rewrite (RemoveFromStart_function (mirror m) n (mirror_ok m Hok)).
  cbv zeta. unfold mirror at 1. unfold set_SegmentGroups. simpl.
  rewrite !SegmentCount_count. simpl. rewrite count_segments_mirror.
  reflexivity.
Qed.

Lemma RemoveFromEnd_is_mirrored_RemoveFromStart_witness :
  Manifest_ok manifest_2_3 /\
  Manifest_RemoveFromEnd manifest_2_3 3 =
    (mirror (fst (Manifest_RemoveFromStart (mirror manifest_2_3) 3)),
     snd (Manifest_RemoveFromStart (mirror manifest_2_3) 3)).
Proof.
  assert (Hok : Manifest_ok manifest_2_3).
  { unfold Manifest_ok, uint8_ok, uint32_ok. simpl. lia. }
  split; [exact Hok|].
  exact (RemoveFromEnd_is_mirrored_RemoveFromStart manifest_2_3 3 Hok).
Defined.

(** ** What the removals keep *)

(** X3.  Bookkeeping of the removals, for every manifest and every [n]:
    the number of segments reported removed is [min(max(n,0), SegmentCount)],
    the manifest's [SegmentCount] goes down by exactly that number, and its
    number of groups goes down by exactly the number of groups reported
    removed. *)
Theorem Remove_counts_add_up (m : Manifest) (n : Z) :
  (let '(m', (groupsRemoved, segmentsRemoved)) := Manifest_RemoveFromStart m n in
   segmentsRemoved = clamp n (SegmentCount m) /\
   SegmentCount m' = SegmentCount m - segmentsRemoved /\
   len (SegmentGroups m') = len (SegmentGroups m) - groupsRemoved) /\
  (let '(m', (groupsRemoved, segmentsRemoved)) := Manifest_RemoveFromEnd m n in
   segmentsRemoved = clamp n (SegmentCount m) /\
   SegmentCount m' = SegmentCount m - segmentsRemoved /\
   len (SegmentGroups m') = len (SegmentGroups m) - groupsRemoved).
Proof.
  split.
  - destruct (RemoveFromStart_groups m n) as [G1 G2].
    destruct (Manifest_RemoveFromStart m n) as [m' [gr sr]].
    simpl in G1, G2. injection G2 as -> ->.
    rewrite !SegmentCount_count, G1, count_trim_head, len_trim_head.
    repeat split; reflexivity.
  - destruct (RemoveFromEnd_groups m n) as [G1 G2]. cbv zeta in G1, G2.
    destruct (Manifest_RemoveFromEnd m n) as [m' [gr sr]].
    simpl in G1, G2. injection G2 as -> ->.
    rewrite !SegmentCount_count, G1, count_segments_mirror, count_trim_head,
      count_segments_mirror.
    split; [reflexivity|]. split; [reflexivity|].
    unfold len. rewrite length_rev, length_map. fold (len (trim_head n
      (rev (map mirror_group (SegmentGroups m))))).
    rewrite len_trim_head. unfold len. rewrite length_rev, length_map.
    reflexivity.
Qed.

Lemma len_all_segments (gs : list SegmentGroup) :
  len (all_segments gs) = count_segments gs.
Proof.
  unfold all_segments. induction gs as [|g gs IH]; [reflexivity|].
  cbn [flat_map count_segments]. rewrite len_app, IH. reflexivity.
Qed.

(** X4.  The removals neither reorder nor alter segments: read across the
    groups, the segments left by [RemoveFromStart(n)] are those of the
    manifest without the first [min(max(n,0), SegmentCount)], and the
    segments left by [RemoveFromEnd(n)] are those of the manifest without
    the last that many. *)
Theorem Remove_keeps_a_contiguous_run (m : Manifest) (n : Z) :
  let k := clamp n (SegmentCount m) in
  all_segments (SegmentGroups (fst (Manifest_RemoveFromStart m n)))
    = skipn (Z.to_nat k) (all_segments (SegmentGroups m)) /\
  all_segments (SegmentGroups (fst (Manifest_RemoveFromEnd m n)))
    = firstn (Z.to_nat (SegmentCount m - k)) (all_segments (SegmentGroups m)).
Proof.
  cbv zeta. split.
  - destruct (RemoveFromStart_groups m n) as [G1 _].
    rewrite G1, all_segments_trim_head, SegmentCount_count. reflexivity.
  - destruct (RemoveFromEnd_groups m n) as [G1 _]. cbv zeta in G1.
    rewrite G1, all_segments_mirror, all_segments_trim_head,
      all_segments_mirror, count_segments_mirror, skipn_rev, rev_involutive.
    rewrite SegmentCount_count. f_equal.
    pose proof (len_all_segments (SegmentGroups m)) as Hlen. unfold len in Hlen.
    pose proof (count_segments_nonneg (SegmentGroups m)).
    unfold clamp in *. lia.
Qed.

(** ** Removing in two steps *)

Lemma clamp_add (a b c : Z) :
  0 <= a -> 0 <= b -> 0 <= c ->
  clamp a c + clamp b (c - clamp a c) = clamp (a + b) c.
Proof. unfold clamp. lia. Qed.

(** X5.  Removing [a] and then [b] segments from the start, both
    non-negative, is removing [a + b] at once: the same manifest is left,
    and the counts returned by the two calls add up to those of the single
    call. *)
Theorem RemoveFromStart_twice (m : Manifest) (a b : Z) :
  Manifest_ok m -> 0 <= a -> 0 <= b ->
  let '(m1, (g1, s1)) := Manifest_RemoveFromStart m a in
  let '(m2, (g2, s2)) := Manifest_RemoveFromStart m1 b in
  Manifest_RemoveFromStart m (a + b) = (m2, (g1 + g2, s1 + s2)).
Proof.
  intros Hok Ha Hb.
  pose proof (RemoveFromStart_ok m a Hok) as Hok1.
  rewrite (RemoveFromStart_function m a Hok) in *.
  cbn [fst] in Hok1.
  rewrite (RemoveFromStart_function _ b Hok1).
  rewrite (RemoveFromStart_function m (a + b) Hok).
  cbn [Version TargetDuration MediaSequence DiscontinuitySequence HasEndList
       SegmentGroups].
  destruct (trim_head_add (SegmentGroups m) a b Ha Hb) as [H1 H2].
  pose proof (count_segments_nonneg (SegmentGroups m)) as Hc.
  rewrite !SegmentCount_count. cbn [SegmentGroups].
  rewrite count_trim_head, H1, <- H2.
  rewrite <- (clamp_add a b (count_segments (SegmentGroups m)) Ha Hb Hc).
  rewrite !wrap32_add_l, !Z.add_assoc. reflexivity.
Qed.

Lemma RemoveFromStart_twice_witness :
  Manifest_ok manifest_2_3 /\ 0 <= 1 /\ 0 <= 3 /\
  let '(m1, (g1, s1)) := Manifest_RemoveFromStart manifest_2_3 1 in
  let '(m2, (g2, s2)) := Manifest_RemoveFromStart m1 3 in
  Manifest_RemoveFromStart manifest_2_3 (1 + 3) = (m2, (g1 + g2, s1 + s2)).
Proof.
  assert (Hok : Manifest_ok manifest_2_3).
  { unfold Manifest_ok, uint8_ok, uint32_ok. simpl. lia. }
  assert (H1 : 0 <= 1) by lia. assert (H3 : 0 <= 3) by lia.
  split; [exact Hok|]. split; [exact H1|]. split; [exact H3|].
  exact (RemoveFromStart_twice manifest_2_3 1 3 Hok H1 H3).
Defined.

(** X6.  The same for the end: removing [a] and then [b] segments from the
    end, both non-negative, is removing [a + b] at once. *)
Theorem RemoveFromEnd_twice (m : Manifest) (a b : Z) :
  Manifest_ok m -> 0 <= a -> 0 <= b ->
  let '(m1, (g1, s1)) := Manifest_RemoveFromEnd m a in
  let '(m2, (g2, s2)) := Manifest_RemoveFromEnd m1 b in
  Manifest_RemoveFromEnd m (a + b) = (m2, (g1 + g2, s1 + s2)).
Proof.
  intros Hok Ha Hb.
  pose proof (RemoveFromEnd_ok m a Hok) as Hok1.
  rewrite (RemoveFromEnd_function m a Hok) in *. cbv zeta in *.
  cbn [fst] in Hok1.
  rewrite (RemoveFromEnd_function _ b Hok1).
  rewrite (RemoveFromEnd_function m (a + b) Hok). cbv zeta.
  cbn [Version TargetDuration MediaSequence DiscontinuitySequence HasEndList
       SegmentGroups].
  rewrite mirror_groups_involutive.
  destruct (trim_head_add (rev (map mirror_group (SegmentGroups m))) a b Ha Hb)
    as [H1 H2].
  pose proof (count_segments_nonneg (SegmentGroups m)) as Hc.
  rewrite !SegmentCount_count. cbn [SegmentGroups].
  rewrite count_segments_mirror, count_trim_head, count_segments_mirror,
    H1, <- H2.
  rewrite <- (clamp_add a b (count_segments (SegmentGroups m)) Ha Hb Hc).
  rewrite !wrap32_add_l, !Z.add_assoc. reflexivity.
Qed.

Lemma RemoveFromEnd_twice_witness :
  Manifest_ok manifest_2_3 /\ 0 <= 1 /\ 0 <= 3 /\
  let '(m1, (g1, s1)) := Manifest_RemoveFromEnd manifest_2_3 1 in
  let '(m2, (g2, s2)) := Manifest_RemoveFromEnd m1 3 in
  Manifest_RemoveFromEnd manifest_2_3 (1 + 3) = (m2, (g1 + g2, s1 + s2)).
Proof.
  assert (Hok : Manifest_ok manifest_2_3).
  { unfold Manifest_ok, uint8_ok, uint32_ok. simpl. lia. }
  assert (H1 : 0 <= 1) by lia. assert (H3 : 0 <= 3) by lia.
  split; [exact Hok|]. split; [exact H1|]. split; [exact H3|].
  exact (RemoveFromEnd_twice manifest_2_3 1 3 Hok H1 H3).
Defined.

(** * Further properties of the merger *)

Lemma Merge_fields (base other : Manifest) :
  Manifest_Merge base other =
  (mkManifest (Z.max (Version base) (Version other))
              (Z.max (TargetDuration base) (TargetDuration other))
              (MediaSequence base) (DiscontinuitySequence base)
              (HasEndList base)
              (SegmentGroups base ++ SegmentGroups other),
   (TargetDuration base <? TargetDuration other)
   || (Version base <? Version other)).
Proof.
  unfold Manifest_Merge.
  destruct (Z.ltb_spec (TargetDuration base) (TargetDuration other));
    simpl; destruct (Z.ltb_spec (Version base) (Version other)); simpl;
    unfold set_SegmentGroups, set_Version, set_TargetDuration; simpl;
    f_equal; f_equal; lia.
Qed.

(** X7.  [Merge] reports a breaking change exactly when [base] is not
    compatible with [other]; whatever it reports, the merged manifest is
    compatible with [other] and with what [base] was, so merging the same
    [other] once more reports no breaking change. *)
Theorem Merge_breaks_iff_incompatible (base other : Manifest) :
  let base' := fst (Manifest_Merge base other) in
  snd (Manifest_Merge base other) = negb (Manifest_IsCompatible base other) /\
  Manifest_IsCompatible base' other = true /\
  Manifest_IsCompatible base' base = true /\
  snd (Manifest_Merge base' other) = false.
Proof.
  cbv zeta. rewrite !Merge_fields. unfold Manifest_IsCompatible. simpl.
  repeat split.
  - destruct (Z.ltb_spec (TargetDuration base) (TargetDuration other));
      destruct (Z.ltb_spec (Version base) (Version other));
      destruct (Z.geb_spec (Version base) (Version other));
      destruct (Z.geb_spec (TargetDuration base) (TargetDuration other));
      simpl; try reflexivity; lia.
  - apply andb_true_iff. split; apply Z.geb_le; lia.
  - apply andb_true_iff. split; apply Z.geb_le; lia.
  - apply orb_false_iff. split; apply Z.ltb_ge; lia.
Qed.

(** X8.  [IsCompatible] is reflexive and transitive: every manifest is
    compatible with itself, and a manifest compatible with a second one is
    compatible with every manifest the second is compatible with. *)
Theorem IsCompatible_preorder :
  (forall m, Manifest_IsCompatible m m = true) /\
  (forall a b c,
     Manifest_IsCompatible a b = true -> Manifest_IsCompatible b c = true ->
     Manifest_IsCompatible a c = true).
Proof.
  unfold Manifest_IsCompatible. split.
  - intros m. apply andb_true_iff. split; apply Z.geb_le; lia.
  - intros a b c Hab Hbc.
    apply andb_true_iff in Hab. apply andb_true_iff in Hbc.
    destruct Hab as [H1 H2]. destruct Hbc as [H3 H4].
    apply Z.geb_le in H1, H2, H3, H4.
    apply andb_true_iff. split; apply Z.geb_le; lia.
Qed.

Lemma IsCompatible_preorder_witness :
  Manifest_IsCompatible (mkManifest 3 8 0 0 true []) (mkManifest 3 4 0 0 true [])
    = true /\
  Manifest_IsCompatible (mkManifest 3 4 0 0 true []) (mkManifest 2 4 0 0 true [])
    = true /\
  Manifest_IsCompatible (mkManifest 3 8 0 0 true []) (mkManifest 2 4 0 0 true [])
    = true.
Proof.
  split; [reflexivity|]. split; [reflexivity|].
  exact (proj2 IsCompatible_preorder
           (mkManifest 3 8 0 0 true []) (mkManifest 3 4 0 0 true [])
           (mkManifest 2 4 0 0 true []) eq_refl eq_refl).
Defined.

(** X9.  Merging is associative: merging [b] into [a] and then [c] leaves
    the manifest that merging into [a] the merge of [c] into [b] leaves,
    and one of the two calls of the first way reports a breaking change
    exactly when the outer call of the second way does.  The merged
    manifest holds the segments of both, those of [base] first, so its
    [SegmentCount] is the sum of the two. *)
Theorem Merge_associative (a b c : Manifest) :
  let ab := Manifest_Merge a b in
  let bc := Manifest_Merge b c in
  fst (Manifest_Merge (fst ab) c) = fst (Manifest_Merge a (fst bc)) /\
  snd ab || snd (Manifest_Merge (fst ab) c) = snd (Manifest_Merge a (fst bc)) /\
  all_segments (SegmentGroups (fst ab))
    = all_segments (SegmentGroups a) ++ all_segments (SegmentGroups b) /\
  SegmentCount (fst ab) = SegmentCount a + SegmentCount b.
Proof.
  cbv zeta. rewrite !Merge_fields. simpl. rewrite !SegmentCount_count. simpl.
  split; [|split; [|split]].
  - rewrite app_assoc. f_equal; lia.
  - destruct (Z.ltb_spec (TargetDuration a) (TargetDuration b));
      destruct (Z.ltb_spec (Version a) (Version b));
      destruct (Z.ltb_spec (Z.max (TargetDuration a) (TargetDuration b))
                           (TargetDuration c));
      destruct (Z.ltb_spec (Z.max (Version a) (Version b)) (Version c));
      destruct (Z.ltb_spec (TargetDuration a)
                           (Z.max (TargetDuration b) (TargetDuration c)));
      destruct (Z.ltb_spec (Version a) (Z.max (Version b) (Version c)));
      simpl; try reflexivity; lia.
  - unfold all_segments. apply flat_map_app.
  - apply count_segments_app.
Qed.

(** * Further properties of the parser's helpers *)

Lemma digit_of_range (c : ascii) (d : Z) : digit_of c = Some d -> 0 <= d <= 9.
Proof.
  unfold digit_of.
  destruct (Z.leb_spec 48 (Z.of_N (N_of_ascii c)));
    destruct (Z.leb_spec (Z.of_N (N_of_ascii c)) 57); simpl;
    intros [= <-]; lia.
Qed.

Lemma digits_value_ge (s : string) (n v : Z) :
  0 <= n -> digits_value s n = Some v -> n <= v.
Proof.
  revert n. induction s as [|c s IH]; simpl; intros n Hn.
  - intros [= <-]. lia.
  - destruct (digit_of c) as [d|] eqn:E; [|discriminate].
    apply digit_of_range in E. intros H. apply IH in H; lia.
Qed.

(** The digit loop of [ParseUint] reads the decimal value, and accepts it
    exactly when it does not exceed [maxVal]. *)
Lemma ParseUint_loop_spec (s0 s : string) (maxVal n v : Z) :
  0 <= n <= maxVal -> maxVal < 2 ^ 64 ->
  ParseUint_loop s0 s maxVal n = inl v <->
  digits_value s n = Some v /\ v <= maxVal.
Proof.
  revert n. induction s as [|c s IH]; cbn [ParseUint_loop digits_value];
    intros n Hn Hmax.
  - split; [intros [= <-]; split; [reflexivity|lia]|intros [[= <-] _]; reflexivity].
  - destruct (digit_of c) as [d|] eqn:E;
      [|split; [discriminate|intros [H _]; discriminate]].
    apply digit_of_range in E.
    change ((2 ^ 64 - 1) / 10 + 1) with 1844674407370955162.
    change (2 ^ 64) with 18446744073709551616 in *.
    destruct (Z.geb_spec n 1844674407370955162) as [Hcut|Hcut].
    { split; [discriminate|]. intros [H Hv].
      apply digits_value_ge in H; lia. }
    destruct (Z.geb_spec (n * 10 + d) 18446744073709551616) as [Hov|Hov];
      destruct (Z.gtb_spec (n * 10 + d) maxVal) as [Hgt|Hle];
      cbv beta iota delta [orb];
      try (apply IH; lia);
      (split; [discriminate|]); intros [H Hv];
      apply digits_value_ge in H; lia.
Qed.

Lemma parseUintValue_iff (field line : string) (lineNumber bitSize v : Z) :
  0 <= bitSize <= 64 ->
  parseUintValue field line lineNumber bitSize = inl v <->
  getValue line <> ""%string /\
  digits_value (getValue line) 0 = Some v /\ v < 2 ^ bitSize.
Proof.
  intros Hb.
  assert (Hpow : 0 < 2 ^ bitSize <= 2 ^ 64).
  { split; [apply Z.pow_pos_nonneg; lia|apply Z.pow_le_mono_r; lia]. }
  unfold parseUintValue, ParseUint.
  destruct (String.eqb_spec (getValue line) ""%string) as [E|E].
  - split; [discriminate|intros [H _]; contradiction].
  - pose proof (ParseUint_loop_spec (getValue line) (getValue line)
                  (2 ^ bitSize - 1) 0 v ltac:(lia) ltac:(lia)) as H.
    destruct (ParseUint_loop (getValue line) (getValue line)
                             (2 ^ bitSize - 1) 0) as [r|err].
    + split.
      * intros [= ->]. destruct (proj1 H eq_refl) as [H1 H2].
        split; [exact E|]. split; [exact H1|lia].
      * intros (_ & H1 & H2). f_equal.
        assert (Hr : @inl Z NumError r = inl v)
          by (apply H; split; [exact H1|lia]).
        injection Hr as ->. reflexivity.
    + split; [discriminate|].
      intros (_ & H1 & H2).
      assert (Hr : @inr Z NumError err = inl v)
        by (apply H; split; [exact H1|lia]).
      discriminate.
Qed.

(** X13.  [parseUintValue] returns exactly the number written in decimal
    digits behind the first colon of the line: it succeeds with [v] if and
    only if that text is non-empty, is made of digits only, reads [v] in
    base 10, and [v] fits in [bitSize] bits.  So the conversions to
    [uint8] and [uint32] that follow it in the parser change nothing. *)
Theorem parseUintValue_reads_decimal (field line : string)
        (lineNumber bitSize v : Z) :
  0 < bitSize <= 64 ->
  (parseUintValue field line lineNumber bitSize = inl v <->
   getValue line <> ""%string /\
   digits_value (getValue line) 0 = Some v /\ v < 2 ^ bitSize) /\
  (parseUintValue field line lineNumber bitSize = inl v ->
   0 <= v /\ (bitSize = 8 -> wrap8 v = v) /\ (bitSize = 32 -> wrap32 v = v)).
Proof.
  intros Hb.
  pose proof (parseUintValue_iff field line lineNumber bitSize v
                                 ltac:(lia)) as Hiff.
  split; [exact Hiff|].
  intros H. apply Hiff in H. destruct H as (_ & H1 & H2).
  apply digits_value_ge in H1; [|lia].
  split; [exact H1|]. split; intros ->.
  - apply wrap8_small. unfold uint8_ok. lia.
  - apply wrap32_small. unfold uint32_ok. lia.
Qed.

Lemma parseUintValue_reads_decimal_witness :
  0 < 8 <= 64 /\
  parseUintValue VersionField "#EXT-X-VERSION:3" 2 8 = inl 3 /\
  (0 <= 3 /\ (8 = 8 -> wrap8 3 = 3) /\ (8 = 32 -> wrap32 3 = 3)).
Proof.
  assert (Hb : 0 < 8 <= 64) by lia.
  assert (Hp : parseUintValue VersionField "#EXT-X-VERSION:3" 2 8 = inl 3)
    by reflexivity.
  split; [exact Hb|]. split; [exact Hp|].
  exact (proj2 (parseUintValue_reads_decimal VersionField "#EXT-X-VERSION:3"
                  2 8 3 Hb) Hp).
Defined.

(** Printing a number in decimal and reading the digits gives it back. *)
Lemma digits_value_acc (d : Decimal.uint) (acc : positive) :
  digits_value (NilEmpty.string_of_uint d) (Z.pos acc)
  = Some (Z.pos (Pos.of_uint_acc d acc)).
Proof.
  revert acc. induction d; intros acc;
    cbn [NilEmpty.string_of_uint digits_value Pos.of_uint_acc];
    try reflexivity;
    change (digit_of "0") with (Some 0); change (digit_of "1") with (Some 1);
    change (digit_of "2") with (Some 2); change (digit_of "3") with (Some 3);
    change (digit_of "4") with (Some 4); change (digit_of "5") with (Some 5);
    change (digit_of "6") with (Some 6); change (digit_of "7") with (Some 7);
    change (digit_of "8") with (Some 8); change (digit_of "9") with (Some 9);
    cbv beta iota; rewrite <- IHd; f_equal; lia.
Qed.

Lemma digits_value_of_uint (d : Decimal.uint) :
  digits_value (NilEmpty.string_of_uint d) 0 = Some (Z.of_N (Pos.of_uint d)).
Proof.
  induction d; cbn [NilEmpty.string_of_uint digits_value Pos.of_uint];
    try reflexivity;
    change (digit_of "0") with (Some 0); change (digit_of "1") with (Some 1);
    change (digit_of "2") with (Some 2); change (digit_of "3") with (Some 3);
    change (digit_of "4") with (Some 4); change (digit_of "5") with (Some 5);
    change (digit_of "6") with (Some 6); change (digit_of "7") with (Some 7);
    change (digit_of "8") with (Some 8); change (digit_of "9") with (Some 9);
    cbv beta iota; try exact IHd; apply (digits_value_acc d).
Qed.

Lemma FormatUint_digits (v : Z) :
  0 <= v ->
  FormatUint v <> ""%string /\ digits_value (FormatUint v) 0 = Some v.
Proof.
  intros Hv. unfold FormatUint.
  pose proof (DecimalN.Unsigned.of_to (Z.to_N v)) as Hof.
  unfold N.of_uint in Hof.
  pose proof (digits_value_of_uint (N.to_uint (Z.to_N v))) as Hd.
  rewrite Hof, Z2N.id in Hd by exact Hv.
  unfold NilZero.string_of_uint.
  destruct (N.to_uint (Z.to_N v)); split; (discriminate || exact Hd).
Qed.

(** * Rendering, then parsing *)

Lemma Cut_app (a b : string) (c : ascii) :
  contains c a = false -> Cut (a ++ String c b)%string c = (a, b, true).
Proof.
  induction a as [|x a IH]; simpl; intros H.
  - rewrite Ascii.eqb_refl. reflexivity.
  - apply orb_false_iff in H. destruct H as [Hx Ha].
    rewrite Hx, (IH Ha). reflexivity.
Qed.

Lemma is_path_line_all (line : string) :
  is_path_line line = true ->
  HasPrefix line VersionField = false /\
  HasPrefix line TargetDurationField = false /\
  HasPrefix line MediaSequenceField = false /\
  HasPrefix line DiscontinuitySequenceField = false /\
  HasPrefix line SegmentField = false /\
  HasPrefix line DiscontinuityField = false /\
  HasPrefix line EndListField = false.
Proof.
  unfold is_path_line. intros H. apply negb_true_iff in H.
  repeat (apply orb_false_iff in H; destruct H as [H ?]).
  repeat split; assumption.
Qed.

Lemma parseUintValue_FormatUint (field line : string) (lineNumber bitSize v : Z) :
  getValue line = FormatUint v -> 0 <= bitSize <= 64 -> 0 <= v < 2 ^ bitSize ->
  parseUintValue field line lineNumber bitSize = inl v.
Proof.
  intros Hval Hb Hv. apply parseUintValue_iff; [exact Hb|].
  destruct (FormatUint_digits v ltac:(lia)) as [H1 H2].
  rewrite Hval. split; [exact H1|]. split; [exact H2|lia].
Qed.

Lemma Segment_eta (s : Segment) :
  mkSegment (Path s) (Duration s) (Title s) = s.
Proof. destruct s; reflexivity. Qed.

Section RoundTrip.

Variable ParseFloat32 : string -> float32 + NumError.
Variable FormatFloat32 : float32 -> string.

Local Abbreviation step := (parse_line ParseFloat32).
Local Abbreviation run := (parse_lines ParseFloat32).
Local Abbreviation Parse := (ParseHlsManifest ParseFloat32).
Local Abbreviation Render := (Manifest_String FormatFloat32).
Local Abbreviation seglines := (segment_lines FormatFloat32).
Local Abbreviation grouplines := (group_lines FormatFloat32).
Local Abbreviation prints_ok := (Duration_prints_ok ParseFloat32 FormatFloat32).

(** The four header lines set the four fields. *)
Lemma run_header_lines (m : Manifest) (rest : list string) :
  Manifest_ok m ->
  run parser_init 0 (header_lines m ++ rest) =
  run (mkParser (mkManifest (Version m) (TargetDuration m) (MediaSequence m)
                            (DiscontinuitySequence m) false [])
                None None)
      4 rest.
Proof.
  intros (Hv & Ht & Hm & Hd). unfold header_lines. cbn [app].
  unfold uint8_ok, uint32_ok in *.
  rewrite parse_lines_cons. unfold parse_line at 1. cbv zeta.
  change (HasPrefix (VersionField ++ ":" ++ FormatUint (Version m)) VersionField)
    with true. cbv iota.
  rewrite (parseUintValue_FormatUint VersionField _ _ 8 (Version m))
    by (reflexivity || lia).
  rewrite wrap8_small by exact Hv.
  rewrite parse_lines_cons. unfold parse_line at 1. cbv zeta.
  change (HasPrefix (TargetDurationField ++ ":"
                     ++ FormatFloat_uint8 (TargetDuration m)) VersionField)
    with false.
  change (HasPrefix (TargetDurationField ++ ":"
                     ++ FormatFloat_uint8 (TargetDuration m)) TargetDurationField)
    with true. cbv iota.
  rewrite (parseUintValue_FormatUint TargetDurationField _ _ 8 (TargetDuration m))
    by (reflexivity || lia).
  rewrite wrap8_small by exact Ht.
  rewrite parse_lines_cons. unfold parse_line at 1. cbv zeta.
  change (HasPrefix (MediaSequenceField ++ ":" ++ FormatUint (MediaSequence m))
                    VersionField) with false.
  change (HasPrefix (MediaSequenceField ++ ":" ++ FormatUint (MediaSequence m))
                    TargetDurationField) with false.
  change (HasPrefix (MediaSequenceField ++ ":" ++ FormatUint (MediaSequence m))
                    MediaSequenceField) with true. cbv iota.
  rewrite (parseUintValue_FormatUint MediaSequenceField _ _ 32 (MediaSequence m))
    by (reflexivity || lia).
  rewrite wrap32_small by exact Hm.
  rewrite parse_lines_cons. unfold parse_line at 1. cbv zeta.
  change (HasPrefix (DiscontinuitySequenceField ++ ":"
                     ++ FormatUint (DiscontinuitySequence m)) VersionField)
    with false.
  change (HasPrefix (DiscontinuitySequenceField ++ ":"
                     ++ FormatUint (DiscontinuitySequence m)) TargetDurationField)
    with false.
  change (HasPrefix (DiscontinuitySequenceField ++ ":"
                     ++ FormatUint (DiscontinuitySequence m)) MediaSequenceField)
    with false.
  change (HasPrefix (DiscontinuitySequenceField ++ ":"
                     ++ FormatUint (DiscontinuitySequence m))
                    DiscontinuitySequenceField) with true. cbv iota.
  rewrite (parseUintValue_FormatUint DiscontinuitySequenceField _ _ 32
             (DiscontinuitySequence m)) by (reflexivity || lia).
  rewrite wrap32_small by exact Hd.
  reflexivity.
Qed.

(** A segment-info line that [String] wrote opens a segment. *)
Lemma step_info_line (st : ParserState) (i : Z) (s : Segment) :
  ps_tempSegment st = None -> prints_ok (Duration s) ->
  step st i (SegmentField ++ ":" ++ FormatFloat32 (Duration s) ++ ","
             ++ Title s) =
  Next (mkParser (ps_manifest st)
                 (match ps_tempSegmentGroup st with
                  | None => Some (mkSegmentGroup [])
                  | Some g => Some g
                  end)
                 (Some (mkSegment "" (Duration s) (Title s)))).
Proof.
  intros Hpend (_ & Hcomma & Hparse). unfold parse_line. cbv zeta.
  change (HasPrefix (SegmentField ++ ":" ++ FormatFloat32 (Duration s) ++ ","
                     ++ Title s) VersionField) with false.
  change (HasPrefix (SegmentField ++ ":" ++ FormatFloat32 (Duration s) ++ ","
                     ++ Title s) TargetDurationField) with false.
  change (HasPrefix (SegmentField ++ ":" ++ FormatFloat32 (Duration s) ++ ","
                     ++ Title s) MediaSequenceField) with false.
  change (HasPrefix (SegmentField ++ ":" ++ FormatFloat32 (Duration s) ++ ","
                     ++ Title s) DiscontinuitySequenceField) with false.
  change (HasPrefix (SegmentField ++ ":" ++ FormatFloat32 (Duration s) ++ ","
                     ++ Title s) SegmentField) with true.
  cbv iota. rewrite Hpend.
  change (getValue (SegmentField ++ ":" ++ FormatFloat32 (Duration s) ++ ","
                    ++ Title s))
    with (FormatFloat32 (Duration s) ++ String ","%char (Title s))%string.
  rewrite (Cut_app _ _ _ Hcomma). cbv beta iota delta [negb].
  rewrite Hparse. reflexivity.
Qed.

(** A path line closes the pending segment into the open group. *)
Lemma step_path_line (st : ParserState) (i : Z) (line : string)
      (g : SegmentGroup) (p : Segment) :
  ps_tempSegmentGroup st = Some g -> ps_tempSegment st = Some p ->
  is_path_line line = true ->
  step st i line =
  Next (mkParser (ps_manifest st)
                 (Some (mkSegmentGroup
                          (Segments g
                           ++ [mkSegment line (Duration p) (Title p)])))
                 None).
Proof.
  intros Hg Hp Hline.
  destruct (is_path_line_all line Hline) as (H1 & H2 & H3 & H4 & H5 & H6 & H7).
  unfold parse_line. cbv zeta.
  rewrite H1, H2, H3, H4, H5, H6, H7, Hg, Hp. reflexivity.
Qed.

(** A discontinuity line closes the open group. *)
Lemma step_discontinuity_line (st : ParserState) (i : Z) :
  step st i DiscontinuityField =
  Next (mkParser (match ps_tempSegmentGroup st with
                  | Some g =>
                      set_SegmentGroups (SegmentGroups (ps_manifest st) ++ [g])
                                        (ps_manifest st)
                  | None => ps_manifest st
                  end)
                 None (ps_tempSegment st)).
Proof. reflexivity. Qed.

(** The two lines of a segment add it to the open group. *)
Lemma run_segment_lines (M : Manifest) (T : list Segment) (s : Segment)
      (i : Z) (rest : list string) :
  Segment_text_ok s -> prints_ok (Duration s) ->
  run (mkParser M (Some (mkSegmentGroup T)) None) i (seglines s ++ rest) =
  run (mkParser M (Some (mkSegmentGroup (T ++ [s]))) None) (i + 1 + 1) rest.
Proof.
  intros (_ & _ & Hpath) Hd. unfold segment_lines. cbn [app].
  rewrite parse_lines_cons, step_info_line by (reflexivity || exact Hd).
  cbn [ps_manifest ps_tempSegmentGroup ps_tempSegment].
  rewrite parse_lines_cons.
  rewrite (step_path_line _ _ _ (mkSegmentGroup T)
                          (mkSegment "" (Duration s) (Title s)))
    by (reflexivity || exact Hpath).
  cbn [ps_manifest Segments Duration Title].
  rewrite Segment_eta. reflexivity.
Qed.

Lemma run_segments_lines (ss : list Segment) :
  forall (M : Manifest) (T : list Segment) (i : Z) (rest : list string),
    Forall (fun s => Segment_text_ok s /\ prints_ok (Duration s)) ss ->
    exists j,
      run (mkParser M (Some (mkSegmentGroup T)) None) i
          (flat_map seglines ss ++ rest) =
      run (mkParser M (Some (mkSegmentGroup (T ++ ss))) None) j rest.
Proof.
  induction ss as [|s ss IH]; intros M T i rest H.
  - exists i. cbn [flat_map app]. rewrite app_nil_r. reflexivity.
  - inversion H as [|s' ss' [Hs Hd] Hss]; subst. cbn [flat_map].
    rewrite <- app_assoc, (run_segment_lines M T s i _ Hs Hd).
    destruct (IH M (T ++ [s]) (i + 1 + 1) rest Hss) as [j Hj].
    exists j. rewrite Hj, <- app_assoc. reflexivity.
Qed.

(** The lines of a group that is not empty leave it open. *)
Lemma run_group_lines (M : Manifest) (g : SegmentGroup) (i : Z)
      (rest : list string) :
  nonempty_group g ->
  Forall (fun s => Segment_text_ok s /\ prints_ok (Duration s)) (Segments g) ->
  exists j,
    run (mkParser M None None) i (flat_map seglines (Segments g) ++ rest) =
    run (mkParser M (Some g) None) j rest.
Proof.
  destruct g as [[|s ss]]; intros Hne H; [exfalso; apply Hne; reflexivity|].
  cbn [Segments] in *. inversion H as [|s' ss' [Hs Hd] Hss]; subst.
  cbn [flat_map]. rewrite <- app_assoc.
  destruct Hs as (Hs1 & Hs2 & Hpath).
  unfold segment_lines at 1. cbn [app].
  rewrite parse_lines_cons, step_info_line by (reflexivity || exact Hd).
  cbn [ps_manifest ps_tempSegmentGroup ps_tempSegment].
  rewrite parse_lines_cons.
  rewrite (step_path_line _ _ _ (mkSegmentGroup [])
                          (mkSegment "" (Duration s) (Title s)))
    by (reflexivity || exact Hpath).
  cbn [ps_manifest Segments Duration Title app].
  rewrite Segment_eta.
  destruct (run_segments_lines ss M [s] (i + 1 + 1) rest Hss) as [j Hj].
  exists j. exact Hj.
Qed.

(** The lines of the groups: every group but the last is closed by its
    discontinuity line, the last one is left open. *)
Lemma run_groups_lines (V T MS DS : Z) (E : bool) (count : Z)
      (groups : list SegmentGroup) :
  forall (done : list SegmentGroup) (idx i : Z) (rest : list string),
    Forall nonempty_group groups ->
    Forall (fun g => Forall (fun s => Segment_text_ok s /\ prints_ok (Duration s))
                            (Segments g)) groups ->
    idx + len groups = count ->
    exists closed temp j,
      run (mkParser (mkManifest V T MS DS E done) None None) i
          (grouplines idx count groups ++ rest) =
      run (mkParser (mkManifest V T MS DS E closed) temp None) j rest /\
      (closed ++ match temp with Some g => [g] | None => [] end
       = done ++ groups)%list.
Proof.
  induction groups as [|g groups IH]; intros done idx i rest Hne Hok Hidx.
  - exists done, None, i. split; reflexivity.
  - inversion Hne as [|g' gs' Hg Hgs]; subst.
    inversion Hok as [|g' gs' Hsg Hsgs]; subst.
    cbn [group_lines]. rewrite <- app_assoc.
    destruct (run_group_lines (mkManifest V T MS DS E done) g i
                ((if idx <? idx + len (g :: groups) - 1
                  then [DiscontinuityField] else [])
                 ++ grouplines (idx + 1) (idx + len (g :: groups)) groups
                 ++ rest)%list Hg Hsg) as [j Hj].
    rewrite <- app_assoc, Hj. clear Hj.
    rewrite len_cons. pose proof (len_nonneg groups) as Hlen.
    destruct groups as [|g2 groups].
    + change (len (@nil SegmentGroup)) with 0.
      replace (idx <? idx + (1 + 0) - 1) with false
        by (symmetry; apply Z.ltb_ge; lia).
      exists done, (Some g), j. split; reflexivity.
    + assert (Hpos : 0 < len (g2 :: groups)).
      { rewrite len_cons. pose proof (len_nonneg groups). lia. }
      replace (idx <? idx + (1 + len (g2 :: groups)) - 1) with true
        by (symmetry; apply Z.ltb_lt; lia).
      cbn [app]. rewrite parse_lines_cons, step_discontinuity_line.
      cbn [ps_manifest ps_tempSegmentGroup ps_tempSegment set_SegmentGroups
           SegmentGroups Version TargetDuration MediaSequence
           DiscontinuitySequence HasEndList].
      assert (Hcount : idx + 1 + len (g2 :: groups)
                       = idx + len (g :: g2 :: groups)).
      { rewrite (len_cons g). lia. }
      destruct (IH (done ++ [g])%list (idx + 1) (j + 1) rest Hgs Hsgs Hcount)
        as (closed & temp & k & Hrun & Heq).
      rewrite (len_cons g) in Hrun.
      exists closed, temp, k. split; [exact Hrun|].
      rewrite Heq, <- app_assoc. reflexivity.
Qed.

Lemma Durations_print_ok_Forall (m : Manifest) :
  Manifest_text_ok m -> Durations_print_ok ParseFloat32 FormatFloat32 m ->
  Forall (fun g => Forall (fun s => Segment_text_ok s /\ prints_ok (Duration s))
                          (Segments g)) (SegmentGroups m).
Proof.
  intros Ht Hd. apply Forall_forall. intros g Hg.
  apply Forall_forall. intros s Hs. split; [exact (Ht g s Hg Hs)|].
  exact (Hd g s Hg Hs).
Qed.

Lemma printed_group_lines_no_LF (groups : list SegmentGroup) (i count : Z) :
  Forall (fun g => Forall (fun s => Segment_text_ok s /\ prints_ok (Duration s))
                          (Segments g)) groups ->
  Forall (fun l => contains LF l = false) (grouplines i count groups).
Proof.
  intros H. revert i. induction H as [|g groups Hg _ IH]; intros i;
    cbn [group_lines]; [constructor|].
  apply Forall_app. split.
  - induction Hg as [|s ss [(Hp & Ht & _) (Hd & _)] _ IHs]; cbn [flat_map];
      [constructor|].
    apply Forall_app. split; [|exact IHs]. unfold segment_lines.
    constructor; [|constructor; [exact Hp|constructor]].
    rewrite !contains_app, Hd, Ht. reflexivity.
  - apply Forall_app. split; [|apply IH].
    destruct (i <? count - 1); [|constructor].
    constructor; [reflexivity|constructor].
Qed.

(** Parsing what [String] wrote for a finished manifest. *)
Lemma ParseHlsManifest_String (m : Manifest) :
  Manifest_ok m -> HasEndList m = true ->
  Forall nonempty_group (SegmentGroups m) ->
  Manifest_text_ok m -> Durations_print_ok ParseFloat32 FormatFloat32 m ->
  Parse (Render m) = (m, None).
Proof.
  intros Hok Hend Hne Htext Hdur.
  pose proof (Durations_print_ok_Forall m Htext Hdur) as Hall.
  rewrite Manifest_String_lines, Hend.
  assert (Hsplit :
            Split (unlines (DeclarationField
                            :: body_lines FormatFloat32 m ++ [EndListField])) LF
            = ((DeclarationField
                :: body_lines FormatFloat32 m ++ [EndListField])
               ++ [""%string])%list).
  { apply Split_unlines. constructor; [reflexivity|].
    apply Forall_app. split; [|constructor; [reflexivity|constructor]].
    unfold body_lines, header_lines. apply Forall_app. split.
    - repeat constructor; rewrite !contains_app; unfold FormatFloat_uint8;
        rewrite FormatUint_no_LF; reflexivity.
    - apply printed_group_lines_no_LF. exact Hall. }
  unfold ParseHlsManifest. cbv zeta. rewrite Hsplit. cbn [app hd tl].
  change (negb (String.eqb DeclarationField DeclarationField)) with false.
  cbv iota. unfold body_lines. rewrite <- !app_assoc.
  change (mkParser Manifest_zero None None) with parser_init.
  rewrite (run_header_lines m _ Hok).
  destruct (run_groups_lines (Version m) (TargetDuration m) (MediaSequence m)
              (DiscontinuitySequence m) false (len (SegmentGroups m))
              (SegmentGroups m) [] 0 4 ([EndListField] ++ [""%string])%list
              Hne Hall eq_refl)
    as (closed & temp & j & Hrun & Heq).
  rewrite Hrun. cbn [app].
  rewrite parse_lines_cons, parse_line_end_marker by reflexivity.
  unfold parse_finish.
  cbn [ps_manifest ps_tempSegmentGroup ps_tempSegment set_HasEndList
       set_SegmentGroups SegmentGroups Version TargetDuration MediaSequence
       DiscontinuitySequence HasEndList].
  cbn [app] in Heq. destruct m as [v t ms ds e gs]. cbn in Hend, Heq |- *.
  subst e. destruct temp as [g|].
  - cbn [set_SegmentGroups SegmentGroups Version TargetDuration MediaSequence
         DiscontinuitySequence HasEndList]. rewrite Heq. reflexivity.
  - rewrite app_nil_r in Heq. rewrite Heq. reflexivity.
Qed.

(** X14.  Parsing undoes rendering on finished manifests.  If the fields
    of [m] are in range, [m] has its end marker, no group of [m] is empty,
    every path and title is free of line feeds, no path starts with a tag,
    and every duration is printed without line feed or comma and read back
    by [ParseFloat], then [ParseHlsManifest (m.String())] is [m], without
    error. *)
Theorem parsing_undoes_rendering (m : Manifest) :
  Manifest_ok m -> HasEndList m = true ->
  Forall nonempty_group (SegmentGroups m) ->
  Manifest_text_ok m -> Durations_print_ok ParseFloat32 FormatFloat32 m ->
  Parse (Render m) = (m, None).
Proof. exact (ParseHlsManifest_String m). Qed.

(** X15.  An accepted text with an end marker round trips: if
    [ParseHlsManifest] returns [m] without error, [m] has its end marker
    and the durations of [m] print and read back, then rendering [m] and
    parsing the result gives [m] again, and rendering once more gives the
    same text. *)
Theorem accepted_text_with_end_marker_round_trips (data : string)
        (m : Manifest) :
  Parse data = (m, None) -> HasEndList m = true ->
  Durations_print_ok ParseFloat32 FormatFloat32 m ->
  Parse (Render m) = (m, None) /\
  Render (fst (Parse (Render m))) = Render m.
Proof.
  intros HP Hend Hdur.
  assert (Hback : Parse (Render m) = (m, None)).
  { apply ParseHlsManifest_String; try assumption.
    - pose proof (ParseHlsManifest_ok ParseFloat32 data) as Hok.
      rewrite HP in Hok. exact Hok.
    - exact (ParseHlsManifest_groups_nonempty ParseFloat32 data m HP).
    - exact (ParseHlsManifest_text_ok ParseFloat32 data m HP). }
  split; [exact Hback|]. rewrite Hback. reflexivity.
Qed.

End RoundTrip.

Lemma manifest_vod_prints_ok :
  Manifest_ok manifest_vod /\
  Forall nonempty_group (SegmentGroups manifest_vod) /\
  Manifest_text_ok manifest_vod /\
  Durations_print_ok ParseFloat32_digits FormatFloat32_digits manifest_vod.
Proof.
  split; [|split; [|split]].
  - repeat split; cbv; congruence.
  - constructor; [discriminate|constructor].
  - intros g s [<-|[]] [<-|[]]. repeat split.
  - intros g s [<-|[]] [<-|[]]. repeat split.
Qed.

Lemma parsing_undoes_rendering_witness :
  ParseHlsManifest ParseFloat32_digits
                   (Manifest_String FormatFloat32_digits manifest_vod)
  = (manifest_vod, None).
Proof.
  destruct manifest_vod_prints_ok as (H1 & H2 & H3 & H4).
  exact (parsing_undoes_rendering ParseFloat32_digits FormatFloat32_digits
           manifest_vod H1 eq_refl H2 H3 H4).
Defined.

Lemma accepted_text_with_end_marker_round_trips_witness :
  ParseHlsManifest ParseFloat32_digits playlist_vod = (manifest_vod, None) /\
  ParseHlsManifest ParseFloat32_digits
                   (Manifest_String FormatFloat32_digits manifest_vod)
  = (manifest_vod, None) /\
  Manifest_String FormatFloat32_digits
    (fst (ParseHlsManifest ParseFloat32_digits
            (Manifest_String FormatFloat32_digits manifest_vod)))
  = Manifest_String FormatFloat32_digits manifest_vod.
Proof.
  assert (HP : ParseHlsManifest ParseFloat32_digits playlist_vod
               = (manifest_vod, None)) by (vm_compute; reflexivity).
  split; [exact HP|].
  destruct manifest_vod_prints_ok as (_ & _ & _ & H4).
  exact (accepted_text_with_end_marker_round_trips
           ParseFloat32_digits FormatFloat32_digits playlist_vod manifest_vod
           HP eq_refl H4).
Defined.

(** ** The further parser properties on concrete playlists *)

Lemma parsed_groups_are_nonempty_witness :
  ParseHlsManifest ParseFloat32_digits playlist_vod = (manifest_vod, None) /\
  Forall nonempty_group (SegmentGroups manifest_vod).
Proof.
  assert (HP : ParseHlsManifest ParseFloat32_digits playlist_vod
               = (manifest_vod, None)) by (vm_compute; reflexivity).
  split; [exact HP|].
  exact (parsed_groups_are_nonempty ParseFloat32_digits playlist_vod
           manifest_vod HP).
Defined.

Lemma lines_behind_the_end_marker_are_ignored_witness :
  fst (ParseHlsManifest ParseFloat32_digits playlist_vod)
  = fst (ParseHlsManifest ParseFloat32_digits playlist_vod_trailer) /\
  (snd (ParseHlsManifest ParseFloat32_digits playlist_vod) = None <->
   snd (ParseHlsManifest ParseFloat32_digits playlist_vod_trailer) = None).
Proof.
  apply (lines_behind_the_end_marker_are_ignored ParseFloat32_digits
           playlist_vod playlist_vod_trailer
           "#EXTM3U" "#EXT-X-ENDLIST"
           ["#EXT-X-VERSION:3"; "#EXT-X-TARGETDURATION:4"; "#EXTINF:4,t";
            "0.ts"]%string
           [""%string]
           ["#EXTINF:oops"; "#EXT-X-VERSION:x"]%string);
    vm_compute; reflexivity.
Defined.

Lemma error_line_is_a_line_of_the_input_witness :
  ParseHlsManifest ParseFloat32_digits playlist_pending
  = (Manifest_zero, Some (segmentPathError 2)) /\
  1 <= Line (segmentPathError 2) <= len (Split playlist_pending LF).
Proof.
  assert (HP : ParseHlsManifest ParseFloat32_digits playlist_pending
               = (Manifest_zero, Some (segmentPathError 2)))
    by (vm_compute; reflexivity).
  split; [exact HP|].
  exact (error_line_is_a_line_of_the_input ParseFloat32_digits
           playlist_pending Manifest_zero (segmentPathError 2) HP).
Defined.

(** * Target durations *)

Lemma Z_eq_by_lt (a b : Z) : (forall t, t < a <-> t < b) -> a = b.
Proof.
  intros H. pose proof (H (a - 1)) as Ha. pose proof (H (b - 1)) as Hb. lia.
Qed.

Lemma Remove_segments_incl (m : Manifest) (n : Z) :
  incl (all_segments (SegmentGroups (fst (Manifest_RemoveFromStart m n))))
       (all_segments (SegmentGroups m)) /\
  incl (all_segments (SegmentGroups (fst (Manifest_RemoveFromEnd m n))))
       (all_segments (SegmentGroups m)).
Proof.
  split; intros s Hs.
  - destruct (RemoveFromStart_groups m n) as [G1 _].
    rewrite G1, all_segments_trim_head in Hs.
    rewrite <- (firstn_skipn (Z.to_nat (clamp n (count_segments (SegmentGroups m))))
                  (all_segments (SegmentGroups m))).
    apply in_or_app. right. exact Hs.
  - destruct (RemoveFromEnd_groups m n) as [G1 _]. cbv zeta in G1.
    rewrite G1, all_segments_mirror, all_segments_trim_head,
      all_segments_mirror in Hs.
    apply in_rev in Hs.
    apply in_rev.
    rewrite <- (firstn_skipn
                  (Z.to_nat (clamp n (count_segments
                                        (rev (map mirror_group (SegmentGroups m))))))
                  (rev (all_segments (SegmentGroups m)))).
    apply in_or_app. right. exact Hs.
Qed.

Section TargetDurationProperties.

Variable Segment_TargetDuration : Segment -> Z.

Local Abbreviation TD := Segment_TargetDuration.
Local Abbreviation Exceeds := (Manifest_ExceedsTargetDuration Segment_TargetDuration).
Local Abbreviation Valid := (Manifest_HasValidTargetDuration Segment_TargetDuration).
Local Abbreviation MaxTD := (Manifest_MaxTargetDuration Segment_TargetDuration).
Local Abbreviation longer t := (fun s : Segment => Segment_TargetDuration s >? t).

Lemma SegmentGroup_ExceedsTargetDuration_existsb (g : SegmentGroup) (t : Z) :
  SegmentGroup_ExceedsTargetDuration Segment_TargetDuration g t
  = existsb (longer t) (Segments g).
Proof.
  unfold SegmentGroup_ExceedsTargetDuration.
  induction (Segments g) as [|s ss IH]; simpl; [reflexivity|].
  rewrite IH. destruct (TD s >? t); reflexivity.
Qed.

Lemma Manifest_ExceedsTargetDuration_existsb (m : Manifest) (t : Z) :
  Exceeds m t = existsb (longer t) (all_segments (SegmentGroups m)).
Proof.
  unfold Manifest_ExceedsTargetDuration, all_segments.
  induction (SegmentGroups m) as [|g gs IH]; simpl; [reflexivity|].
  rewrite existsb_app, IH, SegmentGroup_ExceedsTargetDuration_existsb.
  destruct (existsb (longer t) (Segments g)); reflexivity.
Qed.

(** A segment exceeds [t] exactly when some segment's target duration is
    above [t]. *)
Lemma Manifest_ExceedsTargetDuration_iff (m : Manifest) (t : Z) :
  Exceeds m t = true <->
  exists s, In s (all_segments (SegmentGroups m)) /\ t < TD s.
Proof.
  rewrite Manifest_ExceedsTargetDuration_existsb, existsb_exists.
  split; intros (s & Hs & Ht); exists s; (split; [exact Hs|]);
    [apply Z.gtb_lt in Ht|apply Z.gtb_lt]; lia.
Qed.

Lemma SegmentGroup_MaxTargetDuration_lt (ss : list Segment) (a t : Z) :
  t < fold_left (fun mx s => let td := TD s in if td >? mx then td else mx)
                ss a
  <-> t < a \/ existsb (longer t) ss = true.
Proof.
  revert a. induction ss as [|s ss IH]; intros a; simpl.
  - split; [left; assumption|intros [H|H]; [exact H|discriminate]].
  - rewrite IH, orb_true_iff, Z.gtb_lt. cbv zeta.
    destruct (Z.gtb_spec (TD s) a); intuition lia.
Qed.

Lemma Manifest_MaxTargetDuration_loop_lt (gs : list SegmentGroup) (a t : Z) :
  0 <= a ->
  t < fold_left (fun mx g =>
                   let td := SegmentGroup_MaxTargetDuration
                               Segment_TargetDuration g in
                   if td >? mx then td else mx) gs a
  <-> t < a \/ existsb (longer t) (all_segments gs) = true.
Proof.
  unfold all_segments. revert a.
  induction gs as [|g gs IH]; intros a Ha; simpl.
  - split; [left; assumption|intros [H|H]; [exact H|discriminate]].
  - pose proof (SegmentGroup_MaxTargetDuration_lt (Segments g) 0 t) as Hg.
    change (fold_left _ (Segments g) 0)
      with (SegmentGroup_MaxTargetDuration Segment_TargetDuration g) in Hg.
    rewrite existsb_app, orb_true_iff. cbv zeta.
    destruct (Z.gtb_spec (SegmentGroup_MaxTargetDuration
                            Segment_TargetDuration g) a) as [Hgt|Hle];
      rewrite IH by lia; intuition lia.
Qed.

(** The largest target duration is above [t] exactly when [t] is negative
    or some segment's target duration is above [t]. *)
Lemma Manifest_MaxTargetDuration_lt (m : Manifest) (t : Z) :
  t < MaxTD m <->
  t < 0 \/ exists s, In s (all_segments (SegmentGroups m)) /\ t < TD s.
Proof.
  unfold Manifest_MaxTargetDuration.
  rewrite Manifest_MaxTargetDuration_loop_lt by lia.
  rewrite existsb_exists.
  split; (intros [H|(s & Hs & Ht)]; [left; exact H|right; exists s]);
    (split; [exact Hs|]); [apply Z.gtb_lt in Ht|apply Z.gtb_lt]; lia.
Qed.

Lemma Manifest_HasValidTargetDuration_iff (m : Manifest) :
  Valid m = true <->
  forall s, In s (all_segments (SegmentGroups m)) -> TD s <= TargetDuration m.
Proof.
  unfold Manifest_HasValidTargetDuration. rewrite negb_true_iff.
  rewrite <- not_true_iff_false, Manifest_ExceedsTargetDuration_iff.
  split.
  - intros H s Hs. destruct (Z.le_gt_cases (TD s) (TargetDuration m)) as [Hle|Hgt];
      [exact Hle|]. exfalso. apply H. exists s. split; [exact Hs|lia].
  - intros H (s & Hs & Ht). specialize (H s Hs). lia.
Qed.

(** X16.  [MaxTargetDuration] decides the two checks: for a target duration
    [t] (a [uint8], so not negative) [ExceedsTargetDuration(t)] holds
    exactly when [t] is below [MaxTargetDuration()], and
    [HasValidTargetDuration()] holds exactly when [MaxTargetDuration()] is
    at most the manifest's own target duration. *)
Theorem MaxTargetDuration_decides_the_checks (m : Manifest) (t : Z) :
  0 <= t -> 0 <= TargetDuration m ->
  (Exceeds m t = true <-> t < MaxTD m) /\
  (Valid m = true <-> MaxTD m <= TargetDuration m).
Proof.
  intros Ht Hm.
  assert (H : forall u, 0 <= u -> Exceeds m u = true <-> u < MaxTD m).
  { intros u Hu.
    rewrite Manifest_ExceedsTargetDuration_iff, Manifest_MaxTargetDuration_lt.
    intuition lia. }
  split; [exact (H t Ht)|].
  unfold Manifest_HasValidTargetDuration. rewrite negb_true_iff.
  rewrite <- not_true_iff_false, (H _ Hm). lia.
Qed.

(** X17.  Merging keeps target durations valid, and the largest target
    duration of the merged manifest is the larger of the two: if both
    manifests pass [HasValidTargetDuration], so does the receiver after
    [Merge]. *)
Theorem Merge_keeps_target_duration_valid (m m2 : Manifest) :
  MaxTD (fst (Manifest_Merge m m2)) = Z.max (MaxTD m) (MaxTD m2) /\
  (Valid m = true -> Valid m2 = true ->
   Valid (fst (Manifest_Merge m m2)) = true).
Proof.
  rewrite Merge_fields. cbn [fst]. split.
  - apply Z_eq_by_lt. intros t.
    rewrite Z.max_lt_iff, !Manifest_MaxTargetDuration_lt.
    cbn [SegmentGroups]. unfold all_segments. rewrite flat_map_app.
    split.
    + intros [H|(s & Hs & Ht)]; [left; left; exact H|].
      apply in_app_or in Hs. destruct Hs as [Hs|Hs];
        [left|right]; right; exists s; split; assumption.
    + intros [[H|(s & Hs & Ht)]|[H|(s & Hs & Ht)]];
        try (left; exact H); right; exists s;
        (split; [apply in_or_app|exact Ht]); [left|right]; exact Hs.
  - rewrite !Manifest_HasValidTargetDuration_iff. intros H1 H2 s Hs.
    cbn [SegmentGroups TargetDuration] in *. unfold all_segments in Hs.
    rewrite flat_map_app in Hs. apply in_app_or in Hs.
    destruct Hs as [Hs|Hs]; [specialize (H1 s Hs)|specialize (H2 s Hs)]; lia.
Qed.

(** X18.  Removing segments never raises the largest target duration, and
    a manifest that passes [HasValidTargetDuration] still passes it after
    [RemoveFromStart(n)] and after [RemoveFromEnd(n)]. *)
Theorem Remove_keeps_target_duration_valid (m : Manifest) (n : Z) :
  Manifest_ok m ->
  MaxTD (fst (Manifest_RemoveFromStart m n)) <= MaxTD m /\
  MaxTD (fst (Manifest_RemoveFromEnd m n)) <= MaxTD m /\
  (Valid m = true ->
   Valid (fst (Manifest_RemoveFromStart m n)) = true /\
   Valid (fst (Manifest_RemoveFromEnd m n)) = true).
Proof.
  intros Hok. destruct (Remove_segments_incl m n) as [Is Ie].
  assert (Hmax : forall m', incl (all_segments (SegmentGroups m'))
                                 (all_segments (SegmentGroups m)) ->
                            MaxTD m' <= MaxTD m).
  { intros m' Hincl. apply Z.nlt_ge. intros Hlt.
    apply Manifest_MaxTargetDuration_lt in Hlt.
    assert (Hm : MaxTD m < MaxTD m).
    { apply Manifest_MaxTargetDuration_lt.
      destruct Hlt as [H|(s & Hs & Ht)]; [left; exact H|].
      right. exists s. split; [apply Hincl; exact Hs|exact Ht]. }
    lia. }
  split; [exact (Hmax _ Is)|]. split; [exact (Hmax _ Ie)|].
  rewrite !Manifest_HasValidTargetDuration_iff. intros Hv.
  pose proof (RemoveFromStart_function m n Hok) as Fs.
  pose proof (RemoveFromEnd_function m n Hok) as Fe. cbv zeta in Fe.
  split; intros s Hs.
  - apply Is in Hs. rewrite Fs. cbn [fst TargetDuration]. exact (Hv s Hs).
  - apply Ie in Hs. rewrite Fe. cbn [fst TargetDuration]. exact (Hv s Hs).
Qed.

End TargetDurationProperties.

Lemma MaxTargetDuration_decides_the_checks_witness :
  (Manifest_ExceedsTargetDuration Segment_TargetDuration_round manifest_long 1
   = true
   <-> 1 < Manifest_MaxTargetDuration Segment_TargetDuration_round manifest_long)
  /\ (Manifest_HasValidTargetDuration Segment_TargetDuration_round manifest_long
      = true
      <-> Manifest_MaxTargetDuration Segment_TargetDuration_round manifest_long
          <= TargetDuration manifest_long).
Proof.
  apply (MaxTargetDuration_decides_the_checks Segment_TargetDuration_round
           manifest_long 1); vm_compute; discriminate.
Defined.

Lemma Merge_keeps_target_duration_valid_witness :
  Manifest_HasValidTargetDuration Segment_TargetDuration_round
    (fst (Manifest_Merge manifest_2_3 manifest_vod)) = true.
Proof.
  apply (proj2 (Merge_keeps_target_duration_valid Segment_TargetDuration_round
                  manifest_2_3 manifest_vod)); vm_compute; reflexivity.
Defined.

Lemma Remove_keeps_target_duration_valid_witness :
  Manifest_HasValidTargetDuration Segment_TargetDuration_round
    (fst (Manifest_RemoveFromStart manifest_2_3 3)) = true /\
  Manifest_HasValidTargetDuration Segment_TargetDuration_round
    (fst (Manifest_RemoveFromEnd manifest_2_3 3)) = true.
Proof.
  refine (proj2 (proj2 (Remove_keeps_target_duration_valid
                          Segment_TargetDuration_round manifest_2_3 3 _)) _).
  - repeat split; vm_compute; congruence.
  - vm_compute; reflexivity.
Defined.

(** * Longest segment *)

Ltac float_cases :=
  repeat match goal with
         | |- context [Z.compare ?x ?y] => destruct (Z.compare_spec x y)
         | |- context [Pos.compare_cont Eq ?x ?y] =>
             change (Pos.compare_cont Eq x y) with (Pos.compare x y);
             destruct (Pos.compare_spec x y)
         end;
  cbn; intros; try discriminate; try reflexivity; try lia.

(** If [d] is not above [a] and [b] is above [a], then [d] is not above
    [b]. *)
Lemma float_gt_raise (a b d : float32) :
  float_gt d a = false -> float_gt b a = true -> float_gt d b = false.
Proof.
  unfold float_gt, SFltb, SFcompare.
  destruct a as [sa|sa| |sa ma ea], b as [sb|sb| |sb mb eb],
    d as [sd|sd| |sd md ed];
    try destruct sa; try destruct sb; try destruct sd;
    try discriminate; try reflexivity; float_cases.
Qed.

(** If [g] is not above [a], and [d] is not above [g], then [d] is not
    above [a], unless [g] is NaN. *)
Lemma float_gt_keep (a g d : float32) :
  not_nan g ->
  float_gt g a = false -> float_gt d g = false -> float_gt d a = false.
Proof.
  unfold not_nan, float_gt, SFltb, SFcompare. intros Hg.
  destruct a as [sa|sa| |sa ma ea], g as [sg|sg| |sg mg eg],
    d as [sd|sd| |sd md ed];
    try (exfalso; apply Hg; reflexivity);
    try destruct sa; try destruct sg; try destruct sd;
    try discriminate; try reflexivity; float_cases.
Qed.

Lemma float_gt_irrefl (a : float32) : float_gt a a = false.
Proof.
  unfold float_gt, SFltb, SFcompare.
  destruct a as [sa|sa| |sa ma ea]; try destruct sa; try reflexivity;
    rewrite Z.compare_refl;
    change (Pos.compare_cont Eq ma ma) with (Pos.compare ma ma);
    rewrite Pos.compare_refl; reflexivity.
Qed.

Lemma zero_or_positive_not_nan (ss : list Segment) (d : float32) :
  zero_or_positive_of ss d -> not_nan d.
Proof.
  intros [->|(s & _ & _ & H)] E; [discriminate|].
  rewrite E in H. discriminate.
Qed.

(** The loop of a group, from any start that is zero or a positive
    duration seen before. *)
Lemma SegmentGroup_MaxDuration_loop (ss seen : list Segment) (a : float32) :
  let r := fold_left (fun mx s => let d := Duration s in
                                  if float_gt d mx then d else mx) ss a in
  zero_or_positive_of seen a ->
  (forall s, In s seen -> float_gt (Duration s) a = false) ->
  zero_or_positive_of (seen ++ ss) r /\
  (forall s, In s (seen ++ ss) -> float_gt (Duration s) r = false).
Proof.
  cbv zeta. revert seen a. induction ss as [|s ss IH]; intros seen a Ha Hb.
  - rewrite app_nil_r. split; assumption.
  - cbn [fold_left].
    replace (seen ++ s :: ss)%list with ((seen ++ [s]) ++ ss)%list
      by (rewrite <- app_assoc; reflexivity).
    apply IH.
    + destruct (float_gt (Duration s) a) eqn:E.
      * right. exists s. split; [apply in_or_app; right; left; reflexivity|].
        split; [reflexivity|].
        destruct Ha as [->|(s0 & _ & -> & H0)]; [exact E|].
        destruct (float_gt (Duration s) (S754_zero false)) eqn:E0;
          [reflexivity|].
        pose proof (float_gt_raise _ _ _ E0 H0) as H. congruence.
      * destruct Ha as [->|(s0 & Hs0 & -> & H0)]; [left; reflexivity|].
        right. exists s0.
        split; [apply in_or_app; left; exact Hs0|split; [reflexivity|exact H0]].
    + intros s1 Hs1. apply in_app_or in Hs1.
      destruct (float_gt (Duration s) a) eqn:E.
      * destruct Hs1 as [Hs1|[<-|[]]]; [|apply float_gt_irrefl].
        exact (float_gt_raise _ _ _ (Hb s1 Hs1) E).
      * destruct Hs1 as [Hs1|[<-|[]]]; [exact (Hb s1 Hs1)|exact E].
Qed.

Lemma SegmentGroup_MaxDuration_spec (g : SegmentGroup) :
  zero_or_positive_of (Segments g) (SegmentGroup_MaxDuration g) /\
  (forall s, In s (Segments g) ->
             float_gt (Duration s) (SegmentGroup_MaxDuration g) = false).
Proof.
  apply (SegmentGroup_MaxDuration_loop (Segments g) [] (S754_zero false)).
  - left. reflexivity.
  - intros s [].
Qed.

Lemma Manifest_MaxDuration_loop (gs seen : list SegmentGroup) (a : float32) :
  let r := fold_left (fun mx g => let d := SegmentGroup_MaxDuration g in
                                  if float_gt d mx then d else mx) gs a in
  zero_or_positive_of (all_segments seen) a ->
  (forall s, In s (all_segments seen) -> float_gt (Duration s) a = false) ->
  zero_or_positive_of (all_segments (seen ++ gs)) r /\
  (forall s, In s (all_segments (seen ++ gs)) ->
             float_gt (Duration s) r = false).
Proof.
  cbv zeta. revert seen a. induction gs as [|g gs IH]; intros seen a Ha Hb.
  - rewrite app_nil_r. split; assumption.
  - cbn [fold_left].
    replace (seen ++ g :: gs)%list with ((seen ++ [g]) ++ gs)%list
      by (rewrite <- app_assoc; reflexivity).
    destruct (SegmentGroup_MaxDuration_spec g) as [Hg1 Hg2].
    assert (Hall : all_segments (seen ++ [g])
                   = (all_segments seen ++ Segments g)%list).
    { unfold all_segments. rewrite flat_map_app. cbn [flat_map].
      rewrite app_nil_r. reflexivity. }
    apply IH; rewrite Hall.
    + destruct (float_gt (SegmentGroup_MaxDuration g) a) eqn:E.
      * destruct Hg1 as [Hz|(s & Hs & Hd & Hp)].
        -- left. exact Hz.
        -- right. exists s. split; [apply in_or_app; right; exact Hs|].
           split; assumption.
      * destruct Ha as [->|(s0 & Hs0 & -> & H0)]; [left; reflexivity|].
        right. exists s0.
        split; [apply in_or_app; left; exact Hs0|split; [reflexivity|exact H0]].
    + intros s Hs. apply in_app_or in Hs.
      destruct (float_gt (SegmentGroup_MaxDuration g) a) eqn:E.
      * destruct Hs as [Hs|Hs]; [|exact (Hg2 s Hs)].
        exact (float_gt_raise _ _ _ (Hb s Hs) E).
      * destruct Hs as [Hs|Hs]; [exact (Hb s Hs)|].
        apply (float_gt_keep a (SegmentGroup_MaxDuration g));
          [exact (zero_or_positive_not_nan _ _ Hg1)|exact E|exact (Hg2 s Hs)].
Qed.

(** X19.  [MaxDuration] returns zero or the duration of one of the
    manifest's segments that is above zero, so never NaN and nothing
    negative; and no segment of the manifest has a duration above it.  A
    segment whose duration is NaN is passed over. *)
Theorem MaxDuration_is_an_attained_bound (m : Manifest) :
  zero_or_positive_of (all_segments (SegmentGroups m)) (Manifest_MaxDuration m)
  /\ (forall s, In s (all_segments (SegmentGroups m)) ->
                float_gt (Duration s) (Manifest_MaxDuration m) = false).
Proof.
  apply (Manifest_MaxDuration_loop (SegmentGroups m) [] (S754_zero false)).
  - left. reflexivity.
  - intros s [].
Qed.

Lemma parsed_paths_are_the_untagged_lines_read_witness :
  ParseHlsManifest ParseFloat32_digits playlist_vod_trailer
    = (manifest_vod, None) /\
  paths manifest_vod = ["0.ts"%string] /\
  SegmentCount manifest_vod = 1.
Proof.
  assert (HP : ParseHlsManifest ParseFloat32_digits playlist_vod_trailer
               = (manifest_vod, None)) by (vm_compute; reflexivity).
  split; [exact HP|].
  exact (parsed_paths_are_the_untagged_lines_read ParseFloat32_digits
           playlist_vod_trailer manifest_vod HP).
Defined.
